(** * tanchishe: the snake engine and the score store of [src/app.js]

    A shallow embedding of the parts of [app.js] that carry state:
    - [DataStore]: the profile store kept in [localStorage] (lines 9-188);
    - [UserManager]: login, registration and the guest flag (lines 193-297);
    - [SnakeGame]: the game engine (lines 302-782), together with the two
      pieces of the browser it talks to: the table of live interval timers
      ([setInterval] / [clearInterval]) and [Math.random];
    - [UIController]: the handlers of the page (lines 787-1345), as far as
      they act on the game and on the session; what they write into the
      elements of the page is left out.

    Objects used as tables.  A lookup [table[name]] also finds the members
    that every object inherits from [Object.prototype] ([inherited] lists
    their names).  [DataStore] follows them: [getUser] tells a record from
    an inherited member, and the calls on one throw, store nothing, or
    write to [Object.prototype], as the code does.  The table [directions]
    of [setDirection] is modelled by its own four entries: a call of
    [setDirection] with an inherited name makes the pending direction an
    object without coordinates, which the states of this model do not
    have; the statements that depend on it say so ([plain_input]).

    Numbers.  Grid coordinates, the score and the tick interval are JS numbers
    that only ever hold small integers; they are modelled by [Z].  A value
    of [Math.random] is a rational ([Q]), and its product with the size of
    the grid is rounded as a double is ([double]) before the floor is
    taken.  The food's [scale] takes the fractional values 0, 0.15, 0.3,
    ... and is modelled by an exact rational; nothing below depends on how
    a double rounds 0.15 + 0.15 + ..., only on the tests [scale || 1] and
    [scale < 1]. *)

From Stdlib Require Import ZArith QArith Qround Lia Lqa.
From stdpp Require Import base gmap strings list.

Local Open Scope Z_scope.

(* ===================================================================== *)
(** * Objects used as tables *)
(* ===================================================================== *)

(** The members of [Object.prototype] (ECMAScript, sections 20.1.3 and
    B.2.2).  An object literal and an object read by [JSON.parse] inherit
    them: [table[name]] finds one of them when [table] has no entry of its
    own under [name].  All of them are functions, except [__proto__], an
    accessor: reading it answers [Object.prototype] itself, and assigning
    an object to it replaces the prototype of [table] and makes no
    entry. *)
Definition inherited (name : string) : bool :=
  existsb (String.eqb name)
    ["constructor"; "hasOwnProperty"; "isPrototypeOf"; "propertyIsEnumerable";
     "toLocaleString"; "toString"; "valueOf"; "__proto__";
     "__defineGetter__"; "__defineSetter__"; "__lookupGetter__"; "__lookupSetter__"].

(* ===================================================================== *)
(** * DataStore *)
(* ===================================================================== *)

Module DataStore.

(** How a call ends. *)
Inductive Completion (A : Type) : Type :=
  | Normal (a : A)   (* it returns [a] *)
  | TypeError        (* it throws a [TypeError]; every such call below
                        throws before it has written anything *)
  | Pollutes.        (* it has assigned to a property of [Object.prototype]
                        itself, which every object of the page inherits
                        from then on: the model follows the page no
                        further *)

Arguments Normal {A} a.
Arguments TypeError {A}.
Arguments Pollutes {A}.

(** One call after another. *)
Definition bind {A B : Type} (c : Completion A) (f : A → Completion B)
    : Completion B :=
  match c with
  | Normal a => f a
  | TypeError => TypeError
  | Pollutes => Pollutes
  end.

(** [{ score, date }], built in [addScore]. *)
Record ScoreRecord := mkScoreRecord {
  score : Z;
  date : string
}.

(** A user record.  [registerUser] writes all four fields; the record that
    [addLoginRecord] makes up for an unknown name has only the two lists. *)
Record User := mkUser {
  password : option string;
  loginHistory : list string;
  scores : list ScoreRecord;
  createdAt : option string
}.

(** The object stored under [STORAGE_KEY]: [{ users, currentUser }].
    [users] is a JS object used as a table from user names to records;
    the map holds its own entries (those that [JSON.stringify] writes and
    [JSON.parse] reads back). *)
Record Data := mkData {
  users : gmap string User;
  currentUser : option string
}.

(** The content of [localStorage] under [STORAGE_KEY], read through
    [JSON.parse]: [None] when the item is absent (or does not parse, in which
    case [getData] catches the exception and takes the same default). *)
Definition Storage : Type := option Data.

Definition emptyData : Data := mkData ∅ None.

(** [getData()], lines 17-25. *)
Definition getData (st : Storage) : Data :=
  match st with
  | Some data => data
  | None => emptyData
  end.

(** [saveData(data)], lines 31-37.  [localStorage.setItem] may raise (quota);
    the exception is caught and logged and the item keeps its old value.
    [accepted] says whether the browser took the write. *)
Definition saveData (accepted : bool) (data : Data) (st : Storage) : Storage :=
  if accepted then Some data else st.

(** The value of [data.users[username]]: the record stored under that
    name; without one, the member of [Object.prototype] of that name, if
    there is one; otherwise [undefined]. *)
Inductive Found :=
  | Own (user : User)
  | Inherited
  | Missing.

(** [getUser(username)], lines 62-65: [data.users[username] || null].  A
    record and an inherited member are both truthy; [Missing] is the
    answer [null]. *)
Definition getUser (st : Storage) (username : string) : Found :=
  match users (getData st) !! username with
  | Some user => Own user
  | None => if inherited username then Inherited else Missing
  end.

(** The assignment [data.users[username] = userData] for a record
    [userData], as [JSON.stringify] then writes it.  Under [__proto__],
    when the table has no entry of that name, the assignment goes to the
    setter of [Object.prototype]: the prototype of [users] is replaced and
    no entry is made, so nothing of it is written. *)
Definition assign_user (username : string) (userData : User) (data : Data) : Data :=
  match users data !! username with
  | None =>
      if String.eqb username "__proto__" then data
      else mkData (<[username := userData]> (users data)) (currentUser data)
  | Some _ => mkData (<[username := userData]> (users data)) (currentUser data)
  end.

(** [saveUser(username, userData)], lines 118-122, for a record. *)
Definition saveUser (accepted : bool) (username : string) (userData : User)
    (st : Storage) : Storage :=
  saveData accepted (assign_user username userData (getData st)) st.

(** [addScore(username, score)], lines 158-174.  [now] is the value of
    [new Date().toISOString()] at the call.  An inherited member has no
    [scores]: [user.scores.unshift] throws at line 168. *)
Definition addScore (accepted : bool) (username : string) (sc : Z)
    (now : string) (st : Storage) : Completion Storage :=
  match getUser st username with
  | Missing => Normal st                           (* if (!user) return; *)
  | Inherited => TypeError                         (* undefined.unshift *)
  | Own user =>
      let record := mkScoreRecord sc now in
      let unshifted := record :: scores user in    (* user.scores.unshift(record) *)
      let kept :=
        if (20 <? length unshifted)%nat
        then take 20 unshifted                     (* slice(0, 20) *)
        else unshifted in
      Normal
        (saveUser accepted username
           (mkUser (password user) (loginHistory user) kept (createdAt user)) st)
  end.

(** [getCurrentUser()], lines 43-45. *)
Definition getCurrentUser (st : Storage) : option string :=
  currentUser (getData st).

(** [setCurrentUser(username)], lines 51-55; [null] is [None]. *)
Definition setCurrentUser (accepted : bool) (username : option string)
    (st : Storage) : Storage :=
  let data := getData st in
  saveData accepted (mkData (users data) username) st.

(** [userExists(username)], lines 72-75: [data.users.hasOwnProperty(username)].
    The method is looked up on the table itself: once a user named
    [hasOwnProperty] is stored, what is found is that user's record, and
    calling it throws. *)
Definition userExists (st : Storage) (username : string) : Completion bool :=
  match users (getData st) !! "hasOwnProperty" with
  | Some _ => TypeError
  | None =>
      Normal match users (getData st) !! username with
             | Some _ => true
             | None => false
             end
  end.

(** [registerUser(username, password)], lines 83-97, with the value it
    returns.  [now] is [new Date().toISOString()]. *)
Definition registerUser (accepted : bool) (username password now : string)
    (st : Storage) : Completion (bool * Storage) :=
  bind (userExists st username) (λ found,
    if found then Normal (false, st)
    else
      let user := mkUser (Some password) [] [] (Some now) in
      Normal (true, saveData accepted (assign_user username user (getData st)) st)).

(** [verifyPassword(username, password)], lines 105-111.  A missing
    password and the empty string are both falsy; an inherited member has
    no [password]. *)
Definition verifyPassword (st : Storage) (username password0 : string) : bool :=
  match getUser st username with
  | Own user =>
      match password user with
      | None => false
      | Some p => if String.eqb p "" then false else String.eqb p password0
      end
  | Inherited => false
  | Missing => false
  end.

(** The list that [addLoginRecord] keeps: [unshift(now)], then
    [slice(0, 20)] when there are more than 20. *)
Definition unshift_login (now : string) (history : list string) : list string :=
  let unshifted := now :: history in
  if (20 <? length unshifted)%nat then take 20 unshifted else unshifted.

(** [addLoginRecord(username)], lines 128-151.  A name without a record
    gets one with the two lists only.  (The test [!user.loginHistory]
    never fires on the records of this model, which all have the list.)

    When [getUser] has found an inherited member, that member is what gets
    the list.  For a function ([toString], [constructor], ...) the list
    stays on the function, [saveUser] assigns the function to the table,
    and [JSON.stringify] leaves a function out: the data is written back
    as it was read.  For [__proto__] the member is [Object.prototype]
    itself, which gets a property [loginHistory]. *)
Definition addLoginRecord (accepted : bool) (username now : string)
    (st : Storage) : Completion Storage :=
  match getUser st username with
  | Own user =>
      Normal
        (saveUser accepted username
           (mkUser (password user) (unshift_login now (loginHistory user))
              (scores user) (createdAt user)) st)
  | Missing =>
      Normal (saveUser accepted username (mkUser None (unshift_login now []) [] None) st)
  | Inherited =>
      if String.eqb username "__proto__" then Pollutes
      else Normal (saveData accepted (getData st) st)
  end.

(** [Math.max(a, b, ...)] of at least one number. *)
Definition math_max (first : Z) (others : list Z) : Z :=
  foldl Z.max first others.

(** [getHighScore(username)], lines 181-187.  An inherited member has no
    [scores], so the answer is 0 as for a missing user. *)
Definition getHighScore (st : Storage) (username : string) : Z :=
  match getUser st username with
  | Own user =>
      match score <$> scores user with
      | [] => 0
      | first :: others => math_max first others
      end
  | Inherited => 0
  | Missing => 0
  end.

(** Both history lists of every stored user hold at most 20 entries. *)
Definition capped (st : Storage) : Prop :=
  ∀ username user,
    users (getData st) !! username = Some user →
    (length (scores user) ≤ 20)%nat ∧ (length (loginHistory user) ≤ 20)%nat.

(** Every user of the first store is a user of the second, with the same
    password and the same date of creation. *)
Definition keeps_accounts (st st' : Storage) : Prop :=
  ∀ username user,
    getUser st username = Own user →
    ∃ user', getUser st' username = Own user' ∧
             password user' = password user ∧ createdAt user' = createdAt user.

(** An example: the store holds one user, who already has twenty scores. *)
Definition veteran : User :=
  mkUser (Some "secret") [] (replicate 20 (mkScoreRecord 30 "2024-05-01T10:00:00.000Z")) None.

Definition veteran_store : Storage :=
  Some (mkData {["lin" := veteran]} (Some "lin")).

(** Another: a visitor has registered under the name [hasOwnProperty]. *)
Definition trapped_store : Storage :=
  Some (mkData {["hasOwnProperty" := mkUser (Some "secret") [] []
                                       (Some "2024-05-01T10:00:00.000Z")]} None).

End DataStore.

(* ===================================================================== *)
(** * UserManager *)
(* ===================================================================== *)

Module UserManager.

Import DataStore.

(** The [message] of a result of [login] or [register]. *)
Inductive Message :=
  | EnterUsername       (* 请输入用户名 *)
  | EnterPassword       (* 请输入密码 *)
  | UnknownUser         (* 用户不存在，请先注册 *)
  | WrongPassword       (* 密码错误 *)
  | LoginOk             (* 登录成功 *)
  | PasswordTooShort    (* 密码至少4个字符 *)
  | PasswordsDiffer     (* 两次密码输入不一致 *)
  | NameTaken           (* 用户名已被注册 *)
  | RegisterOk          (* 注册成功，请登录 *)
  | RegisterFailed.     (* 注册失败，请重试 *)

(** [{ success, message }]. *)
Record Result := mkResult {
  success : bool;
  message : Message
}.

(** What [UserManager] works on: its own flag [isGuest] and the data that
    [DataStore] keeps. *)
Record Session := mkSession {
  storage : Storage;
  isGuest : bool
}.

(** The name under which a guest is the current user. *)
Definition guestName : string := "游客".

Section Strings.

(** [String.prototype.trim] and the [length] of a JS string (in UTF-16
    code units).  Nothing is assumed about them. *)
Variable trim : string → string.
Variable js_length : string → nat.

(** [!s || s.trim() === ''], the test both forms make on a field. *)
Definition blank (s : string) : bool :=
  String.eqb s "" || String.eqb (trim s) "".

(** [login(username, password)], lines 203-227.  It writes twice; each
    write has its own [accepted].  The only call that can throw,
    [userExists] at line 214, comes before the first write. *)
Definition login (accepted1 accepted2 : bool) (username password now : string)
    (ss : Session) : Completion (Result * Session) :=
  if blank username then Normal (mkResult false EnterUsername, ss)
  else if blank password then Normal (mkResult false EnterPassword, ss)
  else
    let trimmedName := trim username in
    bind (userExists (storage ss) trimmedName) (λ found,
      if negb found then Normal (mkResult false UnknownUser, ss)
      else if negb (verifyPassword (storage ss) trimmedName password)
      then Normal (mkResult false WrongPassword, ss)
      else
        let st1 := setCurrentUser accepted1 (Some trimmedName) (storage ss) in
        bind (addLoginRecord accepted2 trimmedName now st1) (λ st2,
          Normal (mkResult true LoginOk, mkSession st2 false))).

(** [register(username, password, confirmPassword)], lines 236-263.  Both
    calls of [userExists] (line 253, and line 84 inside [registerUser])
    come before the write. *)
Definition register (accepted : bool) (username password confirmPassword now : string)
    (ss : Session) : Completion (Result * Session) :=
  if blank username then Normal (mkResult false EnterUsername, ss)
  else if blank password then Normal (mkResult false EnterPassword, ss)
  else if (js_length password <? 4)%nat then Normal (mkResult false PasswordTooShort, ss)
  else if negb (String.eqb password confirmPassword)
  then Normal (mkResult false PasswordsDiffer, ss)
  else
    let trimmedName := trim username in
    bind (userExists (storage ss) trimmedName) (λ found,
      if found then Normal (mkResult false NameTaken, ss)
      else
        bind (registerUser accepted trimmedName password now (storage ss)) (λ r,
          if r.1 then Normal (mkResult true RegisterOk, mkSession r.2 (isGuest ss))
          else Normal (mkResult false RegisterFailed, mkSession r.2 (isGuest ss)))).

End Strings.

(** [loginAsGuest()], lines 268-272. *)
Definition loginAsGuest (accepted : bool) (ss : Session) : Session :=
  mkSession (setCurrentUser accepted (Some guestName) (storage ss)) true.

(** [logout()], lines 277-280. *)
Definition logout (accepted : bool) (ss : Session) : Session :=
  mkSession (setCurrentUser accepted None (storage ss)) false.

(** [isLoggedIn()], lines 286-288. *)
Definition isLoggedIn (ss : Session) : bool :=
  match getCurrentUser (storage ss) with
  | Some _ => true
  | None => false
  end.

(** [getCurrentUsername()], lines 294-296. *)
Definition getCurrentUsername (ss : Session) : option string :=
  getCurrentUser (storage ss).

(** An example of [trim] and of [length]: those of JS on strings of ASCII
    characters, where the white space is the space and the characters 9
    to 13. *)
Definition ascii_space (a : Ascii.ascii) : bool :=
  let n := Ascii.nat_of_ascii a in
  (n =? 32)%nat || ((9 <=? n)%nat && (n <=? 13)%nat).

Fixpoint trim_start (s : string) : string :=
  match s with
  | String a rest => if ascii_space a then trim_start rest else s
  | EmptyString => EmptyString
  end.

Definition ascii_trim (s : string) : string :=
  String.rev (trim_start (String.rev (trim_start s))).

(** A session in which "lin" has registered with password "secret":
    what [register] leaves when it is called with " lin ", "secret" and
    "secret" on an empty store. *)
Definition lin_registered : Session :=
  mkSession
    (Some (mkData {["lin" := mkUser (Some "secret") [] []
                               (Some "2024-05-01T10:00:00.000Z")]} None))
    false.

(** The same session after "lin" has logged in: what [login] leaves when
    it is called with "lin" and "secret". *)
Definition lin_logged_in : Session :=
  mkSession
    (Some (mkData {["lin" := mkUser (Some "secret") ["2024-05-02T08:30:00.000Z"] []
                               (Some "2024-05-01T10:00:00.000Z")]} (Some "lin")))
    false.

(** A session on the store in which a visitor has registered as
    [hasOwnProperty]. *)
Definition trapped : Session := mkSession trapped_store false.

End UserManager.

(* ===================================================================== *)
(** * SnakeGame *)
(* ===================================================================== *)

Module SnakeGame.

(** [{ x, y }]: a grid cell, or a direction when used as a vector. *)
Record Cell := mkCell {
  x : Z;
  y : Z
}.

(** The entries of [types] in [generateFood]. *)
Inductive FoodType := apple | hamster | rabbit | bird | chicken | duck.

Definition types : list FoodType := [apple; hamster; rabbit; bird; chicken; duck].

(** [this.food]: [{ x, y, type, scale }].  [food_type] is [None] when
    [types[i]] is [undefined] (an index outside the array). *)
Record Food := mkFood {
  food_x : Z;
  food_y : Z;
  food_type : option FoodType;
  food_scale : Q
}.

(** What [draw] puts on the canvas for the food (lines 679-698): the image,
    the point given to [ctx.translate], the factor given to [ctx.scale], and
    the glow. *)
Record FoodSprite := mkFoodSprite {
  sprite_image : FoodType;
  sprite_centre : Z * Z;
  sprite_scale : Q;
  sprite_shadowColor : string;
  sprite_shadowBlur : Q
}.

(** One call of [draw]: the food sprite, if there is food, and the snake
    cells in drawing order together with the heading that turns the head
    image.  Colours and blur of the body cells are cosmetic floating-point
    values and are left out. *)
Record Frame := mkFrame {
  frame_food : option FoodSprite;
  frame_snake : list Cell;
  frame_heading : Cell
}.

(** What the engine tells the outside: the two callbacks and the canvas. *)
Inductive Event :=
  | ScoreChanged (score : Z)        (* this.onScoreChange(score) *)
  | GameOver (score : Z)            (* this.onGameOver(score, canvas) *)
  | Drawn (frame : Frame).          (* this.draw() *)

(** The fields of a [SnakeGame] object that the engine reads or writes,
    followed by the part of the browser it acts on:
    - [timers]: the live interval timers, as (handle, period in ms);
      every one of them calls [update] when it fires;
    - [nextTimerId]: the handle the next [setInterval] returns;
    - [randomCalls]: how many times [Math.random] has been called.
    [onScoreChange] and [onGameOver] say whether a callback is set. *)
Record State := mkState {
  cols : Z;
  rows : Z;
  snake : list Cell;
  food : option Food;
  direction : Cell;
  nextDirection : Cell;
  score : Z;
  gameLoop : option nat;
  isRunning : bool;
  isPaused : bool;
  speed : Z;
  onScoreChange : bool;
  onGameOver : bool;
  timers : list (nat * Z);
  nextTimerId : nat;
  randomCalls : nat
}.

(** Field assignments. *)
Definition set_snake (v : list Cell) (s : State) : State :=
  mkState (cols s) (rows s) v (food s) (direction s) (nextDirection s)
    (score s) (gameLoop s) (isRunning s) (isPaused s) (speed s)
    (onScoreChange s) (onGameOver s) (timers s) (nextTimerId s) (randomCalls s).

Definition set_food (v : option Food) (s : State) : State :=
  mkState (cols s) (rows s) (snake s) v (direction s) (nextDirection s)
    (score s) (gameLoop s) (isRunning s) (isPaused s) (speed s)
    (onScoreChange s) (onGameOver s) (timers s) (nextTimerId s) (randomCalls s).

Definition set_direction (v : Cell) (s : State) : State :=
  mkState (cols s) (rows s) (snake s) (food s) v (nextDirection s)
    (score s) (gameLoop s) (isRunning s) (isPaused s) (speed s)
    (onScoreChange s) (onGameOver s) (timers s) (nextTimerId s) (randomCalls s).

Definition set_nextDirection (v : Cell) (s : State) : State :=
  mkState (cols s) (rows s) (snake s) (food s) (direction s) v
    (score s) (gameLoop s) (isRunning s) (isPaused s) (speed s)
    (onScoreChange s) (onGameOver s) (timers s) (nextTimerId s) (randomCalls s).

Definition set_score (v : Z) (s : State) : State :=
  mkState (cols s) (rows s) (snake s) (food s) (direction s) (nextDirection s)
    v (gameLoop s) (isRunning s) (isPaused s) (speed s)
    (onScoreChange s) (onGameOver s) (timers s) (nextTimerId s) (randomCalls s).

Definition set_gameLoop (v : option nat) (s : State) : State :=
  mkState (cols s) (rows s) (snake s) (food s) (direction s) (nextDirection s)
    (score s) v (isRunning s) (isPaused s) (speed s)
    (onScoreChange s) (onGameOver s) (timers s) (nextTimerId s) (randomCalls s).

Definition set_isRunning (v : bool) (s : State) : State :=
  mkState (cols s) (rows s) (snake s) (food s) (direction s) (nextDirection s)
    (score s) (gameLoop s) v (isPaused s) (speed s)
    (onScoreChange s) (onGameOver s) (timers s) (nextTimerId s) (randomCalls s).

Definition set_isPaused (v : bool) (s : State) : State :=
  mkState (cols s) (rows s) (snake s) (food s) (direction s) (nextDirection s)
    (score s) (gameLoop s) (isRunning s) v (speed s)
    (onScoreChange s) (onGameOver s) (timers s) (nextTimerId s) (randomCalls s).

Definition set_speed (v : Z) (s : State) : State :=
  mkState (cols s) (rows s) (snake s) (food s) (direction s) (nextDirection s)
    (score s) (gameLoop s) (isRunning s) (isPaused s) v
    (onScoreChange s) (onGameOver s) (timers s) (nextTimerId s) (randomCalls s).

Definition set_callbacks (onScore onOver : bool) (s : State) : State :=
  mkState (cols s) (rows s) (snake s) (food s) (direction s) (nextDirection s)
    (score s) (gameLoop s) (isRunning s) (isPaused s) (speed s)
    onScore onOver (timers s) (nextTimerId s) (randomCalls s).

Definition set_timers (v : list (nat * Z)) (s : State) : State :=
  mkState (cols s) (rows s) (snake s) (food s) (direction s) (nextDirection s)
    (score s) (gameLoop s) (isRunning s) (isPaused s) (speed s)
    (onScoreChange s) (onGameOver s) v (nextTimerId s) (randomCalls s).

Definition set_nextTimerId (v : nat) (s : State) : State :=
  mkState (cols s) (rows s) (snake s) (food s) (direction s) (nextDirection s)
    (score s) (gameLoop s) (isRunning s) (isPaused s) (speed s)
    (onScoreChange s) (onGameOver s) (timers s) v (randomCalls s).

Definition set_randomCalls (v : nat) (s : State) : State :=
  mkState (cols s) (rows s) (snake s) (food s) (direction s) (nextDirection s)
    (score s) (gameLoop s) (isRunning s) (isPaused s) (speed s)
    (onScoreChange s) (onGameOver s) (timers s) (nextTimerId s) v.

(** The result of running one method: the state it leaves, the callbacks
    and drawings it made, in order, and whether it ended by an exception. *)
Record Outcome := mkOutcome {
  after : State;
  emitted : list Event;
  threw : bool
}.

Definition returns (s : State) (evs : list Event) : Outcome := mkOutcome s evs false.

Definition gridSize : Z := 20.

(** [new SnakeGame(canvas)], lines 303-333, for a canvas of the given pixel
    size.  Timer handles of a browser start at 1. *)
Definition constructor (width height : Z) : State :=
  mkState (width / gridSize) (height / gridSize) [] None
    (mkCell 1 0) (mkCell 1 0) 0 None false false 120 false false [] 1%nat 0%nat.

(** ** The browser's interval timers *)

(** [setInterval(() => this.update(), period)]: a new live timer; the
    handle is returned. *)
Definition setInterval (period : Z) (s : State) : State * nat :=
  let id := nextTimerId s in
  (set_nextTimerId (S id) (set_timers (timers s ++ [(id, period)]) s), id).

(** [clearInterval(handle)]; a [null] handle, or one that is not live,
    cancels nothing. *)
Definition clearInterval (handle : option nat) (s : State) : State :=
  match handle with
  | None => s
  | Some id => set_timers (filter (λ t, t.1 ≠ id) (timers s)) s
  end.

(** [if (this.gameLoop)]: [null] and the number 0 are falsy. *)
Definition truthy_handle (handle : option nat) : bool :=
  match handle with
  | None => false
  | Some id => negb (id =? 0)%nat
  end.

Definition timer_live (id : nat) (s : State) : bool :=
  existsb (λ t, (t.1 =? id)%nat) (timers s).

(** ** Numbers *)

(** [a < b] on the rationals that stand for JS numbers. *)
Definition Qltb (a b : Q) : bool := negb (Qle_bool b a).

(** [v || 1] for a number [v]: 0 is falsy. *)
Definition or_one (v : Q) : Q := if Qeq_bool v 0 then 1%Q else v.

(** [Math.min(1, v)]. *)
Definition min_one (v : Q) : Q := if Qle_bool 1 v then 1%Q else v.

(** *** Doubles

    A product of two JS numbers is the double nearest to the exact
    product. *)

(** 2 to the power [e], for an integer [e] of either sign. *)
Definition pow2 (e : Z) : Q :=
  if 0 <=? e then inject_Z (2 ^ e) else (/ inject_Z (2 ^ (- e)))%Q.

(** The integer nearest to [q]; of two that are equally near, the even
    one. *)
Definition round_half_even (q : Q) : Z :=
  let f := Qfloor q in
  match Qcompare (q - inject_Z f) (1 # 2) with
  | Lt => f
  | Gt => f + 1
  | Eq => if Z.even f then f else f + 1
  end.

(** For [q > 0], the [e] with [2^e <= q < 2^(e+1)]: the difference of the
    binary logarithms of numerator and denominator, or one less. *)
Definition exponent (q : Q) : Z :=
  let d := Z.log2 (Qnum q) - Z.log2 (Zpos (Qden q)) in
  if Qle_bool (pow2 d) q then d else d - 1.

(** The double nearest to [q > 0] (IEEE 754 binary64, round to nearest,
    ties to even): 53 significant bits, that is, a multiple of
    [2^(e - 52)] in the binade of exponent [e]; the exponents go down to
    -1022, below which the doubles are the multiples of [2^-1074].  (At
    [2^1024] and above the answer of JS is [Infinity]; no number of this
    program comes near.) *)
Definition nearest_double (q : Q) : Q :=
  let e := Z.max (exponent q) (-1022) in
  (inject_Z (round_half_even (q * pow2 (52 - e))) * pow2 (e - 52))%Q.

Definition double (q : Q) : Q :=
  match Qcompare q 0 with
  | Eq => 0%Q
  | Gt => nearest_double q
  | Lt => (- nearest_double (- q))%Q
  end.

(** [Math.floor(r * n)] for a random number [r] and an integer [n]: the
    floor of the double product. *)
Definition floor_scaled (r : Q) (n : Z) : Z := Qfloor (double (r * inject_Z n)).

(** [types[i]]. *)
Definition types_at (i : Z) : option FoodType :=
  if i <? 0 then None else types !! Z.to_nat i.

(** ** Drawing *)

(** The food part of [draw], lines 679-698. *)
Definition draw_food (f : Food) : FoodSprite :=
  let fx := food_x f * gridSize in
  let fy := food_y f * gridSize in
  let foodImg :=                          (* this.images[type] || this.images.apple *)
    match food_type f with
    | Some t => t
    | None => apple
    end in
  let scale := or_one (food_scale f) in   (* this.food.scale || 1 *)
  mkFoodSprite foodImg
    (fx + gridSize / 2, fy + gridSize / 2)
    scale
    (match food_type f with
     | Some apple => "#d946ef"
     | _ => "#fbbf24"
     end)
    (15 * scale)%Q.

(** [draw()], lines 654-764. *)
Definition draw (s : State) : Frame :=
  mkFrame (draw_food <$> food s) (snake s) (direction s).

(** ** The commands that need no random numbers *)

(** [isOnSnake(x, y)], lines 575-577. *)
Definition isOnSnake (s : State) (x0 y0 : Z) : bool :=
  existsb (λ segment, (x segment =? x0) && (y segment =? y0)) (snake s).

(** [pause()], lines 497-503. *)
Definition pause (s : State) : State :=
  if negb (isRunning s) || isPaused s then s
  else
    let s1 := set_isPaused true s in
    let s2 := clearInterval (gameLoop s1) s1 in
    set_gameLoop None s2.

(** [resume()], lines 508-513. *)
Definition resume (s : State) : State :=
  if negb (isPaused s) then s
  else
    let s1 := set_isPaused false s in
    let (s2, id) := setInterval (speed s1) s1 in
    set_gameLoop (Some id) s2.

(** [stop()], lines 518-525. *)
Definition stop (s : State) : State :=
  let s1 := set_isRunning false s in
  let s2 := set_isPaused false s1 in
  if truthy_handle (gameLoop s2)
  then set_gameLoop None (clearInterval (gameLoop s2) s2)
  else s2.

(** The table [directions] of [setDirection]: its own four entries.
    ([directions[dir]] also finds the members of [Object.prototype]; the
    model does not follow a call with such a name, see [plain_input].) *)
Definition directions (dir : string) : option Cell :=
  if String.eqb dir "up" then Some (mkCell 0 (-1))
  else if String.eqb dir "down" then Some (mkCell 0 1)
  else if String.eqb dir "left" then Some (mkCell (-1) 0)
  else if String.eqb dir "right" then Some (mkCell 1 0)
  else None.

(** The test of line 543: the two vectors sum to (0, 0). *)
Definition opposite (d e : Cell) : bool :=
  (x d + x e =? 0) && (y d + y e =? 0).

(** [setDirection(dir)], lines 531-548. *)
Definition setDirection (dir : string) (s : State) : State :=
  match directions dir with
  | None => s                                       (* if (!newDir) return; *)
  | Some newDir =>
      if opposite (direction s) newDir then s
      else set_nextDirection newDir s
  end.

(** [gameOver()], lines 643-649. *)
Definition gameOver (s : State) : Outcome :=
  let s1 := stop s in
  returns s1 (if onGameOver s1 then [GameOver (score s1)] else []).

(** The guard of the two input handlers of [UIController] (the keyboard
    handler, line 1164, and the on-screen buttons, line 915):
    [game.isRunning && !game.isPaused]. *)
Definition accepts_input (s : State) : bool := isRunning s && negb (isPaused s).

(** The click handler of an on-screen direction button, lines 913-918. *)
Definition mobileControlClick (dir : string) (s : State) : State :=
  if accepts_input s then setDirection dir s else s.

(** [keyMap] of [handleKeyDown]. *)
Definition keyMap (key : string) : option string :=
  if String.eqb key "ArrowUp" || String.eqb key "w" || String.eqb key "W" then Some "up"
  else if String.eqb key "ArrowDown" || String.eqb key "s" || String.eqb key "S" then Some "down"
  else if String.eqb key "ArrowLeft" || String.eqb key "a" || String.eqb key "A" then Some "left"
  else if String.eqb key "ArrowRight" || String.eqb key "d" || String.eqb key "D" then Some "right"
  else None.

(** [UIController.handleKeyDown(e)], lines 1163-1186, for [e.key = key]. *)
Definition handleKeyDown (key : string) (s : State) : State :=
  if negb (isRunning s) || isPaused s then s
  else
    match keyMap key with
    | Some dir => setDirection dir s
    | None => s
    end.

Section Engine.

(** [Math.random]: [random i] is the value of the call number [i]. *)
Variable random : nat → Q.

(** ** Food *)

Definition maxAttempts : Z := 100.

(** One pass through the body of the [do] loop of [generateFood]: three
    calls of [Math.random], and [this.food] is replaced. *)
Definition sampleFood (s : State) : State :=
  let c := randomCalls s in
  let f :=
    mkFood
      (floor_scaled (random c) (cols s))
      (floor_scaled (random (c + 1)%nat) (rows s))
      (types_at (floor_scaled (random (c + 2)%nat) (Z.of_nat (length types))))
      0%Q in
  set_randomCalls (c + 3)%nat (set_food (Some f) s).

(** Is the food (just sampled) on the snake? *)
Definition foodOnSnake (s : State) : bool :=
  match food s with
  | Some f => isOnSnake s (food_x f) (food_y f)
  | None => false
  end.

(** The [do ... while] loop of [generateFood], lines 557-566, entered with
    the given value of [attempts].  The result carries the final value of
    [attempts]; [None] means that [fuel] passes did not reach the exit. *)
Fixpoint generateFood_loop (fuel : nat) (attempts : Z) (s : State)
    : option (State * Z) :=
  match fuel with
  | O => None
  | S fuel' =>
      let s' := sampleFood s in
      let attempts' := attempts + 1 in
      if foodOnSnake s' && (attempts' <? maxAttempts)
      then generateFood_loop fuel' attempts' s'
      else Some (s', attempts')
  end.

(** [generateFood()], lines 553-567.  A hundred passes always reach the
    exit ([generateFood_loop_exits] below), so the last case never occurs. *)
Definition generateFood (s : State) : State :=
  match generateFood_loop 100 0 s with
  | Some (s', _) => s'
  | None => s
  end.

(** ** The game *)

(** [init()], lines 451-476. *)
Definition init (s : State) : State * list Event :=
  let startX := cols s / 2 in
  let startY := rows s / 2 in
  let s1 := set_snake [mkCell startX startY;
                       mkCell (startX - 1) startY;
                       mkCell (startX - 2) startY] s in
  let s2 := set_nextDirection (mkCell 1 0) (set_direction (mkCell 1 0) s1) in
  let s3 := set_score 0 s2 in
  let ev := if onScoreChange s3 then [ScoreChanged (score s3)] else [] in
  let s4 := generateFood s3 in
  (s4, ev ++ [Drawn (draw s4)]).

(** [start()], lines 481-492. *)
Definition start (s : State) : State * list Event :=
  if isRunning s && negb (isPaused s) then (s, [])
  else
    let (s1, ev) := if isPaused s then (set_isPaused false s, []) else init s in
    let s2 := set_isRunning true s1 in
    let (s3, id) := setInterval (speed s2) s2 in
    (set_gameLoop (Some id) s3, ev).

(** The food-eating branch of [update], lines 611-625. *)
Definition eat (s : State) : State * list Event :=
  let s1 := set_score (score s + 10) s in
  let ev := if onScoreChange s1 then [ScoreChanged (score s1)] else [] in
  let s2 := generateFood s1 in
  if speed s2 >? 60 then
    let s3 := set_speed (speed s2 - 2) s2 in
    let s4 := clearInterval (gameLoop s3) s3 in
    let (s5, id) := setInterval (speed s4) s4 in
    (set_gameLoop (Some id) s5, ev)
  else (s2, ev).

(** The end of [update], lines 634-637: the food grows. *)
Definition animate (s : State) : State :=
  match food s with
  | Some f =>
      if Qltb (food_scale f) 1
      then set_food (Some (mkFood (food_x f) (food_y f) (food_type f)
                             (min_one (food_scale f + (15 # 100))%Q))) s
      else s
  | None => s
  end.

(** [update()], lines 582-638.  Reading [head.x] when the snake is empty,
    or [this.food.x] when there is no food, raises a [TypeError]; what was
    assigned before stays assigned. *)
Definition update (s : State) : Outcome :=
  let s1 := set_direction (nextDirection s) s in
  match snake s1 with
  | [] => mkOutcome s1 [] true
  | head :: _ =>
      let newHead := mkCell (x head + x (direction s1)) (y head + y (direction s1)) in
      if (x newHead <? 0) || (x newHead >=? cols s1) ||
         (y newHead <? 0) || (y newHead >=? rows s1)
      then gameOver s1
      else if isOnSnake s1 (x newHead) (y newHead)
      then gameOver s1
      else
        let s2 := set_snake (newHead :: snake s1) s1 in     (* unshift *)
        match food s2 with
        | None => mkOutcome s2 [] true
        | Some f =>
            let (s3, ev) :=
              if (x newHead =? food_x f) && (y newHead =? food_y f)
              then eat s2
              else (set_snake (removelast (snake s2)) s2, []) (* pop *) in
            returns (animate s3) (ev ++ [Drawn (draw s3)])
        end
  end.

(** ** Runs *)

(** What can happen to a game: a call of one of its methods, a timer
    firing, and the two places where [UIController] assigns to its fields
    ([initGame], lines 979-985, and [handleStartGame], line 1137). *)
Inductive Action :=
  | Init
  | Start
  | Pause
  | Resume
  | Stop
  | SetDirection (dir : string)
  | TimerFires (id : nat)
  | SetCallbacks (onScore onOver : bool)
  | ResetSpeed.

(** A timer that is not live does not fire. *)
Definition step (a : Action) (s : State) : Outcome :=
  match a with
  | Init => let (s', ev) := init s in returns s' ev
  | Start => let (s', ev) := start s in returns s' ev
  | Pause => returns (pause s) []
  | Resume => returns (resume s) []
  | Stop => returns (stop s) []
  | SetDirection dir => returns (setDirection dir s) []
  | TimerFires id => if timer_live id s then update s else returns s []
  | SetCallbacks onScore onOver => returns (set_callbacks onScore onOver s) []
  | ResetSpeed => returns (set_speed 120 s) []
  end.

(** A run: the final state and everything emitted on the way. *)
Fixpoint run (acts : list Action) (s : State) : State * list Event :=
  match acts with
  | [] => (s, [])
  | a :: rest =>
      let o := step a s in
      let (s', evs) := run rest (after o) in
      (s', emitted o ++ evs)
  end.

(** How many ticks a run makes: the firings of timers that are live. *)
Fixpoint ticks (acts : list Action) (s : State) : nat :=
  match acts with
  | [] => 0
  | a :: rest =>
      (match a with
       | TimerFires id => if timer_live id s then 1 else 0
       | _ => 0
       end + ticks rest (after (step a s)))%nat
  end.

(** The states a run can reach from [s0]. *)
Inductive reaches (s0 : State) : State → Prop :=
  | reaches_here : reaches s0 s0
  | reaches_step a s : reaches s0 s → reaches s0 (after (step a s)).

(** The states of a game built by the constructor. *)
Definition reachable (s : State) : Prop :=
  ∃ width height, reaches (constructor width height) s.

(** The states of a game on which [init()] has run. *)
Definition initialised (s : State) : Prop :=
  ∃ s0, reaches (init s0).1 s.

(** ** Vocabulary for the statements *)

(** The sample that pass number [k] (from 0) of a [generateFood] call made
    in state [s] draws. *)
Definition nthSample (s : State) (k : nat) : Food :=
  let c := (randomCalls s + 3 * k)%nat in
  mkFood
    (floor_scaled (random c) (cols s))
    (floor_scaled (random (c + 1)%nat) (rows s))
    (types_at (floor_scaled (random (c + 2)%nat) (Z.of_nat (length types))))
    0%Q.

Definition sampleOnSnake (s : State) (k : nat) : bool :=
  isOnSnake s (food_x (nthSample s k)) (food_y (nthSample s k)).

End Engine.

(** The cell [update] computes as [newHead] in state [s]: the head moved by
    the pending direction, which the tick applies. *)
Definition newHead (s : State) : option Cell :=
  match snake s with
  | [] => None
  | head :: _ =>
      Some (mkCell (x head + x (nextDirection s)) (y head + y (nextDirection s)))
  end.

(** The two tests of lines 593-604. *)
Definition outside (s : State) (c : Cell) : bool :=
  (x c <? 0) || (x c >=? cols s) || (y c <? 0) || (y c >=? rows s).

Definition collides (s : State) (c : Cell) : bool :=
  outside s c || isOnSnake s (x c) (y c).

(** The test of line 610. *)
Definition onFood (s : State) (c : Cell) : bool :=
  match food s with
  | Some f => (x c =? food_x f) && (y c =? food_y f)
  | None => false
  end.

(** The four unit vectors. *)
Definition unit_vector (d : Cell) : Prop :=
  d = mkCell 0 (-1) ∨ d = mkCell 0 1 ∨ d = mkCell (-1) 0 ∨ d = mkCell 1 0.


(** Actions that do not set the timer going: all but [start] and [resume]. *)
Definition keeps_timer_off (a : Action) : Prop :=
  match a with
  | Start | Resume => False
  | _ => True
  end.

(** Among them, those that do not reset the board either: all but [init]. *)
Definition stays_halted (a : Action) : Prop :=
  match a with
  | Init | Start | Resume => False
  | _ => True
  end.

(** ** Invariants *)

(** The flags, the handle in [gameLoop] and the browser's timer table say
    the same thing: while the game runs unpaused there is exactly one live
    timer, the one [gameLoop] names; otherwise there is none.  Handles
    are never 0. *)
Definition timers_agree (s : State) : Prop :=
  (isPaused s = true → isRunning s = true) ∧
  nextTimerId s ≠ 0%nat ∧
  (if isRunning s && negb (isPaused s)
   then ∃ id period, id ≠ 0%nat ∧ gameLoop s = Some id ∧ timers s = [(id, period)]
   else gameLoop s = None ∧ timers s = []).

(** No timer is live and the game is not paused: stopped, ended, or never
    started. *)
Definition halted (s : State) : Prop :=
  isRunning s = false ∧ isPaused s = false ∧ gameLoop s = None ∧ timers s = [].

(** A paused game: no timer is live. *)
Definition quiet (s : State) : Prop := gameLoop s = None ∧ timers s = [].

(** Both directions are unit vectors and the pending one does not reverse
    the applied one. *)
Definition directions_agree (s : State) : Prop :=
  unit_vector (direction s) ∧ unit_vector (nextDirection s) ∧
  opposite (direction s) (nextDirection s) = false.


(** There is food, the snake has at least its three cells, and the score
    counts the cells it has gained. *)
Definition score_counts_growth (s : State) : Prop :=
  food s ≠ None ∧ (3 ≤ length (snake s))%nat ∧
  score s = 10 * (Z.of_nat (length (snake s)) - 3).

(** ** Examples *)

(** A source of random numbers that always answers 0.65: on a 10 x 10 grid
    every sample is the cell (6, 6). *)
Definition always_065 : nat → Q := λ _, (13 # 20)%Q.

(** The scenario of the specification: a 10 x 10 grid (a 200 x 200 canvas),
    the snake at (5,5), (4,5), (3,5) heading right, food at (6,5). *)
Definition scenario : State :=
  set_food (Some (mkFood 6 5 (Some apple) 1))
    (set_snake [mkCell 5 5; mkCell 4 5; mkCell 3 5] (constructor 200 200)).

(** A game started on a 10 x 10 grid with the callbacks set, after four
    ticks: the head is at (9, 5), against the right wall. *)
Definition at_the_wall : State :=
  (run always_065
     [SetCallbacks true true; Start;
      TimerFires 1; TimerFires 1; TimerFires 1; TimerFires 1]
     (constructor 200 200)).1.

(** A game started on a 10 x 10 grid and then paused. *)
Definition paused_game : State :=
  (run always_065 [Start; Pause] (constructor 200 200)).1.

(** A game started on a 10 x 10 grid, after one tick: the head is at
    (6, 5), heading right. *)
Definition running_game : State :=
  (run always_065 [SetCallbacks true true; Start; TimerFires 1]
     (constructor 200 200)).1.




(** A game on which [init] has run, started, and played up to its first
    meal. *)
Definition after_first_meal : State :=
  (run always_065 [Start; TimerFires 1; SetDirection "down"; TimerFires 1]
     (init always_065 (constructor 200 200)).1).1.

(** ** The head image *)

(** The angle that [draw] gives to [ctx.rotate] for the head, lines
    715-721, counted in quarter turns: [Math.PI / 2] is 1, [-Math.PI / 2]
    is -1, [Math.PI] is 2. *)
Definition head_angle (d : Cell) : Z :=
  if x d =? 1 then 1
  else if x d =? -1 then -1
  else if y d =? 1 then 2
  else if y d =? -1 then 0
  else 0.

(** Where [ctx.rotate] by so many quarter turns sends a vector of the
    canvas (x to the right, y down): a quarter turn sends (x, y) to
    (-y, x). *)
Definition rotate (turns : Z) (c : Cell) : Cell :=
  match turns mod 4 with
  | 0 => c
  | 1 => mkCell (- y c) (x c)
  | 2 => mkCell (- x c) (- y c)
  | _ => mkCell (y c) (- x c)
  end.

(** The head image as it is stored points up. *)
Definition up : Cell := mkCell 0 (-1).

(** ** More vocabulary *)

(** Two cells next to each other in a row or in a column. *)
Definition adjacent (a b : Cell) : Prop :=
  Z.abs (x a - x b) + Z.abs (y a - y b) = 1.

(** Each cell of the list is next to the one after it. *)
Fixpoint chain (l : list Cell) : Prop :=
  match l with
  | a :: rest =>
      match rest with
      | b :: _ => adjacent a b ∧ chain rest
      | [] => True
      end
  | [] => True
  end.

(** A cell of the grid. *)
Definition inside (s : State) (c : Cell) : Prop :=
  0 ≤ x c < cols s ∧ 0 ≤ y c < rows s.

(** The head is one step, in the applied direction, from the cell behind
    it. *)
Definition neck_behind (s : State) : Prop :=
  ∀ h n rest, snake s = h :: n :: rest →
    x h = x n + x (direction s) ∧ y h = y n + y (direction s).

(** The food, if any, is a cell of the grid, of one of the six kinds. *)
Definition food_well_formed (s : State) : Prop :=
  ∀ f, food s = Some f →
    inside s (mkCell (food_x f) (food_y f)) ∧ food_type f ≠ None.

(** The growth of the food, if any, is between 0 and 1. *)
Definition growth_in_range (s : State) : Prop :=
  ∀ f, food s = Some f → (0 <= food_scale f)%Q ∧ (food_scale f <= 1)%Q.

(** The second state shows the same board as the first: snake, food,
    applied direction, score and grid. *)
Definition same_board (s s' : State) : Prop :=
  snake s' = snake s ∧ food s' = food s ∧ direction s' = direction s ∧
  score s' = score s ∧ cols s' = cols s ∧ rows s' = rows s.

(** An action of this model that is the same in the code: a call of
    [setDirection] whose argument is no name of a member of
    [Object.prototype] (with such a name [directions[dir]] is that member,
    and the pending direction becomes an object without [x] and [y]). *)
Definition plain_input (a : Action) : Prop :=
  match a with
  | SetDirection dir => inherited dir = false
  | _ => True
  end.

(** The second state has the callbacks of the first. *)
Definition same_callbacks (s s' : State) : Prop :=
  onScoreChange s' = onScoreChange s ∧ onGameOver s' = onGameOver s.

(** Every live timer has the current interval as its period. *)
Definition period_is_speed (s : State) : Prop :=
  ∀ id period, (id, period) ∈ timers s → period = speed s.

End SnakeGame.

(* ===================================================================== *)
(** * UIController *)
(* ===================================================================== *)

Module UIController.

Import SnakeGame.

(** What the handlers of the page work on: the game ([this.game]) and the
    session.  The elements of the page, which they also update, are left
    out. *)
Record App := mkApp {
  game : State;
  session : UserManager.Session
}.

(** [initGame()], lines 972-986, for a canvas of the given size: a new
    game with both callbacks set. *)
Definition initGame (width height : Z) : State :=
  set_callbacks true true (constructor width height).

(** [handlePauseGame()], lines 1146-1158. *)
Definition handlePauseGame (app : App) : App :=
  if negb (isRunning (game app)) then app
  else if isPaused (game app)
  then mkApp (resume (game app)) (session app)
  else mkApp (pause (game app)) (session app).

(** [handleGameOver(score, canvas)], lines 1191-1221: what [onGameOver]
    is set to.  [if (username)] fails on [null] and on the empty string.
    When [addScore] throws, the handler ends there, before it has written
    anything.  ([addScore] never ends in [Pollutes].) *)
Definition handleGameOver (accepted : bool) (now : string) (score0 : Z)
    (app : App) : App :=
  if negb (UserManager.isGuest (session app)) then
    match UserManager.getCurrentUsername (session app) with
    | Some username =>
        if String.eqb username "" then app
        else
          match DataStore.addScore accepted username score0 now
                  (UserManager.storage (session app)) with
          | DataStore.Normal st =>
              mkApp (game app)
                (UserManager.mkSession st (UserManager.isGuest (session app)))
          | DataStore.TypeError => app
          | DataStore.Pollutes => app
          end
    | None => app
    end
  else app.

(** [handleLogout()], lines 1112-1120. *)
Definition handleLogout (accepted : bool) (app : App) : App :=
  mkApp (stop (game app)) (UserManager.logout accepted (session app)).

(** What the page does with what the engine emits: [onGameOver] is
    [handleGameOver]; [onScoreChange] and the canvas only show. *)
Definition deliver (accepted : bool) (now : string) (e : Event) (app : App) : App :=
  match e with
  | GameOver score0 => handleGameOver accepted now score0 app
  | _ => app
  end.

Section Page.

Variable random : nat → Q.

(** [handleStartGame()], lines 1125-1141. *)
Definition handleStartGame (app : App) : App * list Event :=
  let g := set_speed 120 (game app) in
  let (g', ev) := start random g in
  (mkApp g' (session app), ev).

(** [showGameSection()], lines 1023-1050: the game is initialised. *)
Definition showGameSection (app : App) : App * list Event :=
  let (g', ev) := init random (game app) in
  (mkApp g' (session app), ev).

(** A timer of the game fires, seen from the page: [update] runs, and the
    callbacks it calls act on the session. *)
Definition timerFires (accepted : bool) (now : string) (id : nat) (app : App) : App :=
  if timer_live id (game app) then
    let o := update random (game app) in
    foldl (λ a e, deliver accepted now e a) (mkApp (after o) (session app)) (emitted o)
  else app.

(** [String.prototype.trim] and the [length] of a JS string, as in
    [UserManager]. *)
Variable trim : string → string.
Variable js_length : string → nat.

(** [checkLoginStatus()], lines 991-997. *)
Definition checkLoginStatus (app : App) : App * list Event :=
  if UserManager.isLoggedIn (session app) then showGameSection app else (app, []).

(** [handleLogin()], lines 1055-1071, for the values of the two fields of
    the form.  When [login] throws, the handler ends there, and [login]
    has written nothing.  ([login] never ends in [Pollutes]: it calls
    [addLoginRecord] for a name that has a record.) *)
Definition handleLogin (accepted1 accepted2 : bool) (username password now : string)
    (app : App) : App * list Event :=
  match UserManager.login trim accepted1 accepted2 username password now
          (session app) with
  | DataStore.Normal (result, ss) =>
      if UserManager.success result then showGameSection (mkApp (game app) ss)
      else (mkApp (game app) ss, [])
  | DataStore.TypeError => (app, [])
  | DataStore.Pollutes => (app, [])
  end.

(** [handleRegister()], lines 1076-1099, for the values of the three
    fields of the form.  When [register] throws it has written nothing. *)
Definition handleRegister (accepted : bool)
    (username password confirmPassword now : string) (app : App) : App :=
  match UserManager.register trim js_length accepted username password
          confirmPassword now (session app) with
  | DataStore.Normal (_, ss) => mkApp (game app) ss
  | DataStore.TypeError => app
  | DataStore.Pollutes => app
  end.

(** [handleGuestLogin()], lines 1104-1107. *)
Definition handleGuestLogin (accepted : bool) (app : App) : App * list Event :=
  showGameSection (mkApp (game app) (UserManager.loginAsGuest accepted (session app))).

(** [init()], lines 797-809, on a page whose canvas has the given size and
    whose [localStorage] holds [st]: the game is made and, when a user is
    still logged in, shown.  [UserManager.isGuest] starts as [false]. *)
Definition init (width height : Z) (st : DataStore.Storage) : App * list Event :=
  checkLoginStatus (mkApp (initGame width height) (UserManager.mkSession st false)).

(** What can happen on the page once [bindEvents] (lines 871-925) has run:
    a click on one of its buttons, a key going down, or a timer of the
    game firing.  The arguments are what the handler reads from the forms
    and from the browser. *)
Inductive PageEvent :=
  | LoginClicked (accepted1 accepted2 : bool) (username password now : string)
  | RegisterClicked (accepted : bool) (username password confirmPassword now : string)
  | GuestClicked (accepted : bool)
  | LogoutClicked (accepted : bool)
  | StartClicked
  | PauseClicked
  | KeyWentDown (key : string)
  | DirectionClicked (dir : string)
  | TimerFired (accepted : bool) (now : string) (id : nat).

(** The handler that [bindEvents] gives to each of them. *)
Definition handle (e : PageEvent) (app : App) : App :=
  match e with
  | LoginClicked accepted1 accepted2 username password now =>
      (handleLogin accepted1 accepted2 username password now app).1
  | RegisterClicked accepted username password confirmPassword now =>
      handleRegister accepted username password confirmPassword now app
  | GuestClicked accepted => (handleGuestLogin accepted app).1
  | LogoutClicked accepted => handleLogout accepted app
  | StartClicked => (handleStartGame app).1
  | PauseClicked => handlePauseGame app
  | KeyWentDown key => mkApp (handleKeyDown key (game app)) (session app)
  | DirectionClicked dir => mkApp (mobileControlClick dir (game app)) (session app)
  | TimerFired accepted now id => timerFires accepted now id app
  end.

(** The page after a series of events. *)
Definition after_events (evs : list PageEvent) (app : App) : App :=
  foldl (λ a e, handle e a) app evs.

End Page.

(** An example: "lin" is logged in and plays the game that stands against
    the wall. *)
Definition lin_at_the_wall : App :=
  mkApp at_the_wall UserManager.lin_logged_in.

(** "lin" in a game that runs, one tick after its start. *)
Definition lin_playing : App :=
  mkApp running_game UserManager.lin_logged_in.

End UIController.
(* ===================================================================== *)
(** * Properties *)
(* ===================================================================== *)

Import SnakeGame.

(** ** Food placement *)

Section FoodFacts.

Variable random : nat → Q.

Lemma sampleFood_eq s :
  sampleFood random s
  = set_randomCalls (randomCalls s + 3) (set_food (Some (nthSample random s 0)) s).
Proof.
  unfold sampleFood, nthSample.
  replace (randomCalls s + 3 * 0)%nat with (randomCalls s) by lia.
  reflexivity.
Qed.

Lemma nthSample_shift s f k :
  nthSample random (set_randomCalls (randomCalls s + 3) (set_food f s)) k
  = nthSample random s (S k).
Proof.
  unfold nthSample; simpl.
  replace (randomCalls s + 3 + (k + (k + (k + 0))))%nat
    with (randomCalls s + S (k + S (k + S (k + 0))))%nat by lia.
  reflexivity.
Qed.

Lemma sampleOnSnake_shift s f k :
  sampleOnSnake random (set_randomCalls (randomCalls s + 3) (set_food f s)) k
  = sampleOnSnake random s (S k).
Proof.
  unfold sampleOnSnake. rewrite nthSample_shift. reflexivity.
Qed.

(** The loop, entered with [attempts] below the bound and with enough fuel
    to reach it, exits after some [n] passes: the food is sample [n - 1],
    the samples before it were on the snake, and if the last one is on the
    snake too the bound was reached. *)
Lemma generateFood_loop_spec fuel :
  ∀ attempts s,
    0 ≤ attempts < maxAttempts →
    maxAttempts - attempts ≤ Z.of_nat fuel →
    ∃ n : nat,
      (1 ≤ n)%nat ∧ attempts + Z.of_nat n ≤ maxAttempts ∧
      generateFood_loop random fuel attempts s
      = Some (set_randomCalls (randomCalls s + 3 * n)
                (set_food (Some (nthSample random s (n - 1))) s),
              attempts + Z.of_nat n) ∧
      (∀ k, (k < n - 1)%nat → sampleOnSnake random s k = true) ∧
      (sampleOnSnake random s (n - 1) = true → attempts + Z.of_nat n = maxAttempts).
Proof.
  unfold maxAttempts.
  induction fuel as [|fuel IH]; intros attempts s Hatt Hfuel; [lia|].
  cbn [generateFood_loop]. rewrite sampleFood_eq.
  set (s' := set_randomCalls _ _).
  assert (Hon : foodOnSnake s' = sampleOnSnake random s 0) by reflexivity.
  destruct (foodOnSnake s' && (attempts + 1 <? maxAttempts)) eqn:Hcond.
  - apply andb_true_iff in Hcond as [Hs Hlt]. unfold maxAttempts in Hlt.
    apply Z.ltb_lt in Hlt.
    destruct (IH (attempts + 1) s') as (n & Hn1 & Hn2 & Hrun & Hbefore & Hlast);
      [lia | lia |].
    exists (S n). split; [lia|]. split; [lia|].
    replace (S n - 1)%nat with (S (n - 1)) by lia.
    split; [|split].
    + rewrite Hrun. subst s'. rewrite nthSample_shift.
      f_equal. f_equal; [|lia].
      destruct s; unfold set_randomCalls, set_food; simpl. f_equal. lia.
    + intros [|k] Hk; [congruence|].
      subst s'. rewrite <- sampleOnSnake_shift with (f := Some (nthSample random s 0)).
      apply Hbefore. lia.
    + intros Hs'. subst s'. rewrite <- sampleOnSnake_shift with (f := Some (nthSample random s 0)) in Hs'.
      apply Hlast in Hs'. lia.
  - exists 1%nat. split; [lia|]. split; [lia|]. simpl.
    split; [|split].
    + subst s'. do 2 f_equal.
    + intros k Hk; lia.
    + intros Hs'. rewrite Hon, Hs' in Hcond. simpl in Hcond.
      unfold maxAttempts in Hcond. apply Z.ltb_ge in Hcond. lia.
Qed.

Lemma generateFood_loop_exits s :
  ∃ n : nat,
    (1 ≤ n ≤ 100)%nat ∧
    generateFood_loop random 100 0 s
    = Some (set_randomCalls (randomCalls s + 3 * n)
              (set_food (Some (nthSample random s (n - 1))) s),
            Z.of_nat n) ∧
    (∀ k, (k < n - 1)%nat → sampleOnSnake random s k = true) ∧
    (sampleOnSnake random s (n - 1) = true → n = 100%nat).
Proof.
  destruct (generateFood_loop_spec 100 0 s) as (n & H1 & H2 & Hrun & Hb & Hl);
    unfold maxAttempts in *; [lia | lia |].
  exists n. repeat split; try lia; auto.
  intros H. apply Hl in H. lia.
Qed.

(** What [generateFood] changes: the food and the count of random numbers. *)
Lemma generateFood_shape s :
  ∃ (n : nat) (f : Food),
    (1 ≤ n ≤ 100)%nat ∧ food_scale f = 0%Q ∧
    generateFood random s = set_randomCalls (randomCalls s + 3 * n) (set_food (Some f) s).
Proof.
  destruct (generateFood_loop_exits s) as (n & Hn & Hrun & _).
  exists n, (nthSample random s (n - 1)). split; [exact Hn|]. split; [reflexivity|].
  unfold generateFood. rewrite Hrun. reflexivity.
Qed.

(** C7.  [generateFood] ends after [n] samples, for some [n] between 1 and
    100, whatever the random numbers are: the loop exits with
    [attempts = n], and it has no path on which an exception is raised.
    The new food is the last sample drawn, with scale 0; every sample
    before it was on the snake; if the new food is on the snake then all
    100 samples were; and if any of the 100 samples is off the snake, so
    is the new food. *)
Theorem generateFood_bounded_rejection s :
  ∃ n : nat,
    (1 ≤ n ≤ 100)%nat ∧
    generateFood_loop random 100 0 s = Some (generateFood random s, Z.of_nat n) ∧
    randomCalls (generateFood random s) = (randomCalls s + 3 * n)%nat ∧
    snake (generateFood random s) = snake s ∧
    food (generateFood random s) = Some (nthSample random s (n - 1)) ∧
    food_scale (nthSample random s (n - 1)) = 0%Q ∧
    (∀ k, (k < n - 1)%nat → sampleOnSnake random s k = true) ∧
    (foodOnSnake (generateFood random s) = true →
       n = 100%nat ∧ ∀ k, (k < 100)%nat → sampleOnSnake random s k = true) ∧
    (∀ k, (k < 100)%nat → sampleOnSnake random s k = false →
       foodOnSnake (generateFood random s) = false).
Proof.
  destruct (generateFood_loop_exits s) as (n & Hn & Hrun & Hbefore & Hlast).
  assert (Hg : generateFood random s
               = set_randomCalls (randomCalls s + 3 * n)
                   (set_food (Some (nthSample random s (n - 1))) s)).
  { unfold generateFood. rewrite Hrun. reflexivity. }
  assert (Hfs : foodOnSnake (generateFood random s) = sampleOnSnake random s (n - 1)).
  { rewrite Hg. reflexivity. }
  assert (Hall : foodOnSnake (generateFood random s) = true →
                 n = 100%nat ∧ ∀ k, (k < 100)%nat → sampleOnSnake random s k = true).
  { intros H. rewrite Hfs in H. pose proof (Hlast H) as ->. split; [reflexivity|].
    intros k Hk. destruct (decide (k = 99%nat)) as [->|Hne]; [exact H|].
    apply Hbefore. lia. }
  exists n. split; [exact Hn|]. split; [rewrite Hg; exact Hrun|].
  split; [rewrite Hg; reflexivity|]. split; [rewrite Hg; reflexivity|].
  split; [rewrite Hg; reflexivity|]. split; [reflexivity|].
  split; [exact Hbefore|]. split; [exact Hall|].
  intros k Hk Hfree.
  destruct (foodOnSnake (generateFood random s)) eqn:E; [|reflexivity].
  destruct (Hall eq_refl) as [_ Hk']. rewrite (Hk' k Hk) in Hfree. discriminate.
Qed.

End FoodFacts.

(** ** Runs and invariants *)

Section Invariants.

Variable random : nat → Q.

(** From here on [generateFood] is used through [generateFood_shape]. *)
Local Opaque generateFood.

(** Case analysis on the first test in the goal. *)
Local Ltac case_if :=
  match goal with |- context [if ?b then _ else _] => destruct b end.

Lemma reaches_invariant (P : State → Prop) s0 s :
  P s0 →
  (∀ a s', P s' → P (after (step random a s'))) →
  reaches random s0 s → P s.
Proof.
  intros H0 Hstep Hr. induction Hr; auto.
Qed.

Lemma reaches_run acts : ∀ s0 s, reaches random s0 s → reaches random s0 (run random acts s).1.
Proof.
  induction acts as [|a acts IH]; intros s0 s Hr; simpl; [assumption|].
  specialize (IH s0 _ (reaches_step random s0 a s Hr)).
  destruct (run random acts (after (step random a s))); exact IH.
Qed.

Lemma after_step a s :
  after (step random a s)
  = match a with
    | Init => (init random s).1
    | Start => (start random s).1
    | Pause => pause s
    | Resume => resume s
    | Stop => stop s
    | SetDirection dir => setDirection dir s
    | TimerFires id => if timer_live id s then after (update random s) else s
    | SetCallbacks onScore onOver => set_callbacks onScore onOver s
    | ResetSpeed => set_speed 120 s
    end.
Proof.
  destruct a; unfold step;
    [ destruct (init random s); reflexivity
    | destruct (start random s); reflexivity
    | try reflexivity .. ].
  destruct (timer_live id s); reflexivity.
Qed.

(** *** The food-eating branch and [init], with [generateFood] unfolded *)

Lemma eat_eq s :
  ∃ (n : nat) (f : Food),
    (1 ≤ n ≤ 100)%nat ∧ food_scale f = 0%Q ∧
    eat random s
    = (let s2 := set_randomCalls (randomCalls s + 3 * n)
                   (set_food (Some f) (set_score (score s + 10) s)) in
       if speed s >? 60
       then set_gameLoop (Some (nextTimerId s))
              (set_nextTimerId (S (nextTimerId s))
                 (set_timers (timers (clearInterval (gameLoop s) s)
                              ++ [(nextTimerId s, speed s - 2)])
                    (set_speed (speed s - 2) s2)))
       else s2,
       if onScoreChange s then [ScoreChanged (score s + 10)] else []).
Proof.
  destruct (generateFood_shape random (set_score (score s + 10) s)) as (n & f & Hn & Hf & Hg).
  exists n, f. split; [exact Hn|]. split; [exact Hf|].
  unfold eat. rewrite Hg. destruct s; simpl.
  destruct (speed0 >? 60); [|reflexivity].
  destruct gameLoop0; reflexivity.
Qed.

Lemma init_eq s :
  ∃ (n : nat) (f : Food),
    (1 ≤ n ≤ 100)%nat ∧ food_scale f = 0%Q ∧
    (init random s).1
    = set_randomCalls (randomCalls s + 3 * n)
        (set_food (Some f)
           (set_score 0
              (set_nextDirection (mkCell 1 0)
                 (set_direction (mkCell 1 0)
                    (set_snake [mkCell (cols s / 2) (rows s / 2);
                                mkCell (cols s / 2 - 1) (rows s / 2);
                                mkCell (cols s / 2 - 2) (rows s / 2)] s))))).
Proof.
  unfold init.
  match goal with |- context [generateFood random ?t] =>
    destruct (generateFood_shape random t) as (n & f & Hn & Hf & Hg) end.
  exists n, f. split; [exact Hn|]. split; [exact Hf|].
  simpl. rewrite Hg. reflexivity.
Qed.

Lemma clear_only_timer id period :
  filter (λ t : nat * Z, t.1 ≠ id) [(id, period)] = [].
Proof.
  rewrite filter_cons. simpl. destruct (decide (id ≠ id)); [congruence | reflexivity].
Qed.

(** *** The timer table *)

Lemma constructor_timers_agree width height : timers_agree (constructor width height).
Proof. unfold timers_agree; simpl. auto. Qed.

(** Under the invariant [stop] leaves no timer and clears both flags. *)
Lemma stop_eq s :
  timers_agree s →
  stop s = set_gameLoop None (set_timers [] (set_isPaused false (set_isRunning false s))).
Proof.
  intros (Hp & Hn & Ht). unfold stop. destruct s; simpl in *.
  destruct isRunning0, isPaused0; simpl in *;
    try (destruct Ht as [-> ->]; reflexivity).
  destruct Ht as (id & period & Hid & -> & ->). simpl.
  destruct (Nat.eqb_spec id 0); [contradiction|]. simpl.
  unfold clearInterval, set_timers, set_gameLoop; simpl.
  rewrite clear_only_timer. reflexivity.
Qed.

Lemma stop_halted s : timers_agree s → halted (stop s).
Proof.
  intros H. rewrite (stop_eq s H). repeat split.
Qed.

Lemma halted_timers_agree s : halted s → nextTimerId s ≠ 0%nat → timers_agree s.
Proof.
  intros (Hr & Hp & Hg & Ht) Hn. unfold timers_agree. rewrite Hr, Hp. simpl.
  split; [discriminate | auto].
Qed.

Lemma stop_timers_agree s : timers_agree s → timers_agree (stop s).
Proof.
  intros H. apply halted_timers_agree; [apply stop_halted, H|].
  rewrite (stop_eq s H). simpl. apply H.
Qed.

Lemma pause_timers_agree s : timers_agree s → timers_agree (pause s).
Proof.
  intros (Hp & Hn & Ht). unfold pause, timers_agree in *. destruct s; simpl in *.
  destruct isRunning0, isPaused0; simpl in *; auto.
  destruct Ht as (id & period & Hid & -> & ->). simpl.
  rewrite clear_only_timer. auto.
Qed.

Lemma resume_timers_agree s : timers_agree s → timers_agree (resume s).
Proof.
  intros (Hp & Hn & Ht). unfold resume, timers_agree in *. destruct s; simpl in *.
  destruct isPaused0; simpl in *; [|auto].
  rewrite (Hp eq_refl) in *. simpl in *. destruct Ht as [-> ->]. simpl.
  split; [auto|]. split; [lia|]. exists nextTimerId0, speed0. auto.
Qed.

Lemma setDirection_timers_agree dir s : timers_agree s → timers_agree (setDirection dir s).
Proof.
  unfold setDirection. destruct (directions dir); [|auto].
  destruct (opposite _ _); auto.
Qed.

Lemma init_timers_agree s : timers_agree s → timers_agree (init random s).1.
Proof.
  destruct (init_eq s) as (n & f & _ & _ & ->). auto.
Qed.

Lemma start_timers_agree s : timers_agree s → timers_agree (start random s).1.
Proof.
  intros H. unfold start.
  destruct (isRunning s && negb (isPaused s)) eqn:Hrun; [exact H|].
  destruct H as (Hp & Hn & Ht). rewrite Hrun in Ht. destruct Ht as [Hg Htm].
  destruct (isPaused s) eqn:Hpau.
  - unfold timers_agree. destruct s; simpl in *. subst. simpl.
    split; [auto|]. split; [lia|]. exists nextTimerId0, speed0. auto.
  - destruct (init random s) as [s1 ev] eqn:Hinit.
    assert (Hs1 : s1 = (init random s).1) by (rewrite Hinit; reflexivity).
    destruct (init_eq s) as (n & f & _ & _ & Heq). rewrite Heq in Hs1. clear Heq Hinit.
    unfold timers_agree. destruct s; simpl in *. subst. simpl.
    split; [auto|]. split; [lia|]. exists nextTimerId0, speed0. auto.
Qed.

Lemma animate_timers_agree s : timers_agree s → timers_agree (animate s).
Proof.
  unfold animate. destruct (food s); [|auto]. destruct (Qltb _ _); auto.
Qed.

Lemma eat_timers_agree s :
  timers_agree s → isRunning s && negb (isPaused s) = true →
  timers_agree (eat random s).1.
Proof.
  intros (Hp & Hn & Ht) Hrun. rewrite Hrun in Ht.
  destruct Ht as (id & period & Hid & Hg & Htm).
  destruct (eat_eq s) as (n & f & _ & _ & ->).
  unfold timers_agree. destruct s; simpl in *. subst.
  destruct (speed0 >? 60); simpl; rewrite Hrun.
  - rewrite clear_only_timer. simpl. split; [auto|]. split; [lia|]. eauto.
  - split; [auto|]. split; [auto|]. eauto.
Qed.

Lemma gameOver_timers_agree s : timers_agree s → timers_agree (after (gameOver s)).
Proof. apply stop_timers_agree. Qed.

Lemma update_timers_agree s :
  timers_agree s → isRunning s && negb (isPaused s) = true →
  timers_agree (after (update random s)).
Proof.
  intros H Hrun. unfold update.
  set (s1 := set_direction (nextDirection s) s).
  assert (H1 : timers_agree s1) by exact H.
  assert (Hrun1 : isRunning s1 && negb (isPaused s1) = true) by exact Hrun.
  clearbody s1.
  destruct (snake s1) as [|head tl] eqn:Hsn; [exact H1|].
  case_if; [apply gameOver_timers_agree, H1|].
  case_if; [apply gameOver_timers_agree, H1|].
  set (s2 := set_snake _ s1).
  assert (H2 : timers_agree s2) by exact H1.
  assert (Hrun2 : isRunning s2 && negb (isPaused s2) = true) by exact Hrun1.
  clearbody s2.
  destruct (food s2) as [f|]; [|exact H2].
  case_if.
  - pose proof (eat_timers_agree s2 H2 Hrun2) as He.
    destruct (eat random s2) as [s3 ev]. simpl. apply animate_timers_agree, He.
  - simpl. apply animate_timers_agree. exact H2.
Qed.

Lemma live_timer_running id s :
  timers_agree s → timer_live id s = true → isRunning s && negb (isPaused s) = true.
Proof.
  intros (_ & _ & Ht) Hlive. destruct (isRunning s && negb (isPaused s)); [reflexivity|].
  destruct Ht as [_ Htm]. unfold timer_live in Hlive. rewrite Htm in Hlive. discriminate.
Qed.

Lemma step_timers_agree a s : timers_agree s → timers_agree (after (step random a s)).
Proof.
  intros H. rewrite after_step. destruct a.
  - apply init_timers_agree, H.
  - apply start_timers_agree, H.
  - apply pause_timers_agree, H.
  - apply resume_timers_agree, H.
  - apply stop_timers_agree, H.
  - apply setDirection_timers_agree, H.
  - destruct (timer_live id s) eqn:Hlive; [|exact H].
    apply update_timers_agree; [exact H|]. eapply live_timer_running; eauto.
  - exact H.
  - exact H.
Qed.

Lemma reachable_timers_agree s : reachable random s → timers_agree s.
Proof.
  intros (w & h & Hr).
  eapply reaches_invariant; [apply (constructor_timers_agree w h) | | exact Hr].
  intros a s'. apply step_timers_agree.
Qed.

(** *** The cases of [update] *)

(** [update] in the vocabulary of the statements. *)
Lemma update_unfold s :
  update random s
  = let s1 := set_direction (nextDirection s) s in
    match newHead s with
    | None => mkOutcome s1 [] true
    | Some c =>
        if collides s c then gameOver s1
        else
          match food s with
          | None => mkOutcome (set_snake (c :: snake s) s1) [] true
          | Some _ =>
              let (s3, ev) :=
                if onFood s c then eat random (set_snake (c :: snake s) s1)
                else (set_snake (removelast (c :: snake s)) s1, []) in
              returns (animate s3) (ev ++ [Drawn (draw s3)])
          end
    end.
Proof.
  unfold update, newHead. cbv zeta.
  change (snake (set_direction (nextDirection s) s)) with (snake s).
  destruct (snake s) as [|head tl] eqn:Hsn; [reflexivity|].
  unfold collides, outside, onFood, isOnSnake.
  cbn -[existsb removelast Z.add Z.ltb Z.geb Z.eqb]. rewrite Hsn.
  match goal with |- context [if ?b then _ else if _ then _ else _] => destruct b end;
    [reflexivity|].
  cbn -[existsb removelast Z.add Z.ltb Z.geb Z.eqb].
  case_if; [reflexivity|].
  destruct (food s) as [f|]; reflexivity.
Qed.

Lemma update_empty s :
  newHead s = None →
  update random s = mkOutcome (set_direction (nextDirection s) s) [] true.
Proof. intros H. rewrite update_unfold, H. reflexivity. Qed.

Lemma update_collision s c :
  newHead s = Some c → collides s c = true →
  update random s = gameOver (set_direction (nextDirection s) s).
Proof. intros H Hc. rewrite update_unfold, H. simpl. rewrite Hc. reflexivity. Qed.

Lemma update_no_food s c :
  newHead s = Some c → collides s c = false → food s = None →
  update random s
  = mkOutcome (set_snake (c :: snake s) (set_direction (nextDirection s) s)) [] true.
Proof.
  intros H Hc Hf. rewrite update_unfold, H. simpl. rewrite Hc, Hf. reflexivity.
Qed.

Lemma update_eat s c :
  newHead s = Some c → collides s c = false → onFood s c = true →
  update random s
  = let (s3, ev) :=
      eat random (set_snake (c :: snake s) (set_direction (nextDirection s) s)) in
    returns (animate s3) (ev ++ [Drawn (draw s3)]).
Proof.
  intros H Hc Hon. rewrite update_unfold, H. simpl. rewrite Hc, Hon.
  unfold onFood in Hon. destruct (food s); [reflexivity | discriminate].
Qed.

Lemma update_move s c :
  newHead s = Some c → collides s c = false → food s ≠ None → onFood s c = false →
  update random s
  = let s3 := set_snake (removelast (c :: snake s))
                (set_direction (nextDirection s) s) in
    returns (animate s3) [Drawn (draw s3)].
Proof.
  intros H Hc Hf Hon. rewrite update_unfold, H. simpl. rewrite Hc, Hon.
  destruct (food s); [reflexivity | congruence].
Qed.

(** Every tick is one of the five. *)
Lemma update_cases s :
  let s1 := set_direction (nextDirection s) s in
  (newHead s = None ∧ update random s = mkOutcome s1 [] true) ∨
  (∃ c, newHead s = Some c ∧ collides s c = true ∧ update random s = gameOver s1) ∨
  (∃ c, newHead s = Some c ∧ collides s c = false ∧ food s = None ∧
        update random s = mkOutcome (set_snake (c :: snake s) s1) [] true) ∨
  (∃ c, newHead s = Some c ∧ collides s c = false ∧ onFood s c = true ∧
        update random s
        = let (s3, ev) := eat random (set_snake (c :: snake s) s1) in
          returns (animate s3) (ev ++ [Drawn (draw s3)])) ∨
  (∃ c, newHead s = Some c ∧ collides s c = false ∧ food s ≠ None ∧ onFood s c = false ∧
        update random s
        = let s3 := set_snake (removelast (c :: snake s)) s1 in
          returns (animate s3) [Drawn (draw s3)]).
Proof.
  intros s1. destruct (newHead s) as [c|] eqn:Hnh.
  - right. destruct (collides s c) eqn:Hc.
    + left. exists c. repeat (split; [first [assumption | reflexivity]|]).
      apply (update_collision s c); assumption.
    + right. destruct (food s) as [f|] eqn:Hf.
      * right. destruct (onFood s c) eqn:Hon.
        -- left. exists c. repeat (split; [first [assumption | reflexivity]|]).
           apply (update_eat s c); assumption.
        -- right. exists c.
           repeat (split; [first [assumption | reflexivity | congruence]|]).
           apply (update_move s c); [assumption .. | congruence | assumption].
      * left. exists c. repeat (split; [first [assumption | reflexivity]|]).
        apply (update_no_food s c); assumption.
  - left. split; [reflexivity|]. apply update_empty; assumption.
Qed.

(** *** Fields that the helpers leave alone *)

Lemma stop_fields s :
  snake (stop s) = snake s ∧ food (stop s) = food s ∧ score (stop s) = score s ∧
  speed (stop s) = speed s ∧ direction (stop s) = direction s ∧
  nextDirection (stop s) = nextDirection s ∧ onGameOver (stop s) = onGameOver s.
Proof.
  unfold stop. destruct (truthy_handle _); [|repeat split].
  destruct s as [? ? ? ? ? ? ? [id|] ? ? ? ? ? ? ? ?]; repeat split.
Qed.

Lemma animate_fields s :
  snake (animate s) = snake s ∧ score (animate s) = score s ∧
  speed (animate s) = speed s ∧ direction (animate s) = direction s ∧
  nextDirection (animate s) = nextDirection s ∧
  (food s ≠ None → food (animate s) ≠ None).
Proof.
  unfold animate. destruct (food s) as [f|] eqn:Hf; [|repeat split; auto].
  destruct (Qltb _ _); repeat split; auto; intros _; simpl; congruence.
Qed.

Lemma eat_fields s :
  snake (eat random s).1 = snake s ∧ score (eat random s).1 = score s + 10 ∧
  speed (eat random s).1 = (if speed s >? 60 then speed s - 2 else speed s) ∧
  direction (eat random s).1 = direction s ∧
  nextDirection (eat random s).1 = nextDirection s ∧
  food (eat random s).1 ≠ None.
Proof.
  destruct (eat_eq s) as (n & f & _ & _ & ->).
  destruct (speed s >? 60); repeat split; discriminate.
Qed.

(** What a tick does to the two directions, whatever its case. *)
Lemma update_directions s :
  direction (after (update random s)) = nextDirection s ∧
  nextDirection (after (update random s)) = nextDirection s.
Proof.
  destruct (update_cases s) as
    [[_ ->] | [(c & _ & _ & ->) | [(c & _ & _ & _ & ->) | [(c & _ & _ & _ & ->) | (c & _ & _ & _ & _ & ->)]]]].
  - split; reflexivity.
  - unfold gameOver. simpl.
    destruct (stop_fields (set_direction (nextDirection s) s)) as (_ & _ & _ & _ & -> & -> & _).
    split; reflexivity.
  - split; reflexivity.
  - match goal with |- context [eat random ?t] =>
      pose proof (eat_fields t) as (_ & _ & _ & Hd & Hn & _); destruct (eat random t) as [s3 ev] end.
    simpl in *. destruct (animate_fields s3) as (_ & _ & _ & -> & -> & _).
    rewrite Hd, Hn. split; reflexivity.
  - simpl. match goal with |- context [animate ?t] =>
      destruct (animate_fields t) as (_ & _ & _ & -> & -> & _) end.
    split; reflexivity.
Qed.

(** *** The directions *)

Lemma unit_vector_not_self_opposite d : unit_vector d → opposite d d = false.
Proof.
  intros [-> | [-> | [-> | ->]]]; reflexivity.
Qed.

Lemma directions_unit dir d : directions dir = Some d → unit_vector d.
Proof.
  unfold directions, unit_vector.
  repeat case_if; intros [= <-]; auto.
Qed.

Lemma setDirection_directions_agree dir s :
  directions_agree s → directions_agree (setDirection dir s).
Proof.
  intros (Hd & Hn & Ho). unfold setDirection.
  destruct (directions dir) as [d|] eqn:Hdir; [|repeat split; assumption].
  destruct (opposite (direction s) d) eqn:Hop; [repeat split; assumption|].
  repeat split; simpl; eauto using directions_unit.
Qed.

Lemma heading_right_agrees s :
  direction s = mkCell 1 0 → nextDirection s = mkCell 1 0 → directions_agree s.
Proof.
  intros Hd Hn. unfold directions_agree, unit_vector. rewrite Hd, Hn.
  split; [tauto|]. split; [tauto | reflexivity].
Qed.

Lemma init_directions_agree s : directions_agree (init random s).1.
Proof.
  destruct (init_eq s) as (n & f & _ & _ & ->).
  apply heading_right_agrees; reflexivity.
Qed.

Lemma directions_agree_same s s' :
  direction s' = direction s → nextDirection s' = nextDirection s →
  directions_agree s → directions_agree s'.
Proof.
  unfold directions_agree. intros -> ->. auto.
Qed.

Lemma start_directions_agree s : directions_agree s → directions_agree (start random s).1.
Proof.
  intros H. unfold start.
  destruct (isRunning s && negb (isPaused s)); [exact H|].
  destruct (isPaused s).
  - exact H.
  - pose proof (init_directions_agree s) as Hi.
    destruct (init random s) as [s1 ev]. exact Hi.
Qed.

Lemma pause_fields s :
  snake (pause s) = snake s ∧ food (pause s) = food s ∧ score (pause s) = score s ∧
  speed (pause s) = speed s ∧ direction (pause s) = direction s ∧
  nextDirection (pause s) = nextDirection s.
Proof.
  unfold pause. destruct (negb (isRunning s) || isPaused s); [repeat split|].
  destruct s as [? ? ? ? ? ? ? [id|] ? ? ? ? ? ? ? ?]; repeat split.
Qed.

Lemma resume_fields s :
  snake (resume s) = snake s ∧ food (resume s) = food s ∧ score (resume s) = score s ∧
  speed (resume s) = speed s ∧ direction (resume s) = direction s ∧
  nextDirection (resume s) = nextDirection s.
Proof.
  unfold resume. destruct (negb (isPaused s)); repeat split.
Qed.

Lemma setDirection_fields dir s :
  snake (setDirection dir s) = snake s ∧ food (setDirection dir s) = food s ∧
  score (setDirection dir s) = score s ∧ speed (setDirection dir s) = speed s ∧
  direction (setDirection dir s) = direction s.
Proof.
  unfold setDirection. destruct (directions dir); [|repeat split].
  destruct (opposite _ _); repeat split.
Qed.

Lemma update_directions_agree s : directions_agree s → directions_agree (after (update random s)).
Proof.
  intros (_ & Hn & _). destruct (update_directions s) as [Hd' Hn'].
  unfold directions_agree. rewrite Hd', Hn'.
  auto using unit_vector_not_self_opposite.
Qed.

Lemma step_directions_agree a s :
  directions_agree s → directions_agree (after (step random a s)).
Proof.
  intros H. rewrite after_step. destruct a.
  - apply init_directions_agree.
  - apply start_directions_agree, H.
  - eapply directions_agree_same; [apply pause_fields | apply pause_fields | exact H].
  - eapply directions_agree_same; [apply resume_fields | apply resume_fields | exact H].
  - eapply directions_agree_same; [apply stop_fields | apply stop_fields | exact H].
  - apply setDirection_directions_agree, H.
  - destruct (timer_live id s); [apply update_directions_agree, H | exact H].
  - exact H.
  - exact H.
Qed.

Lemma reachable_directions_agree s : reachable random s → directions_agree s.
Proof.
  intros (w & h & Hr).
  eapply reaches_invariant; [| intros a s'; apply step_directions_agree | exact Hr].
  apply heading_right_agrees; reflexivity.
Qed.

(** *** The tick interval *)









(** *** Score and length *)

Lemma init_score_counts_growth s : score_counts_growth (init random s).1.
Proof.
  destruct (init_eq s) as (n & f & _ & _ & ->).
  unfold score_counts_growth; simpl. repeat split; [discriminate | lia].
Qed.

Lemma score_counts_growth_same s s' :
  snake s' = snake s → food s' = food s → score s' = score s →
  score_counts_growth s → score_counts_growth s'.
Proof.
  unfold score_counts_growth. intros -> -> ->. auto.
Qed.

Lemma start_score_counts_growth s :
  score_counts_growth s → score_counts_growth (start random s).1.
Proof.
  intros H. unfold start.
  destruct (isRunning s && negb (isPaused s)); [exact H|].
  destruct (isPaused s).
  - exact H.
  - pose proof (init_score_counts_growth s) as Hi.
    destruct (init random s) as [s1 ev]. exact Hi.
Qed.

Lemma length_removelast_cons {A} (a : A) (l : list A) :
  length (removelast (a :: l)) = length l.
Proof.
  rewrite removelast_firstn_len, length_take. simpl. lia.
Qed.

Lemma update_score_counts_growth s :
  score_counts_growth s → score_counts_growth (after (update random s)).
Proof.
  intros (Hf & Hlen & Hsc).
  destruct (update_cases s) as
    [[Hnh ->] | [(c & Hnh & Hc & ->) | [(c & Hnh & Hc & Hf' & ->)
      | [(c & Hnh & Hc & Hon & ->) | (c & Hnh & Hc & _ & Hon & ->)]]]].
  - repeat split; assumption.
  - simpl. eapply score_counts_growth_same;
      [apply stop_fields | apply stop_fields | apply stop_fields |].
    repeat split; assumption.
  - contradiction.
  - match goal with |- context [eat random ?t] =>
      pose proof (eat_fields t) as (Hsn & Hs & _ & _ & _ & Hfd);
      destruct (eat random t) as [s3 ev] end.
    simpl in *. destruct (animate_fields s3) as (Hsn' & Hs' & _ & _ & _ & Hfd').
    unfold score_counts_growth. rewrite Hsn', Hs', Hsn, Hs. simpl.
    split; [auto|]. lia.
  - cbv zeta. cbn [after returns].
    match goal with |- context [animate ?t] =>
      destruct (animate_fields t) as (Hsn' & Hs' & _ & _ & _ & Hfd') end.
    unfold score_counts_growth. rewrite Hsn', Hs'.
    cbn [snake score set_snake set_direction].
    rewrite length_removelast_cons. split; [apply Hfd'; exact Hf|]. lia.
Qed.

Lemma step_score_counts_growth a s :
  score_counts_growth s → score_counts_growth (after (step random a s)).
Proof.
  intros H. rewrite after_step. destruct a.
  - apply init_score_counts_growth.
  - apply start_score_counts_growth, H.
  - eapply score_counts_growth_same; [apply pause_fields .. | exact H].
  - eapply score_counts_growth_same; [apply resume_fields .. | exact H].
  - eapply score_counts_growth_same; [apply stop_fields .. | exact H].
  - eapply score_counts_growth_same; [apply setDirection_fields .. | exact H].
  - destruct (timer_live id s); [apply update_score_counts_growth, H | exact H].
  - exact H.
  - exact H.
Qed.

(** What one action can do to score and length: nothing, a meal, or a
    new game. *)
Lemma update_score_length s :
  food s ≠ None →
  let s' := after (update random s) in
  (score s' = score s ∧ length (snake s') = length (snake s)) ∨
  (score s' = score s + 10 ∧ length (snake s') = S (length (snake s))).
Proof.
  intros Hf.
  destruct (update_cases s) as
    [[Hnh ->] | [(c & Hnh & Hc & ->) | [(c & Hnh & Hc & Hf' & ->)
      | [(c & Hnh & Hc & Hon & ->) | (c & Hnh & Hc & _ & Hon & ->)]]]]; cbv zeta.
  - left. split; reflexivity.
  - left. cbn [after gameOver returns].
    destruct (stop_fields (set_direction (nextDirection s) s)) as (-> & _ & -> & _).
    split; reflexivity.
  - contradiction.
  - right.
    match goal with |- context [eat random ?t] =>
      pose proof (eat_fields t) as (Hsn & Hs & _);
      destruct (eat random t) as [s3 ev] end.
    cbn [fst after returns] in *.
    destruct (animate_fields s3) as (-> & -> & _). rewrite Hsn, Hs.
    split; reflexivity.
  - left. cbn [after returns].
    match goal with |- context [animate ?t] =>
      destruct (animate_fields t) as (-> & -> & _) end.
    cbn [snake score set_snake set_direction].
    split; [reflexivity | apply length_removelast_cons].
Qed.

Lemma step_score_length a s :
  food s ≠ None →
  let s' := after (step random a s) in
  (score s' = score s ∧ length (snake s') = length (snake s)) ∨
  (score s' = score s + 10 ∧ length (snake s') = S (length (snake s))) ∨
  (score s' = 0 ∧ length (snake s') = 3%nat).
Proof.
  intros Hf. cbv zeta. rewrite after_step.
  assert (Hinit : score (init random s).1 = 0 ∧ length (snake (init random s).1) = 3%nat).
  { destruct (init_eq s) as (n & f & _ & _ & ->). split; reflexivity. }
  destruct a.
  - right; right. exact Hinit.
  - unfold start. destruct (isRunning s && negb (isPaused s)); [left; split; reflexivity|].
    destruct (isPaused s); [left; split; reflexivity|].
    right; right. destruct (init random s) as [s1 ev]. exact Hinit.
  - left. destruct (pause_fields s) as (-> & _ & -> & _). split; reflexivity.
  - left. destruct (resume_fields s) as (-> & _ & -> & _). split; reflexivity.
  - left. destruct (stop_fields s) as (-> & _ & -> & _). split; reflexivity.
  - left. destruct (setDirection_fields dir s) as (-> & _ & -> & _). split; reflexivity.
  - destruct (timer_live id s); [|left; split; reflexivity].
    destruct (update_score_length s Hf) as [H|H]; [left | right; left]; exact H.
  - left. split; reflexivity.
  - left. split; reflexivity.
Qed.

End Invariants.

(** ** The claims about the engine *)

Section EngineTheorems.

Variable random : nat → Q.

Local Opaque generateFood.

Lemma reachable_step a s : reachable random s → reachable random (after (step random a s)).
Proof.
  intros (w & h & Hr). exists w, h. constructor. exact Hr.
Qed.

Lemma reachable_run acts s : reachable random s → reachable random (run random acts s).1.
Proof.
  intros (w & h & Hr). exists w, h. apply reaches_run. exact Hr.
Qed.

(** C9.  [init] leaves a snake of three cells and score 0.  In every
    state that a game reaches after [init] has run, by ticks of any kind
    and by any other call, the score is ten times the number of cells the
    snake has gained over its initial three; and one more action either
    leaves score and length as they are, or adds 10 to the one and 1 to the
    other (a tick that eats), or resets them to 0 and 3 (a new game). *)
Theorem score_is_ten_per_cell_gained :
  (∀ s0, length (snake (init random s0).1) = 3%nat ∧ score (init random s0).1 = 0) ∧
  (∀ s, initialised random s →
     score s = 10 * (Z.of_nat (length (snake s)) - 3) ∧
     ∀ a, let s' := after (step random a s) in
       (score s' = score s ∧ length (snake s') = length (snake s)) ∨
       (score s' = score s + 10 ∧ length (snake s') = S (length (snake s))) ∨
       (score s' = 0 ∧ length (snake s') = 3%nat)).
Proof.
  split.
  - intros s0. destruct (init_eq random s0) as (n & f & _ & _ & ->). split; reflexivity.
  - intros s (s0 & Hr).
    assert (Hinv : score_counts_growth s).
    { apply (reaches_invariant random score_counts_growth (init random s0).1 s).
      - apply init_score_counts_growth.
      - intros a s'. apply step_score_counts_growth.
      - exact Hr. }
    split; [apply Hinv|].
    intros a. apply step_score_length. apply Hinv.
Qed.





(** *** After the game has ended *)

Lemma init_emitted s :
  ∃ frame,
    (init random s).2
    = (if onScoreChange s then [ScoreChanged 0] else []) ++ [Drawn frame].
Proof.
  unfold init. cbn [snd]. eexists. reflexivity.
Qed.

Lemma halted_step a s :
  a ≠ Start → halted s →
  halted (after (step random a s)) ∧ ∀ sc, GameOver sc ∉ emitted (step random a s).
Proof.
  intros Ha (Hr & Hp & Hg & Ht).
  assert (Hnone : ∀ sc, GameOver sc ∉ @nil Event) by (intros sc; apply not_elem_of_nil).
  destruct a; try congruence.
  - (* Init *)
    split.
    + rewrite after_step. destruct (init_eq random s) as (n & f & _ & _ & ->).
      repeat split; assumption.
    + intros sc. unfold step. destruct (init_emitted s) as (frame & He).
      destruct (init random s) as [s' ev]. cbn [emitted returns snd] in *. subst ev.
      destruct (onScoreChange s); cbn; intros Hin;
        repeat (apply elem_of_cons in Hin as [Hin|Hin]; [discriminate|]);
        apply elem_of_nil in Hin; exact Hin.
  - (* Pause *)
    split; [|exact Hnone]. rewrite after_step. unfold pause. rewrite Hr. cbn.
    repeat split; assumption.
  - (* Resume *)
    split; [|exact Hnone]. rewrite after_step. unfold resume. rewrite Hp. cbn.
    repeat split; assumption.
  - (* Stop *)
    split; [|exact Hnone]. rewrite after_step. unfold stop.
    cbn [gameLoop set_isPaused set_isRunning]. rewrite Hg. cbn.
    repeat split; assumption.
  - (* SetDirection *)
    split; [|exact Hnone]. rewrite after_step. unfold setDirection.
    destruct (directions dir); [|repeat split; assumption].
    destruct (opposite _ _); repeat split; assumption.
  - (* TimerFires *)
    unfold step, timer_live. rewrite Ht. cbn.
    split; [repeat split; assumption | exact Hnone].
  - (* SetCallbacks *)
    split; [|exact Hnone]. repeat split; assumption.
  - (* ResetSpeed *)
    split; [|exact Hnone]. repeat split; assumption.
Qed.

Lemma halted_run acts : ∀ s,
  Forall (λ a, a ≠ Start) acts → halted s →
  halted (run random acts s).1 ∧ ∀ sc, GameOver sc ∉ (run random acts s).2.
Proof.
  induction acts as [|a acts IH]; intros s Hall Hs; cbn [run].
  - split; [exact Hs|]. intros sc. apply not_elem_of_nil.
  - inversion Hall as [|? ? Ha Hacts]; subst.
    destruct (halted_step a s Ha Hs) as [Hs1 He1].
    destruct (IH _ Hacts Hs1) as [Hs2 He2].
    destruct (run random acts (after (step random a s))) as [s' evs]. cbn [fst snd] in *.
    split; [exact Hs2|]. intros sc Hin.
    apply elem_of_app in Hin as [Hin|Hin]; [exact (He1 sc Hin) | exact (He2 sc Hin)].
Qed.

(** C2.  In a reachable state whose snake has a head, if the new head is
    outside the grid or on the snake, the tick returns normally and leaves
    the state as it was except for five fields: the applied direction (set
    to the pending one before the test), the two flags (cleared), the
    timer table (emptied) and the handle (cleared).  Snake, score, food
    and interval are those of before the tick.  The game-over callback, if
    one is set, is called once, with that score, and nothing else is
    emitted; and whatever happens next, short of a new [start], it is not
    called again. *)
Theorem collision_ends_game s c :
  reachable random s → newHead s = Some c → collides s c = true →
  let o := update random s in
  threw o = false ∧
  emitted o = (if onGameOver s then [GameOver (score s)] else []) ∧
  after o
  = set_gameLoop None
      (set_timers []
         (set_isPaused false
            (set_isRunning false (set_direction (nextDirection s) s)))) ∧
  snake (after o) = snake s ∧ score (after o) = score s ∧
  isRunning (after o) = false ∧ isPaused (after o) = false ∧
  timers (after o) = [] ∧ gameLoop (after o) = None ∧
  (∀ acts, Forall (λ a, a ≠ Start) acts →
     ∀ sc, GameOver sc ∉ (run random acts (after o)).2).
Proof.
  intros Hs Hnh Hc o. subst o. rewrite (update_collision random s c Hnh Hc).
  pose proof (reachable_timers_agree random s Hs) as Hta.
  assert (Hta1 : timers_agree (set_direction (nextDirection s) s)) by exact Hta.
  unfold gameOver. cbn [threw emitted after returns].
  rewrite (stop_eq _ Hta1).
  repeat (split; [reflexivity|]).
  intros acts Hall. apply halted_run; [exact Hall|]. repeat split.
Qed.

(** *** While the game is paused *)

Lemma quiet_step a s :
  stays_halted a → timers_agree s → timers s = [] →
  let o := step random a s in
  emitted o = [] ∧ timers (after o) = [] ∧
  snake (after o) = snake s ∧ food (after o) = food s ∧ score (after o) = score s.
Proof.
  intros Ha Hta Ht.
  assert (Hidle : isRunning s && negb (isPaused s) = false).
  { destruct Hta as (_ & _ & H). destruct (isRunning s && negb (isPaused s)); [|reflexivity].
    destruct H as (id & period & _ & _ & H). rewrite H in Ht. discriminate. }
  destruct a; try contradiction; cbn [step emitted after returns].
  - (* Pause *)
    assert (Hp : pause s = s).
    { unfold pause. destruct (isRunning s), (isPaused s); try reflexivity; discriminate. }
    rewrite Hp. auto.
  - (* Stop *)
    rewrite (stop_eq s Hta). auto.
  - (* SetDirection *)
    destruct (setDirection_fields dir s) as (-> & -> & -> & _).
    split; [reflexivity|]. split; [|auto].
    unfold setDirection. destruct (directions dir); [|exact Ht].
    destruct (opposite _ _); exact Ht.
  - (* TimerFires *)
    unfold timer_live. rewrite Ht. cbn. auto.
  - auto.
  - auto.
Qed.

Lemma quiet_run acts : ∀ s,
  Forall stays_halted acts → timers_agree s → timers s = [] →
  (run random acts s).2 = [] ∧ timers (run random acts s).1 = [] ∧
  snake (run random acts s).1 = snake s ∧ food (run random acts s).1 = food s ∧
  score (run random acts s).1 = score s.
Proof.
  induction acts as [|a acts IH]; intros s Hall Hta Ht; cbn [run].
  - auto.
  - inversion Hall as [|? ? Ha Hacts]; subst.
    destruct (quiet_step a s Ha Hta Ht) as (He & Ht1 & Hsn & Hf & Hsc).
    destruct (IH _ Hacts (step_timers_agree random a s Hta) Ht1)
      as (He2 & Ht2 & Hsn2 & Hf2 & Hsc2).
    destruct (run random acts (after (step random a s))) as [s' evs]. cbn [fst snd] in *.
    rewrite He, He2. repeat split; congruence.
Qed.

Lemma timer_off_step a s :
  keeps_timer_off a → timers_agree s → timers s = [] →
  timers (after (step random a s)) = [].
Proof.
  intros Ha Hta Ht. destruct a; try contradiction;
    try (apply quiet_step; [exact I | exact Hta | exact Ht]).
  rewrite after_step. destruct (init_eq random s) as (n & f & _ & _ & ->). exact Ht.
Qed.

Lemma timer_off_run acts : ∀ s,
  Forall keeps_timer_off acts → timers_agree s → timers s = [] →
  ticks random acts s = 0%nat.
Proof.
  induction acts as [|a acts IH]; intros s Hall Hta Ht; cbn [ticks]; [reflexivity|].
  inversion Hall as [|? ? Ha Hacts]; subst.
  rewrite (IH _ Hacts (step_timers_agree random a s Hta) (timer_off_step a s Ha Hta Ht)).
  destruct a; try reflexivity.
  unfold timer_live. rewrite Ht. reflexivity.
Qed.

Lemma pause_quiet s : timers_agree s → gameLoop (pause s) = None ∧ timers (pause s) = [].
Proof.
  intros Hta. pose proof (pause_timers_agree s Hta) as (_ & _ & H).
  destruct (isRunning (pause s) && negb (isPaused (pause s))) eqn:Hact; [|exact H].
  exfalso. clear H. unfold pause in Hact.
  destruct (isRunning s) eqn:Hr, (isPaused s) eqn:Hp; cbn in Hact;
    try (rewrite Hr, Hp in Hact; discriminate).
  destruct s as [? ? ? ? ? ? ? [id|] ? ? ? ? ? ? ? ?]; cbn in *; subst; discriminate.
Qed.

(** C8.  From any state, a second [pause] changes nothing that the first
    left.  After [pause] on a reachable state no timer is live and the
    handle is cleared, so a timer firing does nothing, and a run of any
    length makes no tick as long as it contains neither [resume] nor
    [start]; if it does not contain [init] either, nothing is emitted (no
    score callback, no drawing) and snake, food and score stay as they
    were. *)
Theorem pause_idempotent_and_cancels :
  (∀ s, pause (pause s) = pause s) ∧
  (∀ s, reachable random s →
     gameLoop (pause s) = None ∧ timers (pause s) = [] ∧
     (∀ id, step random (TimerFires id) (pause s) = returns (pause s) []) ∧
     (∀ acts, Forall keeps_timer_off acts → ticks random acts (pause s) = 0%nat) ∧
     (∀ acts, Forall stays_halted acts →
        (run random acts (pause s)).2 = [] ∧
        snake (run random acts (pause s)).1 = snake s ∧
        food (run random acts (pause s)).1 = food s ∧
        score (run random acts (pause s)).1 = score s)).
Proof.
  split.
  - intros s. unfold pause at 2 3.
    destruct (isRunning s) eqn:Hr, (isPaused s) eqn:Hp; cbn;
      try (unfold pause; rewrite Hr, Hp; reflexivity).
    destruct s as [? ? ? ? ? ? ? [id|] ? ? ? ? ? ? ? ?]; cbn in *; subst; reflexivity.
  - intros s Hs. pose proof (reachable_timers_agree random s Hs) as Hta.
    destruct (pause_quiet s Hta) as [Hg Ht].
    split; [exact Hg|]. split; [exact Ht|]. split; [|split].
    + intros id. unfold step, timer_live. rewrite Ht. reflexivity.
    + intros acts Hall.
      apply timer_off_run; [exact Hall | apply pause_timers_agree, Hta | exact Ht].
    + intros acts Hall.
      destruct (quiet_run acts (pause s) Hall (pause_timers_agree s Hta) Ht)
        as (He & _ & Hsn & Hf & Hsc).
      destruct (pause_fields s) as (Hs1 & Hs2 & Hs3 & _).
      repeat split; congruence.
Qed.

(** *** One tick *)

Lemma eat_food s :
  food (eat random s).1 = food (generateFood random (set_score (score s + 10) s)) ∧
  randomCalls (eat random s).1
  = randomCalls (generateFood random (set_score (score s + 10) s)) ∧
  (eat random s).2 = (if onScoreChange s then [ScoreChanged (score s + 10)] else []).
Proof.
  unfold eat. cbv zeta.
  destruct (generateFood_shape random (set_score (score s + 10) s)) as (n & f & _ & _ & ->).
  destruct (speed _ >? 60); [|repeat split].
  destruct s as [? ? ? ? ? ? ? [id|] ? ? ? ? ? ? ? ?]; repeat split.
Qed.

Lemma animate_food s s' : food s = food s' → food (animate s) = food (animate s').
Proof.
  intros H. unfold animate. rewrite <- H.
  destruct (food s) as [f|] eqn:E; [|congruence].
  destruct (Qltb _ _); [reflexivity | congruence].
Qed.

Lemma tick_eats s c :
  newHead s = Some c → collides s c = false → onFood s c = true →
  let o := update random s in
  let s2 := set_score (score s + 10)
              (set_snake (c :: snake s) (set_direction (nextDirection s) s)) in
  threw o = false ∧
  score (after o) = score s + 10 ∧
  (∃ frame,
     emitted o
     = (if onScoreChange s then [ScoreChanged (score s + 10)] else []) ++ [Drawn frame]) ∧
  food (after o) = food (animate (generateFood random s2)) ∧
  randomCalls (after o) = randomCalls (generateFood random s2) ∧
  snake (after o) = c :: snake s.
Proof.
  intros Hnh Hc Hon o s2. subst o. rewrite (update_eat random s c Hnh Hc Hon).
  set (s' := set_snake (c :: snake s) (set_direction (nextDirection s) s)).
  destruct (eat_fields random s') as (Hsn & Hsc & _).
  destruct (eat_food s') as (Hfd & Hrc & Hev).
  destruct (eat random s') as [s3 ev]. cbn [fst snd after emitted threw returns] in *.
  destruct (animate_fields s3) as (Hsn' & Hsc' & _).
  split; [reflexivity|].
  split; [rewrite Hsc', Hsc; reflexivity|].
  split; [exists (draw s3); rewrite Hev; reflexivity|].
  split; [apply animate_food; exact Hfd|].
  split; [|rewrite Hsn', Hsn; reflexivity].
  transitivity (randomCalls s3); [|exact Hrc].
  unfold animate. destruct (food s3); [|reflexivity].
  destruct (Qltb _ _); reflexivity.
Qed.

Lemma tick_moves s c :
  newHead s = Some c → collides s c = false → food s ≠ None → onFood s c = false →
  let o := update random s in
  threw o = false ∧
  snake (after o) = removelast (c :: snake s) ∧
  score (after o) = score s ∧
  randomCalls (after o) = randomCalls s ∧
  (∃ frame, emitted o = [Drawn frame]).
Proof.
  intros Hnh Hc Hfood Hon o. subst o.
  rewrite (update_move random s c Hnh Hc Hfood Hon).
  cbv zeta. cbn [after emitted threw returns].
  match goal with |- context [animate ?t] =>
    destruct (animate_fields t) as (Hsn' & Hsc' & _); set (s3 := t) in * end.
  rewrite Hsn', Hsc'. repeat (split; [reflexivity|]).
  split; [|eexists; reflexivity].
  unfold animate. destruct (food s3); [|reflexivity].
  destruct (Qltb _ _); reflexivity.
Qed.

(** C1.  On a tick that does not end the game (there is food, and the new
    head is inside the grid and not on the snake): if the new head is on
    the food cell, the score grows by exactly 10, the score callback (if
    set) is called once with the new score, the food is the one a call
    of [generateFood] produces, and the snake is the old one with the new
    head in front, one cell longer; if the new head is not on the food
    cell, the last cell is dropped, the length and the score stay the same
    and no callback is called.  In the scenario of the specification the
    tick yields the head (6,5), score 10 and length 4, with (3,5) still the
    last cell. *)
Theorem tick_grows_only_on_food :
  (∀ s c,
     newHead s = Some c → collides s c = false → food s ≠ None →
     let o := update random s in
     threw o = false ∧
     (onFood s c = true →
        let s2 := set_score (score s + 10)
                    (set_snake (c :: snake s) (set_direction (nextDirection s) s)) in
        score (after o) = score s + 10 ∧
        (∃ frame,
           emitted o
           = (if onScoreChange s then [ScoreChanged (score s + 10)] else [])
             ++ [Drawn frame]) ∧
        food (after o) = food (animate (generateFood random s2)) ∧
        randomCalls (after o) = randomCalls (generateFood random s2) ∧
        snake (after o) = c :: snake s ∧
        length (snake (after o)) = S (length (snake s))) ∧
     (onFood s c = false →
        snake (after o) = removelast (c :: snake s) ∧
        length (snake (after o)) = length (snake s) ∧
        score (after o) = score s ∧
        (∃ frame, emitted o = [Drawn frame]))) ∧
  (let o := update random scenario in
   snake (after o) = [mkCell 6 5; mkCell 5 5; mkCell 4 5; mkCell 3 5] ∧
   score (after o) = 10 ∧
   length (snake (after o)) = 4%nat ∧
   last (snake (after o)) = Some (mkCell 3 5)).
Proof.
  split.
  - intros s c Hnh Hc Hfood o. subst o. split; [|split].
    + destruct (onFood s c) eqn:Hon.
      * apply (tick_eats s c Hnh Hc Hon).
      * apply (tick_moves s c Hnh Hc Hfood Hon).
    + intros Hon s2.
      destruct (tick_eats s c Hnh Hc Hon) as (_ & Hsc & Hev & Hfd & Hrc & Hsn).
      repeat (split; [assumption|]). rewrite Hsn. reflexivity.
    + intros Hon.
      destruct (tick_moves s c Hnh Hc Hfood Hon) as (_ & Hsn & Hsc & _ & Hev).
      split; [exact Hsn|]. split; [rewrite Hsn; apply length_removelast_cons|].
      split; assumption.
  - destruct (tick_eats scenario (mkCell 6 5)) as (_ & Hsc & _ & _ & _ & Hsn);
      [reflexivity ..|].
    cbv zeta. rewrite Hsn, Hsc. repeat split.
Qed.

(** *** Input *)

(** C6 (as the code has it).  [setDirection] does not look at the flags:
    in every phase a recognised direction that is not the reverse of the
    applied one becomes the pending direction, and nothing else changes.
    The test for the phase is made by the two input handlers of the page,
    which call [setDirection] only when the game runs unpaused: when it
    does not, a key press or a button click leaves the whole state as it
    is. *)
Theorem input_ignored_unless_running s :
  (∀ dir d, directions dir = Some d → opposite (direction s) d = false →
     setDirection dir s = set_nextDirection d s) ∧
  (accepts_input s = false →
     ∀ key dir, handleKeyDown key s = s ∧ mobileControlClick dir s = s).
Proof.
  split.
  - intros dir d Hd Ho. unfold setDirection. rewrite Hd, Ho. reflexivity.
  - unfold accepts_input, handleKeyDown, mobileControlClick, accepts_input.
    intros Hidle key dir. rewrite Hidle.
    destruct (isRunning s), (isPaused s); try discriminate; split; reflexivity.
Qed.

(** *** Drawing the food *)

(** For a food whose scale is not 0 the sprite is scaled by it, and the
    glow is 15 times it. *)
Lemma draw_food_grown f :
  ¬ (food_scale f == 0)%Q →
  sprite_scale (draw_food f) = food_scale f ∧
  sprite_shadowBlur (draw_food f) = (15 * food_scale f)%Q.
Proof.
  intros Hne. unfold draw_food, or_one. cbn [sprite_scale sprite_shadowBlur].
  destruct (Qeq_bool (food_scale f) 0) eqn:E; [|split; reflexivity].
  apply Qeq_bool_iff in E. contradiction.
Qed.

(** C5 (what the code does at growth 0).  A food whose scale is 0 is drawn
    with scale factor 1 and glow 15, the values of a fully grown food.  So
    is the food that [generateFood] has just made, and that is what the
    frame drawn by [init] shows. *)
Theorem fresh_food_drawn_full_size :
  (∀ fx fy t,
     sprite_scale (draw_food (mkFood fx fy t 0)) = 1%Q ∧
     sprite_shadowBlur (draw_food (mkFood fx fy t 0)) = 15%Q) ∧
  (∀ s, ∃ sprite,
     frame_food (draw (generateFood random s)) = Some sprite ∧
     sprite_scale sprite = 1%Q ∧ sprite_shadowBlur sprite = 15%Q) ∧
  (∀ s, ∃ frame sprite,
     last (init random s).2 = Some (Drawn frame) ∧
     frame_food frame = Some sprite ∧
     sprite_scale sprite = 1%Q ∧ sprite_shadowBlur sprite = 15%Q).
Proof.
  assert (Fresh : ∀ s, ∃ sprite,
     frame_food (draw (generateFood random s)) = Some sprite ∧
     sprite_scale sprite = 1%Q ∧ sprite_shadowBlur sprite = 15%Q).
  { intros s. destruct (generateFood_shape random s) as (n & f & _ & Hf & ->).
    exists (draw_food f). split; [reflexivity|].
    destruct f as [fx fy t sc]. cbn in Hf. subst sc. split; reflexivity. }
  split; [|split].
  - intros fx fy t. split; reflexivity.
  - exact Fresh.
  - intros s. unfold init. cbv zeta. cbn [snd].
    match goal with |- context [draw (generateFood random ?t)] =>
      destruct (Fresh t) as (sprite & Hfr & Hsc & Hbl);
      exists (draw (generateFood random t)), sprite end.
    split; [apply last_snoc|]. repeat split; assumption.
Qed.

End EngineTheorems.

(** ** The claim about the score store *)

Section StoreFacts.

Import DataStore.

Lemma Normal_inj {A} (a b : A) : Normal a = Normal b → a = b.
Proof. intros H. injection H as H. exact H. Qed.

Lemma Normal_pair_inj {A B} (a a' : A) (b b' : B) :
  Normal (a, b) = Normal (a', b') → a = a' ∧ b = b'.
Proof. intros H. injection H as H1 H2. split; assumption. Qed.

(** *** Lookups and assignments *)

Lemma getUser_own st username user :
  getUser st username = Own user ↔ users (getData st) !! username = Some user.
Proof.
  unfold getUser. destruct (users (getData st) !! username) as [u|].
  - split; intros H; injection H as ->; reflexivity.
  - split; [|discriminate]. destruct (inherited username); discriminate.
Qed.

Lemma getUser_no_record st username :
  users (getData st) !! username = None →
  getUser st username = if inherited username then Inherited else Missing.
Proof. intros H. unfold getUser. rewrite H. reflexivity. Qed.

Lemma getUser_not_own st username :
  users (getData st) !! username = None ↔
  getUser st username = Inherited ∨ getUser st username = Missing.
Proof.
  unfold getUser. destruct (users (getData st) !! username) as [u|].
  - split; [discriminate | intros [H|H]; discriminate].
  - split; [|reflexivity]. intros _. destruct (inherited username); auto.
Qed.

Lemma getUser_same_users st st' username :
  users (getData st') = users (getData st) → getUser st' username = getUser st username.
Proof. intros H. unfold getUser. rewrite H. reflexivity. Qed.

Lemma inherited_proto : inherited "__proto__" = true.
Proof. reflexivity. Qed.

Lemma getUser_missing_not_proto st username :
  getUser st username = Missing → username ≠ "__proto__".
Proof.
  unfold getUser. intros H ->. destruct (users (getData st) !! "__proto__"); discriminate.
Qed.

(** The assignment makes an entry unless the name is [__proto__] and has
    none. *)
Lemma assign_user_entry username userData data :
  users data !! username ≠ None ∨ username ≠ "__proto__" →
  assign_user username userData data
  = mkData (<[username := userData]> (users data)) (currentUser data).
Proof.
  intros H. unfold assign_user. destruct (users data !! username) as [u|]; [reflexivity|].
  destruct (String.eqb_spec username "__proto__") as [->|Hne]; [|reflexivity].
  destruct H as [H|H]; contradiction.
Qed.

Lemma assign_user_proto userData data :
  users data !! "__proto__" = None → assign_user "__proto__" userData data = data.
Proof. intros H. unfold assign_user. rewrite H. reflexivity. Qed.

Lemma currentUser_assign_user username userData data :
  currentUser (assign_user username userData data) = currentUser data.
Proof.
  unfold assign_user. destruct (users data !! username); [reflexivity|].
  destruct (String.eqb username "__proto__"); reflexivity.
Qed.

Lemma saveUser_entry username userData st :
  users (getData st) !! username ≠ None ∨ username ≠ "__proto__" →
  saveUser true username userData st
  = Some (mkData (<[username := userData]> (users (getData st)))
            (currentUser (getData st))).
Proof.
  intros H. unfold saveUser, saveData. rewrite (assign_user_entry _ _ _ H). reflexivity.
Qed.

Lemma saveUser_refused username userData st : saveUser false username userData st = st.
Proof. reflexivity. Qed.

Lemma getUser_insert st username userData cu other :
  getUser (Some (mkData (<[username := userData]> (users (getData st))) cu)) other
  = if decide (username = other) then Own userData else getUser st other.
Proof.
  unfold getUser. cbn [getData users].
  destruct (decide (username = other)) as [->|Hne].
  - rewrite lookup_insert_eq. reflexivity.
  - rewrite lookup_insert_ne by exact Hne. reflexivity.
Qed.

Lemma getCurrentUser_saveUser accepted username userData st :
  getCurrentUser (saveUser accepted username userData st) = getCurrentUser st.
Proof.
  unfold getCurrentUser, saveUser, saveData. destruct accepted; [|reflexivity].
  cbn [getData]. apply currentUser_assign_user.
Qed.

(** The list that is kept. *)
Lemma kept_is_take {A} (x : A) (l : list A) :
  (if (20 <? length (x :: l))%nat then take 20 (x :: l) else x :: l) = take 20 (x :: l).
Proof.
  destruct (Nat.ltb_spec 20 (length (x :: l))) as [Hlong|Hshort]; [reflexivity|].
  rewrite (take_ge _ 20) by exact Hshort. reflexivity.
Qed.

Lemma take_20_cons {A} (x : A) (l : list A) :
  (length (take 20 (x :: l)) ≤ 20)%nat ∧
  take 20 (x :: l) !! 0%nat = Some x ∧
  (∀ i, (S i < 20)%nat → take 20 (x :: l) !! S i = l !! i).
Proof.
  split; [rewrite length_take; lia|]. split; [reflexivity|].
  intros i Hi. rewrite lookup_take_lt by lia. reflexivity.
Qed.


End StoreFacts.

(** ** The claims on concrete games *)

Lemma reachable_running_game : reachable always_065 running_game.
Proof. apply reachable_run. exists 200, 200. constructor. Qed.

Lemma reachable_at_the_wall : reachable always_065 at_the_wall.
Proof. apply reachable_run. exists 200, 200. constructor. Qed.







(** C1, as stated, fails on a tick that ends the game: with the head
    against the right wall the new head (10, 5) is not the food cell, and
    the tick leaves the snake as it is, the last cell (7, 5) included,
    where dropping the last cell would leave (10,5), (9,5), (8,5). *)
Lemma terminal_tick_keeps_tail :
  newHead at_the_wall = Some (mkCell 10 5) ∧
  onFood at_the_wall (mkCell 10 5) = false ∧
  snake (after (update always_065 at_the_wall))
  = [mkCell 9 5; mkCell 8 5; mkCell 7 5] ∧
  snake (after (update always_065 at_the_wall))
  ≠ removelast (mkCell 10 5 :: snake at_the_wall).
Proof.
  split; [vm_compute; reflexivity|].
  split; [vm_compute; reflexivity|].
  split; [vm_compute; reflexivity|].
  vm_compute. discriminate.
Qed.

Lemma tick_grows_only_on_food_witness :
  score (after (update always_065 scenario)) = score scenario + 10 ∧
  snake (after (update always_065 scenario)) = mkCell 6 5 :: snake scenario.
Proof.
  destruct (proj1 (tick_grows_only_on_food always_065) scenario (mkCell 6 5))
    as (_ & Heat & _); [reflexivity | reflexivity | discriminate |].
  destruct (Heat eq_refl) as (Hscore & _ & _ & _ & Hsnake & _).
  split; [exact Hscore | exact Hsnake].
Defined.

Lemma collision_ends_game_witness :
  emitted (update always_065 at_the_wall)
  = (if onGameOver at_the_wall then [GameOver (score at_the_wall)] else []) ∧
  snake (after (update always_065 at_the_wall)) = snake at_the_wall ∧
  timers (after (update always_065 at_the_wall)) = [].
Proof.
  destruct (collision_ends_game always_065 at_the_wall (mkCell 10 5))
    as (_ & Hev & _ & Hsnake & _ & _ & _ & Htimers & _);
    [exact reachable_at_the_wall | vm_compute; reflexivity | vm_compute; reflexivity |].
  split; [exact Hev|]. split; [exact Hsnake | exact Htimers].
Defined.



Lemma generateFood_bounded_rejection_witness :
  foodOnSnake (generateFood always_065 scenario) = false.
Proof.
  destruct (generateFood_bounded_rejection always_065 scenario)
    as (n & _ & _ & _ & _ & _ & _ & _ & _ & Hfree).
  apply (Hfree 0%nat); [lia | vm_compute; reflexivity].
Defined.

Lemma pause_idempotent_and_cancels_witness :
  timers (pause running_game) = [] ∧
  ticks always_065 [TimerFires 1; SetDirection "up"; TimerFires 1] (pause running_game)
  = 0%nat ∧
  (run always_065 [TimerFires 1; SetDirection "up"; TimerFires 1] (pause running_game)).2
  = [].
Proof.
  destruct (proj2 (pause_idempotent_and_cancels always_065) running_game
              reachable_running_game) as (_ & Htimers & _ & Hticks & Hruns).
  split; [exact Htimers|]. split.
  - apply Hticks. repeat constructor.
  - apply Hruns. repeat constructor.
Defined.

Lemma score_is_ten_per_cell_gained_witness :
  score after_first_meal = 10 * (Z.of_nat (length (snake after_first_meal)) - 3).
Proof.
  apply (proj2 (score_is_ten_per_cell_gained always_065)).
  exists (constructor 200 200). apply reaches_run. constructor.
Defined.

(** C6, as stated, fails: on the paused game a call of [setDirection]
    replaces the pending direction, and the first tick after [resume]
    applies it. *)
Lemma setDirection_changes_paused_game :
  isPaused paused_game = true ∧ accepts_input paused_game = false ∧
  nextDirection paused_game = mkCell 1 0 ∧
  nextDirection (setDirection "up" paused_game) = mkCell 0 (-1) ∧
  setDirection "up" paused_game ≠ paused_game ∧
  direction (after (update always_065 (resume (setDirection "up" paused_game))))
  = mkCell 0 (-1).
Proof.
  split; [vm_compute; reflexivity|].
  split; [vm_compute; reflexivity|].
  split; [vm_compute; reflexivity|].
  split; [vm_compute; reflexivity|].
  split; [|vm_compute; reflexivity].
  intros H. apply (f_equal nextDirection) in H. vm_compute in H. discriminate.
Qed.

Lemma input_ignored_unless_running_witness :
  handleKeyDown "ArrowUp" paused_game = paused_game ∧
  mobileControlClick "up" paused_game = paused_game.
Proof.
  apply (proj2 (input_ignored_unless_running paused_game)).
  vm_compute. reflexivity.
Defined.

(* ===================================================================== *)
(** * Further properties *)
(* ===================================================================== *)

(** ** The store *)

Section StoreProperties.

Import DataStore.

Lemma userExists_trapped st username :
  users (getData st) !! "hasOwnProperty" ≠ None → userExists st username = TypeError.
Proof.
  intros H. unfold userExists.
  destruct (users (getData st) !! "hasOwnProperty"); [reflexivity | contradiction].
Qed.

Lemma userExists_true st username :
  userExists st username = Normal true ↔
  users (getData st) !! "hasOwnProperty" = None ∧ ∃ user, getUser st username = Own user.
Proof.
  unfold userExists. destruct (users (getData st) !! "hasOwnProperty") as [t|].
  - split; [discriminate | intros [H _]; discriminate].
  - destruct (users (getData st) !! username) as [u|] eqn:Hu.
    + split; [|reflexivity]. intros _. split; [reflexivity|].
      exists u. apply getUser_own. exact Hu.
    + split; [discriminate|]. intros (_ & user & Hown).
      apply getUser_own in Hown. congruence.
Qed.

Lemma userExists_false st username :
  userExists st username = Normal false ↔
  users (getData st) !! "hasOwnProperty" = None ∧ users (getData st) !! username = None.
Proof.
  unfold userExists. destruct (users (getData st) !! "hasOwnProperty") as [t|].
  - split; [discriminate | intros [H _]; discriminate].
  - destruct (users (getData st) !! username) as [u|].
    + split; [discriminate | intros [_ H]; discriminate].
    + split; auto.
Qed.

Lemma userExists_never_pollutes st username : userExists st username ≠ Pollutes.
Proof.
  unfold userExists. destruct (users (getData st) !! "hasOwnProperty"); discriminate.
Qed.

Lemma registerUser_never_pollutes accepted username pass now st :
  registerUser accepted username pass now st ≠ Pollutes.
Proof.
  unfold registerUser. pose proof (userExists_never_pollutes st username) as H.
  destruct (userExists st username) as [[|]| |]; cbn; try discriminate. contradiction.
Qed.

Lemma addScore_never_pollutes accepted username sc now st :
  addScore accepted username sc now st ≠ Pollutes.
Proof. unfold addScore. destruct (getUser st username); discriminate. Qed.

(** X1.  [registerUser] by cases.  While a user named [hasOwnProperty] is
    stored, it throws for every name.  Otherwise it refuses a name that
    has a record: it answers [false] and the stored data stays as it is.
    For a name without a record it answers [true], even when the browser
    refuses the write.  When the write is accepted, the other users and
    the current user are as before and, unless the name is [__proto__],
    the name has the new record: a password verifies exactly when it is
    the registered one and is not empty, and the high score is 0.  Two
    names go wrong.  For [__proto__] nothing is stored: the name still has
    no record.  After [hasOwnProperty] has been registered, [userExists]
    throws for every name. *)
Theorem registerUser_new_or_refused username pass now st :
  (∀ accepted, users (getData st) !! "hasOwnProperty" ≠ None →
     registerUser accepted username pass now st = TypeError) ∧
  (∀ accepted, userExists st username = Normal true →
     registerUser accepted username pass now st = Normal (false, st)) ∧
  (userExists st username = Normal false →
     registerUser false username pass now st = Normal (true, st) ∧
     ∃ st',
       registerUser true username pass now st = Normal (true, st') ∧
       getCurrentUser st' = getCurrentUser st ∧
       (∀ other, other ≠ username → getUser st' other = getUser st other) ∧
       (username = "__proto__" →
          getUser st' username = Inherited ∧
          userExists st' username = Normal false ∧
          ∀ p, verifyPassword st' username p = false) ∧
       (username ≠ "__proto__" →
          getUser st' username = Own (mkUser (Some pass) [] [] (Some now)) ∧
          (∀ p, verifyPassword st' username p
                = if String.eqb pass "" then false else String.eqb pass p) ∧
          getHighScore st' username = 0 ∧
          (username ≠ "hasOwnProperty" → userExists st' username = Normal true) ∧
          (username = "hasOwnProperty" → ∀ name, userExists st' name = TypeError))).
Proof.
  split; [|split].
  - intros accepted H. unfold registerUser. rewrite (userExists_trapped _ _ H). reflexivity.
  - intros accepted H. unfold registerUser. rewrite H. reflexivity.
  - intros H. pose proof H as Hex. apply userExists_false in H as [Htrap Hnone].
    unfold registerUser. rewrite Hex. cbv zeta. cbn [bind saveData].
    split; [reflexivity|].
    eexists. split; [reflexivity|].
    split; [unfold getCurrentUser; cbn [getData]; apply currentUser_assign_user|].
    destruct (String.eqb_spec username "__proto__") as [->|Hne].
    + rewrite (assign_user_proto _ _ Hnone).
      split; [intros other _; reflexivity|]. split; [|intros Hc; contradiction].
      intros _.
      assert (Hget : getUser (Some (getData st)) "__proto__" = Inherited).
      { unfold getUser. cbn [getData]. rewrite Hnone. reflexivity. }
      split; [exact Hget|]. split.
      * apply userExists_false. cbn [getData]. auto.
      * intros p. unfold verifyPassword. rewrite Hget. reflexivity.
    + rewrite (assign_user_entry _ _ _ (or_intror Hne)).
      assert (Hget : ∀ other,
                getUser (Some (mkData (<[username := mkUser (Some pass) [] [] (Some now)]>
                                         (users (getData st)))
                                 (currentUser (getData st)))) other
                = if decide (username = other)
                  then Own (mkUser (Some pass) [] [] (Some now))
                  else getUser st other)
        by (intros other; apply getUser_insert).
      split; [intros other Ho; rewrite Hget, decide_False by congruence; reflexivity|].
      split; [intros Hc; contradiction|]. intros _.
      pose proof (Hget username) as Hself. rewrite decide_True in Hself by reflexivity.
      split; [exact Hself|].
      split; [intros p; unfold verifyPassword; rewrite Hself; reflexivity|].
      split; [unfold getHighScore; rewrite Hself; reflexivity|].
      split.
      * intros Hho. apply userExists_true. split; [|eauto].
        cbn [getData users]. rewrite lookup_insert_ne by exact Hho. exact Htrap.
      * intros -> name. apply userExists_trapped.
        cbn [getData users]. rewrite lookup_insert_eq. discriminate.
Qed.

Lemma addLoginRecord_own accepted username now st user :
  getUser st username = Own user →
  addLoginRecord accepted username now st
  = Normal (saveUser accepted username
              (mkUser (password user) (take 20 (now :: loginHistory user))
                 (scores user) (createdAt user)) st).
Proof.
  intros Hu. unfold addLoginRecord, unshift_login. rewrite Hu. cbv zeta.
  rewrite kept_is_take. reflexivity.
Qed.

Lemma addLoginRecord_never_throws accepted username now st :
  addLoginRecord accepted username now st ≠ TypeError.
Proof.
  unfold addLoginRecord. destruct (getUser st username); try discriminate.
  destruct (String.eqb username "__proto__"); discriminate.
Qed.

(** X2.  [addLoginRecord] by cases.  For a user with a record it saves
    the new time followed by the old ones, cut to its first 20 entries,
    and keeps the password, the scores and the date of creation.  For a
    name of which nothing is found it makes a record with that single
    login and no password, which no password verifies.  In both cases the
    other users and the current user are untouched.  For a name that only
    finds a member of [Object.prototype] no record is made: the data is
    written back as it was, except for [__proto__], where the list is put
    on [Object.prototype] itself.  A refused write changes nothing. *)
Theorem addLoginRecord_prepends_and_caps username now st :
  (∀ user, getUser st username = Own user →
     let kept := take 20 (now :: loginHistory user) in
     (length kept ≤ 20)%nat ∧
     kept !! 0%nat = Some now ∧
     (∀ i, (S i < 20)%nat → kept !! S i = loginHistory user !! i) ∧
     ∃ st',
       addLoginRecord true username now st = Normal st' ∧
       getUser st' username
       = Own (mkUser (password user) kept (scores user) (createdAt user)) ∧
       (∀ other, other ≠ username → getUser st' other = getUser st other) ∧
       getCurrentUser st' = getCurrentUser st) ∧
  (getUser st username = Missing →
     ∃ st',
       addLoginRecord true username now st = Normal st' ∧
       getUser st' username = Own (mkUser None [now] [] None) ∧
       (∀ p, verifyPassword st' username p = false) ∧
       (∀ other, other ≠ username → getUser st' other = getUser st other) ∧
       getCurrentUser st' = getCurrentUser st) ∧
  (getUser st username = Inherited →
     (username ≠ "__proto__" →
        addLoginRecord true username now st = Normal (Some (getData st))) ∧
     (username = "__proto__" →
        ∀ accepted, addLoginRecord accepted username now st = Pollutes)) ∧
  (addLoginRecord false username now st = Normal st ∨
   addLoginRecord false username now st = Pollutes).
Proof.
  split; [|split; [|split]].
  - intros user Hu kept.
    destruct (take_20_cons now (loginHistory user)) as (Hlen & Hfirst & Hrest).
    split; [exact Hlen|]. split; [exact Hfirst|]. split; [exact Hrest|].
    rewrite (addLoginRecord_own _ _ _ _ _ Hu).
    eexists. split; [reflexivity|].
    rewrite saveUser_entry
      by (left; apply getUser_own in Hu; rewrite Hu; discriminate).
    split; [rewrite getUser_insert, decide_True by reflexivity; reflexivity|].
    split; [|reflexivity].
    intros other Ho. rewrite getUser_insert, decide_False by congruence. reflexivity.
  - intros Hu. unfold addLoginRecord. rewrite Hu.
    eexists. split; [reflexivity|].
    rewrite saveUser_entry by (right; exact (getUser_missing_not_proto _ _ Hu)).
    assert (Hself : getUser
                      (Some (mkData (<[username := mkUser None (unshift_login now []) [] None]>
                                       (users (getData st))) (currentUser (getData st))))
                      username
                    = Own (mkUser None [now] [] None))
      by (rewrite getUser_insert, decide_True by reflexivity; reflexivity).
    split; [exact Hself|].
    split; [intros p; unfold verifyPassword; rewrite Hself; reflexivity|].
    split; [|reflexivity].
    intros other Ho. rewrite getUser_insert, decide_False by congruence. reflexivity.
  - intros Hu. unfold addLoginRecord. rewrite Hu. split.
    + intros Hne. destruct (String.eqb_spec username "__proto__"); [contradiction|].
      reflexivity.
    + intros -> accepted. reflexivity.
  - unfold addLoginRecord. destruct (getUser st username); [left; reflexivity | | left; reflexivity].
    destruct (String.eqb username "__proto__"); [right | left]; reflexivity.
Qed.

(** *** The high score *)

Lemma foldl_max_out a b l : foldl Z.max (Z.max a b) l = Z.max a (foldl Z.max b l).
Proof.
  revert b. induction l as [|c l IH]; intros b; cbn; [reflexivity|].
  rewrite <- IH. f_equal. lia.
Qed.

Lemma math_max_cons a b l : math_max a (b :: l) = Z.max a (math_max b l).
Proof. unfold math_max. cbn. apply foldl_max_out. Qed.

Lemma math_max_spec a l :
  a ≤ math_max a l ∧ (∀ z, z ∈ l → z ≤ math_max a l) ∧ math_max a l ∈ a :: l.
Proof.
  revert a. induction l as [|b l IH]; intros a.
  - unfold math_max; cbn. split; [lia|]. split; [|left].
    intros z Hz. apply elem_of_nil in Hz. contradiction.
  - rewrite math_max_cons. destruct (IH b) as (Hb & Hl & Hin).
    split; [lia|]. split.
    + intros z Hz. apply elem_of_cons in Hz as [->|Hz]; [lia|].
      specialize (Hl z Hz). lia.
    + destruct (Z.max_spec a (math_max b l)) as [[_ ->]|[_ ->]];
        [right; exact Hin | left].
Qed.

(** X3.  The high score of a name without a record (whether nothing is
    found under it or a member of [Object.prototype]), or with no scores,
    is 0.  Otherwise it is one of the recorded scores, and none is
    higher. *)
Theorem getHighScore_is_best st username :
  (getUser st username = Missing → getHighScore st username = 0) ∧
  (getUser st username = Inherited → getHighScore st username = 0) ∧
  (∀ user, getUser st username = Own user →
     (scores user = [] → getHighScore st username = 0) ∧
     (∀ r, r ∈ scores user → score r ≤ getHighScore st username) ∧
     (scores user ≠ [] →
        ∃ r, r ∈ scores user ∧ score r = getHighScore st username)).
Proof.
  split; [|split].
  - intros H. unfold getHighScore. rewrite H. reflexivity.
  - intros H. unfold getHighScore. rewrite H. reflexivity.
  - intros user H. unfold getHighScore. rewrite H.
    destruct (scores user) as [|r0 rest]; cbn [fmap list_fmap].
    + split; [reflexivity|]. split; [|congruence].
      intros r Hr. apply elem_of_nil in Hr. contradiction.
    + destruct (math_max_spec (score r0) (score <$> rest)) as (H0 & Hl & Hin).
      split; [discriminate|]. split.
      * intros r Hr. apply elem_of_cons in Hr as [->|Hr]; [exact H0|].
        apply Hl. apply list_elem_of_fmap. eauto.
      * intros _. apply elem_of_cons in Hin as [Heq|Hin].
        -- exists r0. split; [left | symmetry; exact Heq].
        -- apply list_elem_of_fmap in Hin as (r & Hr & Hin).
           exists r. split; [right; exact Hin | symmetry; exact Hr].
Qed.

Lemma addScore_own accepted username sc now st user :
  getUser st username = Own user →
  addScore accepted username sc now st
  = Normal (saveUser accepted username
              (mkUser (password user) (loginHistory user)
                 (take 20 (mkScoreRecord sc now :: scores user)) (createdAt user)) st).
Proof.
  intros Hu. unfold addScore. rewrite Hu. cbv zeta. rewrite kept_is_take. reflexivity.
Qed.

Lemma getUser_saveUser_own username userData st old other :
  getUser st username = Own old →
  getUser (saveUser true username userData st) other
  = if decide (username = other) then Own userData else getUser st other.
Proof.
  intros Hu. rewrite saveUser_entry
    by (left; apply getUser_own in Hu; rewrite Hu; discriminate).
  apply getUser_insert.
Qed.

(** X4.  After a score is added for a user with a record (the write being
    accepted), the high score is the highest of the new score and the 19
    most recent old ones: it is at least the new score; as long as fewer
    than 20 scores were stored it is the higher of the old high score and
    the new score (for a first score, if that is not negative). *)
Theorem getHighScore_after_addScore username sc now st user :
  getUser st username = Own user →
  ∃ st',
    addScore true username sc now st = Normal st' ∧
    getHighScore st' username = math_max sc (score <$> take 19 (scores user)) ∧
    sc ≤ getHighScore st' username ∧
    ((length (scores user) < 20)%nat → scores user ≠ [] ∨ 0 ≤ sc →
       getHighScore st' username = Z.max sc (getHighScore st username)).
Proof.
  intros Hu. rewrite (addScore_own _ _ _ _ _ _ Hu). eexists. split; [reflexivity|].
  set (st' := saveUser true username _ st).
  assert (Hhigh : getHighScore st' username
                  = math_max sc (score <$> take 19 (scores user))).
  { unfold getHighScore. subst st'. rewrite (getUser_saveUser_own _ _ _ _ _ Hu).
    rewrite decide_True by reflexivity. reflexivity. }
  split; [exact Hhigh|]. split.
  - rewrite Hhigh.
    destruct (math_max_spec sc (score <$> take 19 (scores user))) as (H & _). exact H.
  - intros Hlen Hfirst. rewrite Hhigh. rewrite take_ge by lia.
    unfold getHighScore at 1. rewrite Hu.
    destruct (scores user) as [|r0 rest]; cbn [fmap list_fmap].
    + unfold math_max; cbn. destruct Hfirst as [Hne|Hsc]; [congruence | lia].
    + apply math_max_cons.
Qed.

(** *** The caps *)

Lemma capped_assign username userData data :
  capped (Some data) →
  (length (scores userData) ≤ 20)%nat → (length (loginHistory userData) ≤ 20)%nat →
  capped (Some (assign_user username userData data)).
Proof.
  intros Hc Hs Hl.
  assert (Hins : capped (Some (mkData (<[username := userData]> (users data))
                                 (currentUser data)))).
  { intros name u Hu. cbn [getData users] in Hu.
    destruct (decide (username = name)) as [->|Hne].
    - rewrite lookup_insert_eq in Hu. injection Hu as <-. split; assumption.
    - rewrite lookup_insert_ne in Hu by exact Hne. exact (Hc name u Hu). }
  unfold assign_user. destruct (users data !! username); [exact Hins|].
  destruct (String.eqb username "__proto__"); [exact Hc | exact Hins].
Qed.

Lemma capped_getData st : capped st → capped (Some (getData st)).
Proof. intros Hc. exact Hc. Qed.

Lemma capped_saveUser accepted username userData st :
  capped st →
  (length (scores userData) ≤ 20)%nat → (length (loginHistory userData) ≤ 20)%nat →
  capped (saveUser accepted username userData st).
Proof.
  intros Hc Hs Hl. destruct accepted; [|exact Hc].
  unfold saveUser, saveData. apply capped_assign; [apply capped_getData, Hc | |]; assumption.
Qed.

Lemma capped_setCurrentUser accepted username st :
  capped st → capped (setCurrentUser accepted username st).
Proof.
  intros Hc. destruct accepted; [|exact Hc]. exact Hc.
Qed.

Lemma capped_registerUser accepted username pass now st r :
  capped st → registerUser accepted username pass now st = Normal r → capped r.2.
Proof.
  intros Hc. unfold registerUser.
  destruct (userExists st username) as [[|]| |]; cbn [bind]; try discriminate.
  - intros H. injection H as <-. exact Hc.
  - intros H. injection H as <-. cbn [snd]. destruct accepted; [|exact Hc].
    apply capped_assign; [apply capped_getData, Hc | |]; cbn; lia.
Qed.

Lemma capped_record_of st username user :
  capped st → getUser st username = Own user →
  (length (scores user) ≤ 20)%nat ∧ (length (loginHistory user) ≤ 20)%nat.
Proof. intros Hc Hu. apply getUser_own in Hu. exact (Hc _ _ Hu). Qed.

Lemma capped_addLoginRecord accepted username now st st' :
  capped st → addLoginRecord accepted username now st = Normal st' → capped st'.
Proof.
  intros Hc. destruct (getUser st username) as [user| |] eqn:Hu.
  - rewrite (addLoginRecord_own _ _ _ _ _ Hu). intros H.
    assert (Hst : st' = saveUser accepted username
                          (mkUser (password user) (take 20 (now :: loginHistory user))
                             (scores user) (createdAt user)) st) by congruence.
    rewrite Hst. destruct (capped_record_of _ _ _ Hc Hu) as [Hs _].
    apply capped_saveUser; [exact Hc | exact Hs |].
    cbn [loginHistory]. rewrite length_take. lia.
  - unfold addLoginRecord. rewrite Hu.
    destruct (String.eqb username "__proto__"); [discriminate|].
    intros H. assert (Hst : st' = saveData accepted (getData st) st) by congruence.
    rewrite Hst. destruct accepted; exact Hc.
  - unfold addLoginRecord. rewrite Hu. intros H.
    assert (Hst : st' = saveUser accepted username
                          (mkUser None (unshift_login now []) [] None) st) by congruence.
    rewrite Hst. apply capped_saveUser; [exact Hc | |]; cbn; lia.
Qed.

Lemma capped_addScore accepted username sc now st st' :
  capped st → addScore accepted username sc now st = Normal st' → capped st'.
Proof.
  intros Hc. destruct (getUser st username) as [user| |] eqn:Hu.
  - rewrite (addScore_own _ _ _ _ _ _ Hu). intros H.
    assert (Hst : st' = saveUser accepted username
                          (mkUser (password user) (loginHistory user)
                             (take 20 (mkScoreRecord sc now :: scores user))
                             (createdAt user)) st) by congruence.
    rewrite Hst. destruct (capped_record_of _ _ _ Hc Hu) as [_ Hl].
    apply capped_saveUser; [exact Hc | | exact Hl].
    cbn [scores]. rewrite length_take. lia.
  - unfold addScore. rewrite Hu. discriminate.
  - unfold addScore. rewrite Hu. intros H. assert (Hst : st' = st) by congruence.
    rewrite Hst. exact Hc.
Qed.

End StoreProperties.
(** ** Sessions *)

Section SessionProperties.

Import DataStore UserManager.

Variable trim : string → string.
Variable js_length : string → nat.

Lemma verifyPassword_own st username p :
  verifyPassword st username p = true → ∃ user, getUser st username = Own user.
Proof.
  unfold verifyPassword. destruct (getUser st username); [eauto | discriminate ..].
Qed.

Lemma verifyPassword_no_record st username p :
  users (getData st) !! username = None → verifyPassword st username p = false.
Proof.
  intros H. unfold verifyPassword.
  apply getUser_not_own in H as [-> | ->]; reflexivity.
Qed.

Lemma getUser_setCurrentUser accepted username st other :
  getUser (setCurrentUser accepted username st) other = getUser st other.
Proof. unfold getUser, setCurrentUser, saveData. destruct accepted; reflexivity. Qed.

Lemma users_setCurrentUser accepted username st :
  users (getData (setCurrentUser accepted username st)) = users (getData st).
Proof. unfold setCurrentUser, saveData. destruct accepted; reflexivity. Qed.

(** What [login] does, case by case. *)
Lemma login_cases a1 a2 username pass now ss :
  (blank trim username = true ∧
   login trim a1 a2 username pass now ss = Normal (mkResult false EnterUsername, ss)) ∨
  (blank trim username = false ∧ blank trim pass = true ∧
   login trim a1 a2 username pass now ss = Normal (mkResult false EnterPassword, ss)) ∨
  (blank trim username = false ∧ blank trim pass = false ∧
   users (getData (storage ss)) !! "hasOwnProperty" ≠ None ∧
   login trim a1 a2 username pass now ss = TypeError) ∨
  (blank trim username = false ∧ blank trim pass = false ∧
   users (getData (storage ss)) !! "hasOwnProperty" = None ∧
   users (getData (storage ss)) !! trim username = None ∧
   login trim a1 a2 username pass now ss = Normal (mkResult false UnknownUser, ss)) ∨
  (blank trim username = false ∧ blank trim pass = false ∧
   users (getData (storage ss)) !! "hasOwnProperty" = None ∧
   users (getData (storage ss)) !! trim username ≠ None ∧
   verifyPassword (storage ss) (trim username) pass = false ∧
   login trim a1 a2 username pass now ss = Normal (mkResult false WrongPassword, ss)) ∨
  (blank trim username = false ∧ blank trim pass = false ∧
   users (getData (storage ss)) !! "hasOwnProperty" = None ∧
   verifyPassword (storage ss) (trim username) pass = true ∧
   ∃ user,
     getUser (storage ss) (trim username) = Own user ∧
     login trim a1 a2 username pass now ss
     = Normal (mkResult true LoginOk,
               mkSession
                 (saveUser a2 (trim username)
                    (mkUser (password user) (take 20 (now :: loginHistory user))
                       (scores user) (createdAt user))
                    (setCurrentUser a1 (Some (trim username)) (storage ss)))
                 false)).
Proof.
  unfold login.
  destruct (blank trim username); [left; auto|]. right.
  destruct (blank trim pass); [left; auto|]. right.
  cbv zeta. unfold userExists.
  destruct (users (getData (storage ss)) !! "hasOwnProperty") as [t|] eqn:Htrap;
    [left; repeat split; discriminate|]. right.
  destruct (users (getData (storage ss)) !! trim username) as [user|] eqn:Hu;
    cbn [bind negb]; [|left; auto 10]. right.
  destruct (verifyPassword (storage ss) (trim username) pass) eqn:Hv; cbn [negb];
    [|left; repeat split; discriminate]. right.
  repeat (split; [reflexivity|]).
  assert (Hown : getUser (storage ss) (trim username) = Own user)
    by (apply getUser_own; exact Hu).
  exists user. split; [exact Hown|].
  rewrite (addLoginRecord_own a2 (trim username) now _ user)
    by (rewrite getUser_setCurrentUser; exact Hown).
  reflexivity.
Qed.

Lemma login_never_pollutes a1 a2 username pass now ss :
  login trim a1 a2 username pass now ss ≠ Pollutes.
Proof.
  destruct (login_cases a1 a2 username pass now ss)
    as [(_ & ->)|[(_ & _ & ->)|[(_ & _ & _ & ->)|[(_ & _ & _ & _ & ->)
        |[(_ & _ & _ & _ & _ & ->)|(_ & _ & _ & _ & user & _ & ->)]]]]];
    discriminate.
Qed.

(** X5.  [login] throws exactly when both fields are filled in and a user
    named [hasOwnProperty] is stored; it never writes to
    [Object.prototype].  It succeeds exactly when neither field is blank,
    no such user is stored, and the password verifies for the trimmed name
    (whether or not the browser takes the writes).  When it returns a
    failure the session is as before.  When it succeeds and the writes
    are accepted, the trimmed name is the current user, the session is
    not a guest's, and the user's record has the new login in front of
    the old ones, cut to 20, with everything else kept. *)
Theorem login_checks_and_records accepted1 accepted2 username pass now ss :
  (login trim accepted1 accepted2 username pass now ss = TypeError ↔
     blank trim username = false ∧ blank trim pass = false ∧
     users (getData (storage ss)) !! "hasOwnProperty" ≠ None) ∧
  login trim accepted1 accepted2 username pass now ss ≠ Pollutes ∧
  ((∃ ss', login trim accepted1 accepted2 username pass now ss
           = Normal (mkResult true LoginOk, ss')) ↔
     blank trim username = false ∧ blank trim pass = false ∧
     users (getData (storage ss)) !! "hasOwnProperty" = None ∧
     verifyPassword (storage ss) (trim username) pass = true) ∧
  (∀ r ss', login trim accepted1 accepted2 username pass now ss = Normal (r, ss') →
     (success r = true → r = mkResult true LoginOk) ∧
     (success r = false → ss' = ss)) ∧
  (∀ ss', login trim true true username pass now ss
          = Normal (mkResult true LoginOk, ss') →
     getCurrentUsername ss' = Some (trim username) ∧
     isLoggedIn ss' = true ∧ isGuest ss' = false ∧
     ∃ user, getUser (storage ss) (trim username) = Own user ∧
       getUser (storage ss') (trim username)
       = Own (mkUser (password user) (take 20 (now :: loginHistory user))
                (scores user) (createdAt user))).
Proof.
  split; [|split; [apply login_never_pollutes|split; [|split]]].
  - destruct (login_cases accepted1 accepted2 username pass now ss)
      as [(Hb & ->)|[(_ & Hb & ->)|[(Hu & Hp & Ht & ->)|[(_ & _ & Ht & _ & ->)
          |[(_ & _ & Ht & _ & _ & ->)|(_ & _ & Ht & _ & user & _ & ->)]]]]];
      split; try discriminate; try (intros (? & ? & ?); congruence); auto.
  - destruct (login_cases accepted1 accepted2 username pass now ss)
      as [(Hb & ->)|[(_ & Hb & ->)|[(Hu & Hp & Ht & ->)|[(_ & _ & Ht & Hn & ->)
          |[(_ & _ & Ht & _ & Hv & ->)|(Hu & Hp & Ht & Hv & user & _ & ->)]]]]];
      split; try (intros (? & ?); discriminate);
      try (intros (? & ? & ? & ?); congruence); eauto.
    intros (_ & _ & _ & Hv). rewrite (verifyPassword_no_record _ _ _ Hn) in Hv.
    discriminate.
  - intros r ss' Hl.
    destruct (login_cases accepted1 accepted2 username pass now ss)
      as [(Hb & H)|[(_ & Hb & H)|[(Hu & Hp & Ht & H)|[(_ & _ & Ht & Hn & H)
          |[(_ & _ & Ht & _ & Hv & H)|(Hu & Hp & Ht & Hv & user & _ & H)]]]]];
      rewrite H in Hl; try discriminate; apply Normal_pair_inj in Hl as [<- <-];
      split; try discriminate; reflexivity.
  - intros ss' Hl.
    destruct (login_cases true true username pass now ss)
      as [(Hb & H)|[(_ & Hb & H)|[(Hu & Hp & Ht & H)|[(_ & _ & Ht & Hn & H)
          |[(_ & _ & Ht & _ & Hv & H)|(Hu & Hp & Ht & Hv & user & Hown & H)]]]]];
      rewrite H in Hl; try discriminate. apply Normal_pair_inj in Hl as [_ <-].
    unfold getCurrentUsername, isLoggedIn. cbn [storage isGuest].
    rewrite getCurrentUser_saveUser.
    split; [reflexivity|]. split; [reflexivity|]. split; [reflexivity|].
    exists user. split; [exact Hown|].
    rewrite (getUser_saveUser_own _ _ _ user)
      by (rewrite getUser_setCurrentUser; exact Hown).
    rewrite decide_True by reflexivity. reflexivity.
Qed.

(** What [register] does, case by case. *)
Lemma register_cases accepted username pass confirm now ss :
  let checks :=
    blank trim username = false ∧ blank trim pass = false ∧
    (4 ≤ js_length pass)%nat ∧ pass = confirm in
  (¬ checks ∧
   ∃ m, register trim js_length accepted username pass confirm now ss
        = Normal (mkResult false m, ss)) ∨
  (checks ∧ users (getData (storage ss)) !! "hasOwnProperty" ≠ None ∧
   register trim js_length accepted username pass confirm now ss = TypeError) ∨
  (checks ∧ userExists (storage ss) (trim username) = Normal true ∧
   register trim js_length accepted username pass confirm now ss
   = Normal (mkResult false NameTaken, ss)) ∨
  (checks ∧ userExists (storage ss) (trim username) = Normal false ∧
   register trim js_length accepted username pass confirm now ss
   = Normal (mkResult true RegisterOk,
             mkSession
               (saveData accepted
                  (assign_user (trim username) (mkUser (Some pass) [] [] (Some now))
                     (getData (storage ss)))
                  (storage ss))
               (isGuest ss))).
Proof.
  intros checks. subst checks. unfold register.
  destruct (blank trim username);
    [left; split; [intros (? & _); discriminate | eauto]|].
  destruct (blank trim pass);
    [left; split; [intros (_ & ? & _); discriminate | eauto]|].
  destruct (Nat.ltb_spec (js_length pass) 4);
    [left; split; [intros (_ & _ & ? & _); lia | eauto]|].
  destruct (String.eqb_spec pass confirm) as [Heq|Hne]; cbn [negb];
    [|left; split; [intros (_ & _ & _ & ?); contradiction | eauto]].
  right. cbv zeta.
  destruct (userExists (storage ss) (trim username)) as [[|]| |] eqn:Hex; cbn [bind].
  - right; left. auto 10.
  - right; right. unfold registerUser. rewrite Hex. cbn [bind fst snd]. auto 10.
  - left. split; [auto|]. split; [|reflexivity].
    unfold userExists in Hex.
    destruct (users (getData (storage ss)) !! "hasOwnProperty"); discriminate.
  - exfalso. exact (userExists_never_pollutes _ _ Hex).
Qed.

Lemma register_never_pollutes accepted username pass confirm now ss :
  register trim js_length accepted username pass confirm now ss ≠ Pollutes.
Proof.
  destruct (register_cases accepted username pass confirm now ss)
    as [(_ & m & ->)|[(_ & _ & ->)|[(_ & _ & ->)|(_ & _ & ->)]]]; discriminate.
Qed.

Lemma getUser_assign_kept username userData st name user :
  users (getData st) !! username = None →
  getUser st name = Own user →
  getUser (Some (assign_user username userData (getData st))) name = Own user.
Proof.
  intros Hnone Hu. unfold assign_user. rewrite Hnone.
  destruct (String.eqb username "__proto__"); [exact Hu|].
  rewrite getUser_insert. destruct (decide (username = name)) as [->|]; [|exact Hu].
  apply getUser_own in Hu. congruence.
Qed.

(** X6.  [register] throws exactly when the four checks of the form pass
    (neither field blank, a password of at least 4 characters that equals
    its confirmation) and a user named [hasOwnProperty] is stored.  It
    succeeds exactly when the checks pass and [userExists] answers [false]
    for the trimmed name (whether or not the browser takes the write).
    When it returns a failure the session is as before.  In no case does
    it change the record of a user who has one, the current user or the
    guest flag. *)
Theorem register_checks_and_keeps accepted username pass confirm now ss :
  (register trim js_length accepted username pass confirm now ss = TypeError ↔
     blank trim username = false ∧ blank trim pass = false ∧
     (4 ≤ js_length pass)%nat ∧ pass = confirm ∧
     users (getData (storage ss)) !! "hasOwnProperty" ≠ None) ∧
  register trim js_length accepted username pass confirm now ss ≠ Pollutes ∧
  ((∃ ss', register trim js_length accepted username pass confirm now ss
           = Normal (mkResult true RegisterOk, ss')) ↔
     blank trim username = false ∧ blank trim pass = false ∧
     (4 ≤ js_length pass)%nat ∧ pass = confirm ∧
     userExists (storage ss) (trim username) = Normal false) ∧
  (∀ r ss', register trim js_length accepted username pass confirm now ss
            = Normal (r, ss') →
     (success r = true → r = mkResult true RegisterOk) ∧
     (success r = false → ss' = ss) ∧
     (∀ name user, getUser (storage ss) name = Own user →
        getUser (storage ss') name = Own user) ∧
     getCurrentUsername ss' = getCurrentUsername ss ∧
     isGuest ss' = isGuest ss).
Proof.
  split; [|split; [apply register_never_pollutes|split]].
  - destruct (register_cases accepted username pass confirm now ss)
      as [(Hn & m & ->)|[(Hc & Ht & ->)|[(Hc & Hex & ->)|(Hc & Hex & ->)]]].
    + split; [discriminate|]. intros (? & ? & ? & ? & _). exfalso. apply Hn. auto.
    + split; [|reflexivity]. intros _. destruct Hc as (? & ? & ? & ?). auto 10.
    + split; [discriminate|]. intros (_ & _ & _ & _ & Ht).
      rewrite (userExists_trapped _ _ Ht) in Hex. discriminate.
    + split; [discriminate|]. intros (_ & _ & _ & _ & Ht).
      rewrite (userExists_trapped _ _ Ht) in Hex. discriminate.
  - destruct (register_cases accepted username pass confirm now ss)
      as [(Hn & m & ->)|[(Hc & Ht & ->)|[(Hc & Hex & ->)|(Hc & Hex & ->)]]].
    + split; [intros (? & ?); discriminate|].
      intros (? & ? & ? & ? & _). exfalso. apply Hn. auto.
    + split; [intros (? & ?); discriminate|]. intros (_ & _ & _ & _ & Hex).
      rewrite (userExists_trapped _ _ Ht) in Hex. discriminate.
    + split; [intros (? & ?); discriminate|]. intros (_ & _ & _ & _ & Hex2). congruence.
    + split; [|eauto]. intros _. destruct Hc as (? & ? & ? & ?). auto 10.
  - intros r ss' Hr.
    destruct (register_cases accepted username pass confirm now ss)
      as [(Hn & m & H)|[(Hc & Ht & H)|[(Hc & Hex & H)|(Hc & Hex & H)]]];
      rewrite H in Hr; try discriminate; apply Normal_pair_inj in Hr as [<- <-];
      try (split; [discriminate|]; split; [reflexivity|]; auto).
    split; [reflexivity|]. split; [discriminate|].
    cbn [storage isGuest]. apply userExists_false in Hex as [_ Hnone].
    split; [|split; [|reflexivity]].
    + intros name user Hu. destruct accepted; [|exact Hu].
      apply getUser_assign_kept; assumption.
    + unfold getCurrentUsername, getCurrentUser. cbn [storage].
      destruct accepted; [|reflexivity]. cbn [saveData getData].
      apply currentUser_assign_user.
Qed.

(** X7.  After a registration that succeeded and was written: unless the
    trimmed name is [__proto__] or [hasOwnProperty], [login] with the same
    name and password succeeds, and with any other password that is not
    blank it fails as a wrong password.  For [__proto__] the registration
    has reported success and stored no user, and [login] answers that the
    user does not exist.  After [hasOwnProperty] has been registered,
    every [login] and every [register] whose fields pass the checks of the
    form throws. *)
Theorem register_then_login username pass confirm now ss ss' :
  register trim js_length true username pass confirm now ss
  = Normal (mkResult true RegisterOk, ss') →
  (trim username ≠ "__proto__" → trim username ≠ "hasOwnProperty" →
     (∀ accepted1 accepted2 later, ∃ ss'',
        login trim accepted1 accepted2 username pass later ss'
        = Normal (mkResult true LoginOk, ss'')) ∧
     (∀ accepted1 accepted2 other later,
        other ≠ pass → blank trim other = false →
        login trim accepted1 accepted2 username other later ss'
        = Normal (mkResult false WrongPassword, ss'))) ∧
  (trim username = "__proto__" →
     users (getData (storage ss')) = users (getData (storage ss)) ∧
     ∀ accepted1 accepted2 later,
       login trim accepted1 accepted2 username pass later ss'
       = Normal (mkResult false UnknownUser, ss')) ∧
  (trim username = "hasOwnProperty" →
     (∀ accepted1 accepted2 name other later,
        blank trim name = false → blank trim other = false →
        login trim accepted1 accepted2 name other later ss' = TypeError) ∧
     (∀ accepted name other later,
        blank trim name = false → blank trim other = false →
        (4 ≤ js_length other)%nat →
        register trim js_length accepted name other other later ss' = TypeError)).
Proof.
  intros Hreg.
  destruct (register_cases true username pass confirm now ss)
    as [(Hn & m & H)|[(Hc & Ht & H)|[(Hc & Hex & H)|(Hc & Hex & H)]]];
    rewrite H in Hreg; try discriminate. apply Normal_pair_inj in Hreg as [_ <-].
  destruct Hc as (Hbu & Hbp & Hlen & Hconf).
  pose proof Hex as Hex0. apply userExists_false in Hex as [Htrap Hnone].
  cbn [saveData storage].
  assert (Hnonempty : String.eqb pass "" = false).
  { unfold blank in Hbp. apply orb_false_iff in Hbp. apply Hbp. }
  split; [|split].
  - intros Hproto Hhop.
    rewrite (assign_user_entry _ _ _ (or_intror Hproto)).
    set (st' := Some _).
    assert (Hget : getUser st' (trim username) = Own (mkUser (Some pass) [] [] (Some now)))
      by (subst st'; rewrite getUser_insert, decide_True by reflexivity; reflexivity).
    assert (Htrap' : users (getData st') !! "hasOwnProperty" = None).
    { subst st'. cbn [getData users]. rewrite lookup_insert_ne by exact Hhop. exact Htrap. }
    assert (Hver : ∀ p, verifyPassword st' (trim username) p = String.eqb pass p).
    { intros p. unfold verifyPassword. rewrite Hget. cbn. rewrite Hnonempty. reflexivity. }
    assert (Hown : users (getData st') !! trim username ≠ None)
      by (apply getUser_own in Hget; rewrite Hget; discriminate).
    split.
    + intros a1 a2 later.
      destruct (login_cases a1 a2 username pass later (mkSession st' (isGuest ss)))
        as [(Hb & _)|[(_ & Hb & _)|[(_ & _ & Ht & _)|[(_ & _ & _ & Hno & _)
            |[(_ & _ & _ & _ & Hv & _)|(_ & _ & _ & _ & user & _ & ->)]]]]];
        cbn [storage] in *.
      * congruence.
      * congruence.
      * contradiction.
      * contradiction.
      * rewrite Hver, String.eqb_refl in Hv. discriminate.
      * eauto.
    + intros a1 a2 other later Hne Hnb.
      destruct (login_cases a1 a2 username other later (mkSession st' (isGuest ss)))
        as [(Hb & _)|[(_ & Hb & _)|[(_ & _ & Ht & _)|[(_ & _ & _ & Hno & _)
            |[(_ & _ & _ & _ & Hv & ->)|(_ & _ & _ & Hv & _)]]]]];
        cbn [storage] in *.
      * congruence.
      * congruence.
      * contradiction.
      * contradiction.
      * reflexivity.
      * rewrite Hver in Hv. apply String.eqb_eq in Hv. congruence.
  - intros Hproto. rewrite Hproto in *. rewrite (assign_user_proto _ _ Hnone).
    split; [reflexivity|]. intros a1 a2 later.
    destruct (login_cases a1 a2 username pass later
                (mkSession (Some (getData (storage ss))) (isGuest ss)))
      as [(Hb & _)|[(_ & Hb & _)|[(_ & _ & Ht & _)|[(_ & _ & _ & _ & ->)
          |[(_ & _ & _ & Hyes & _)|(_ & _ & _ & Hv & _)]]]]];
      cbn [storage getData] in *.
    + congruence.
    + congruence.
    + contradiction.
    + reflexivity.
    + rewrite Hproto in Hyes. contradiction.
    + rewrite Hproto in Hv.
      rewrite (verifyPassword_no_record (Some (getData (storage ss))) "__proto__" pass Hnone)
        in Hv. discriminate.
  - intros Hhop. rewrite Hhop in *.
    assert (Hne : "hasOwnProperty" ≠ "__proto__") by discriminate.
    rewrite (assign_user_entry _ _ _ (or_intror Hne)).
    set (st' := Some _).
    assert (Htrap' : users (getData st') !! "hasOwnProperty" ≠ None).
    { subst st'. cbn [getData users]. rewrite lookup_insert_eq. discriminate. }
    split.
    + intros a1 a2 name other later Hb1 Hb2.
      destruct (login_cases a1 a2 name other later (mkSession st' (isGuest ss)))
        as [(Hb & _)|[(_ & Hb & _)|[(_ & _ & _ & ->)|[(_ & _ & Ht & _)
            |[(_ & _ & Ht & _)|(_ & _ & Ht & _)]]]]];
        cbn [storage] in *.
      * congruence.
      * congruence.
      * reflexivity.
      * contradiction.
      * contradiction.
      * contradiction.
    + intros a name other later Hb1 Hb2 Hl.
      destruct (register_cases a name other other later (mkSession st' (isGuest ss)))
        as [(Hn & _)|[(_ & _ & ->)|[(_ & Hex & _)|(_ & Hex & _)]]];
        cbn [storage] in *.
      * exfalso. apply Hn. auto.
      * reflexivity.
      * rewrite (userExists_trapped _ _ Htrap') in Hex. discriminate.
      * rewrite (userExists_trapped _ _ Htrap') in Hex. discriminate.
Qed.

Lemma capped_login accepted1 accepted2 username pass now ss r ss' :
  capped (storage ss) →
  login trim accepted1 accepted2 username pass now ss = Normal (r, ss') →
  capped (storage ss').
Proof.
  intros Hc Hl.
  destruct (login_cases accepted1 accepted2 username pass now ss)
    as [(Hb & H)|[(_ & Hb & H)|[(Hu & Hp & Ht & H)|[(_ & _ & Ht & Hn & H)
        |[(_ & _ & Ht & _ & Hv & H)|(Hu & Hp & Ht & Hv & user & Hown & H)]]]]];
    rewrite H in Hl; try discriminate; apply Normal_pair_inj in Hl as [<- <-];
    try exact Hc.
  cbn [storage].
  destruct (capped_record_of _ _ _ Hc Hown) as [Hs _].
  apply capped_saveUser; [apply capped_setCurrentUser, Hc | exact Hs |].
  cbn [loginHistory]. rewrite length_take. lia.
Qed.

Lemma capped_register accepted username pass confirm now ss r ss' :
  capped (storage ss) →
  register trim js_length accepted username pass confirm now ss = Normal (r, ss') →
  capped (storage ss').
Proof.
  intros Hc Hr.
  destruct (register_cases accepted username pass confirm now ss)
    as [(Hn & m & H)|[(_ & Ht & H)|[(_ & Hex & H)|(_ & Hex & H)]]];
    rewrite H in Hr; try discriminate; apply Normal_pair_inj in Hr as [<- <-];
    try exact Hc.
  cbn [storage]. destruct accepted; [|exact Hc].
  apply capped_assign; [apply capped_getData, Hc | |]; cbn; lia.
Qed.

End SessionProperties.

(** ** More invariants of the engine *)

Section FoodSample.

Variable random : nat → Q.

(** The food that [generateFood] leaves is one of the samples. *)
Lemma generateFood_sample s :
  ∃ n : nat,
    generateFood random s
    = set_randomCalls (randomCalls s + 3 * n)
        (set_food (Some (nthSample random s (n - 1))) s).
Proof.
  destruct (generateFood_loop_exits random s) as (n & _ & Hrun & _).
  exists n. unfold generateFood. rewrite Hrun. reflexivity.
Qed.

End FoodSample.

Section BoardInvariants.

Variable random : nat → Q.

Local Opaque generateFood.

Lemma same_board_refl s : same_board s s.
Proof. repeat split. Qed.

Lemma same_board_trans s1 s2 s3 :
  same_board s1 s2 → same_board s2 s3 → same_board s1 s3.
Proof.
  intros (H1 & H2 & H3 & H4 & H5 & H6) (G1 & G2 & G3 & G4 & G5 & G6).
  repeat split; congruence.
Qed.

Lemma pause_board s : same_board s (pause s).
Proof.
  unfold pause. destruct (negb (isRunning s) || isPaused s); [apply same_board_refl|].
  destruct s as [? ? ? ? ? ? ? [id|] ? ? ? ? ? ? ? ?]; repeat split.
Qed.

Lemma resume_board s : same_board s (resume s).
Proof. unfold resume. destruct (negb (isPaused s)); repeat split. Qed.

Lemma stop_board s : same_board s (stop s).
Proof.
  unfold stop. destruct (truthy_handle _); [|repeat split].
  destruct s as [? ? ? ? ? ? ? [id|] ? ? ? ? ? ? ? ?]; repeat split.
Qed.

Lemma setDirection_board dir s : same_board s (setDirection dir s).
Proof.
  unfold setDirection. destruct (directions dir); [|repeat split].
  destruct (opposite _ _); repeat split.
Qed.

(** [start] either leaves the board or shows the board of [init]. *)
Lemma start_board s :
  same_board s (start random s).1 ∨ same_board (init random s).1 (start random s).1.
Proof.
  unfold start. destruct (isRunning s && negb (isPaused s)); [left; repeat split|].
  destruct (isPaused s); [left; repeat split|].
  right. destruct (init random s) as [s1 ev]. repeat split.
Qed.

(** Every action leaves the board, shows the board of [init], or is a
    tick. *)
Lemma step_board a s :
  same_board s (after (step random a s)) ∨
  same_board (init random s).1 (after (step random a s)) ∨
  (∃ id, a = TimerFires id ∧ timer_live id s = true ∧
         after (step random a s) = after (update random s)).
Proof.
  rewrite after_step. destruct a.
  - right; left. apply same_board_refl.
  - destruct (start_board s); auto.
  - left. apply pause_board.
  - left. apply resume_board.
  - left. apply stop_board.
  - left. apply setDirection_board.
  - destruct (timer_live id s) eqn:Hlive; [|left; apply same_board_refl].
    right; right. eauto.
  - left. repeat split.
  - left. repeat split.
Qed.

(** A property of the board that holds for the empty board, after [init],
    and is kept by the ticks of reachable states, holds in every reachable
    state. *)
Lemma reachable_board_invariant (P : State → Prop) :
  (∀ s s', same_board s s' → P s → P s') →
  (∀ width height, P (constructor width height)) →
  (∀ s, reachable random s → P s → P (init random s).1) →
  (∀ s, reachable random s → P s → P (after (update random s))) →
  ∀ s, reachable random s → P s.
Proof.
  intros Hsame Hnew Hinit Hupd s (w & h & Hr).
  induction Hr as [|a s Hr IH]; [apply Hnew|].
  assert (Hs : reachable random s) by (exists w, h; exact Hr).
  destruct (step_board a s) as [Hb | [Hb | (id & _ & _ & ->)]].
  - exact (Hsame _ _ Hb IH).
  - exact (Hsame _ _ Hb (Hinit s Hs IH)).
  - exact (Hupd s Hs IH).
Qed.

Lemma start_halted_board s :
  halted s → same_board (init random s).1 (start random s).1.
Proof.
  intros (Hr & Hp & _). unfold start. rewrite Hr, Hp. cbn [andb negb].
  destruct (init random s) as [s1 ev]. repeat split.
Qed.

(** The same for a property that need only hold while a game is on: in
    every reachable state the game is halted or the property holds. *)
Lemma reachable_playing_invariant (Q : State → Prop) :
  (∀ s s', same_board s s' → Q s → Q s') →
  (∀ s, Q (init random s).1) →
  (∀ s, reachable random s → Q s →
     halted (after (update random s)) ∨ Q (after (update random s))) →
  ∀ s, reachable random s → halted s ∨ Q s.
Proof.
  intros Hsame Hinit Hupd s (w & h & Hr).
  induction Hr as [|a s Hr IH]; [left; repeat split|].
  assert (Hs : reachable random s) by (exists w, h; exact Hr).
  destruct IH as [Hh | Hq].
  - assert (Hstart : a = Start ∨ a ≠ Start)
      by (destruct a; first [left; reflexivity | right; discriminate]).
    destruct Hstart as [->|Hne].
    + right. rewrite after_step. exact (Hsame _ _ (start_halted_board s Hh) (Hinit s)).
    + left. apply (halted_step random a s Hne Hh).
  - destruct (step_board a s) as [Hb | [Hb | (id & _ & _ & ->)]].
    + right. exact (Hsame _ _ Hb Hq).
    + right. exact (Hsame _ _ Hb (Hinit s)).
    + exact (Hupd s Hs Hq).
Qed.

(** *** What a tick does to the snake and to the grid *)

Lemma newHead_spec s c :
  newHead s = Some c →
  ∃ h tl, snake s = h :: tl ∧
    c = mkCell (x h + x (nextDirection s)) (y h + y (nextDirection s)).
Proof.
  unfold newHead. destruct (snake s) as [|h tl]; [discriminate|].
  intros [= <-]. eauto.
Qed.

(** A tick finds no head, or ends the game, or moves the snake. *)
Lemma update_outcome s :
  (newHead s = None ∧ snake (after (update random s)) = snake s) ∨
  (∃ c, newHead s = Some c ∧ collides s c = true ∧
        after (update random s) = stop (set_direction (nextDirection s) s)) ∨
  (∃ c, newHead s = Some c ∧ collides s c = false ∧
    (snake (after (update random s)) = c :: snake s ∨
     snake (after (update random s)) = removelast (c :: snake s))).
Proof.
  destruct (update_cases random s) as
    [[Hnh ->] | [(c & Hnh & Hc & ->) | [(c & Hnh & Hc & Hf' & ->)
      | [(c & Hnh & Hc & Hon & ->) | (c & Hnh & Hc & _ & Hon & ->)]]]]; cbv zeta.
  - left. split; [exact Hnh | reflexivity].
  - right; left. exists c. split; [exact Hnh|]. split; [exact Hc | reflexivity].
  - right; right. exists c. auto.
  - right; right. exists c. split; [exact Hnh|]. split; [exact Hc|]. left.
    match goal with |- context [eat random ?t] =>
      pose proof (eat_fields random t) as (Hsn & _);
      destruct (eat random t) as [s3 ev] end.
    cbn [fst after returns] in *.
    destruct (animate_fields s3) as (-> & _). exact Hsn.
  - right; right. exists c. split; [exact Hnh|]. split; [exact Hc|]. right.
    cbn [after returns].
    match goal with |- context [animate ?t] =>
      destruct (animate_fields t) as (-> & _) end.
    reflexivity.
Qed.

Lemma update_snake s :
  snake (after (update random s)) = snake s ∨
  ∃ c, newHead s = Some c ∧ collides s c = false ∧
    (snake (after (update random s)) = c :: snake s ∨
     snake (after (update random s)) = removelast (c :: snake s)).
Proof.
  destruct (update_outcome s) as [[_ H] | [(c & _ & _ & ->) | H]]; [auto | | auto].
  left. destruct (stop_fields (set_direction (nextDirection s) s)) as (-> & _). reflexivity.
Qed.

Lemma animate_grid s : cols (animate s) = cols s ∧ rows (animate s) = rows s.
Proof.
  unfold animate. destruct (food s); [|split; reflexivity].
  destruct (Qltb _ _); split; reflexivity.
Qed.

Lemma update_grid s :
  cols (after (update random s)) = cols s ∧ rows (after (update random s)) = rows s.
Proof.
  destruct (update_cases random s) as
    [[Hnh ->] | [(c & Hnh & Hc & ->) | [(c & Hnh & Hc & Hf' & ->)
      | [(c & Hnh & Hc & Hon & ->) | (c & Hnh & Hc & _ & Hon & ->)]]]]; cbv zeta.
  - split; reflexivity.
  - cbn [after gameOver returns].
    destruct (stop_board (set_direction (nextDirection s) s)) as (_ & _ & _ & _ & -> & ->).
    split; reflexivity.
  - split; reflexivity.
  - match goal with |- context [eat random ?t] =>
      destruct (eat_eq random t) as (n & f & _ & _ & He);
      destruct (eat random t) as [s3 ev] end.
    cbn [after returns]. destruct (animate_grid s3) as [-> ->].
    injection He as -> _. destruct (speed _ >? 60); split; reflexivity.
  - cbn [after returns].
    match goal with |- context [animate ?t] => destruct (animate_grid t) as [-> ->] end.
    split; reflexivity.
Qed.

Lemma isOnSnake_elem s c : isOnSnake s (x c) (y c) = true ↔ c ∈ snake s.
Proof.
  unfold isOnSnake. rewrite existsb_exists. split.
  - intros (seg & Hin & Heq). apply andb_true_iff in Heq as [Hx Hy].
    apply Z.eqb_eq in Hx, Hy. apply list_elem_of_In in Hin.
    destruct seg, c; cbn in *; subst. exact Hin.
  - intros Hin. exists c. split; [apply list_elem_of_In; exact Hin|].
    rewrite !Z.eqb_refl. reflexivity.
Qed.

Lemma collides_false s c :
  collides s c = false → inside s c ∧ c ∉ snake s.
Proof.
  unfold collides, outside, inside. intros H.
  apply orb_false_iff in H as [Hout Hon].
  repeat (apply orb_false_iff in Hout as [Hout ?]).
  split; [lia|]. intros Hin. apply isOnSnake_elem in Hin. congruence.
Qed.

(** *** Lists without their last element *)

Lemma removelast_take {A} (l : list A) : removelast l = take (pred (length l)) l.
Proof. apply removelast_firstn_len. Qed.

Lemma NoDup_removelast {A} (l : list A) : NoDup l → NoDup (removelast l).
Proof.
  intros H. rewrite removelast_take. eapply sublist_NoDup; [exact H | apply sublist_take].
Qed.

Lemma Forall_removelast {A} (P : A → Prop) (l : list A) :
  Forall P l → Forall P (removelast l).
Proof. intros H. rewrite removelast_take. apply Forall_take, H. Qed.

Lemma chain_removelast l : chain l → chain (removelast l).
Proof.
  induction l as [|a [|b l] IH]; intros H; [exact I | exact I |].
  destruct H as [Hab Hrest]. specialize (IH Hrest).
  change (removelast (a :: b :: l)) with (a :: removelast (b :: l)).
  destruct l as [|c l]; [exact I|].
  change (removelast (b :: c :: l)) with (b :: removelast (c :: l)) in *.
  split; assumption.
Qed.

(** *** The shape of the snake *)

Lemma unit_step_adjacent h d :
  unit_vector d → adjacent (mkCell (x h + x d) (y h + y d)) h.
Proof.
  unfold adjacent. intros [-> | [-> | [-> | ->]]]; cbn; lia.
Qed.

(** In every reachable state of the model the snake is a simple path. *)
Lemma reachable_simple_path s :
  reachable random s → NoDup (snake s) ∧ chain (snake s).
Proof.
  apply (reachable_board_invariant (λ s, NoDup (snake s) ∧ chain (snake s))).
  - intros s1 s2 (-> & _). auto.
  - intros w h. split; [constructor | exact I].
  - intros s1 _ _. destruct (init_eq random s1) as (n & f & _ & _ & ->).
    cbn [snake set_randomCalls set_food set_score set_nextDirection set_direction set_snake].
    split.
    + repeat (apply NoDup_cons; split);
        [ | | | apply NoDup_nil_2];
        rewrite ?elem_of_cons, ?elem_of_nil; intros H;
        repeat destruct H as [H|H]; try (injection H; lia); exact H.
    + cbn. unfold adjacent. cbn. split; [lia|]. split; [lia | exact I].
  - intros s1 Hs1 [Hnd Hch].
    pose proof (reachable_directions_agree random s1 Hs1) as (_ & Hunit & _).
    destruct (update_snake s1) as [-> | (c & Hnh & Hc & Hsn)]; [auto|].
    destruct (collides_false s1 c Hc) as [_ Hfresh].
    destruct (newHead_spec s1 c Hnh) as (h & tl & Hsnake & ->).
    assert (Hlong : NoDup (mkCell (x h + x (nextDirection s1)) (y h + y (nextDirection s1))
                           :: snake s1)
                    ∧ chain (mkCell (x h + x (nextDirection s1)) (y h + y (nextDirection s1))
                             :: snake s1)).
    { split; [apply NoDup_cons; auto|].
      rewrite Hsnake in Hch |- *.
      change (adjacent (mkCell (x h + x (nextDirection s1)) (y h + y (nextDirection s1))) h
              ∧ chain (h :: tl)).
      split; [apply unit_step_adjacent, Hunit | exact Hch]. }
    destruct Hsn as [-> | ->]; [exact Hlong|].
    destruct Hlong. split; [apply NoDup_removelast | apply chain_removelast]; assumption.
Qed.

(** X8.  After every run of a new game in which [setDirection] gets no
    name of a member of [Object.prototype], no cell occurs twice in the
    snake, and each cell of the snake is next to the one after it, in the
    same row or the same column. *)
Theorem snake_is_a_simple_path width height acts :
  Forall plain_input acts →
  NoDup (snake (run random acts (constructor width height)).1) ∧
  chain (snake (run random acts (constructor width height)).1).
Proof.
  intros _. apply reachable_simple_path, reachable_run.
  exists width, height. constructor.
Qed.

(** On a grid of at least 4 columns and 1 row, every cell of the snake of
    a reachable state of the model is a cell of the grid. *)
Lemma reachable_on_grid s :
  reachable random s → 4 ≤ cols s → 1 ≤ rows s → Forall (inside s) (snake s).
Proof.
  intros Hs.
  apply (reachable_board_invariant
           (λ s, 4 ≤ cols s → 1 ≤ rows s → Forall (inside s) (snake s))); [| | | |exact Hs].
  - intros s1 s2 (Hsn & _ & _ & _ & Hc & Hr) H Hcols Hrows.
    rewrite Hsn. rewrite Hc, Hr in *. specialize (H Hcols Hrows).
    eapply Forall_impl; [exact H|]. intros c. unfold inside. rewrite Hc, Hr. auto.
  - intros w h _ _. constructor.
  - intros s1 _ _. destruct (init_eq random s1) as (n & f & _ & _ & ->).
    cbn [snake cols rows set_randomCalls set_food set_score set_nextDirection
         set_direction set_snake].
    intros Hcols Hrows.
    assert (2 ≤ cols s1 / 2) by (apply Z.div_le_lower_bound; lia).
    assert (cols s1 / 2 < cols s1) by (apply Z.div_lt; lia).
    assert (0 ≤ rows s1 / 2) by (apply Z.div_pos; lia).
    assert (rows s1 / 2 < rows s1) by (apply Z.div_lt; lia).
    repeat constructor; cbn; lia.
  - intros s1 _ H. destruct (update_grid s1) as [Hc Hr]. intros Hcols Hrows.
    rewrite Hc, Hr in *. specialize (H Hcols Hrows).
    assert (Hin : ∀ l, Forall (inside s1) l → Forall (inside (after (update random s1))) l).
    { intros l Hl. eapply Forall_impl; [exact Hl|]. intros c. unfold inside.
      rewrite Hc, Hr. auto. }
    apply Hin.
    destruct (update_snake s1) as [-> | (c & Hnh & Hcol & Hsn)]; [exact H|].
    destruct (collides_false s1 c Hcol) as [Hinside _].
    destruct Hsn as [-> | ->]; [|apply Forall_removelast]; constructor; assumption.
Qed.

Lemma run_grid acts s :
  cols (run random acts s).1 = cols s ∧ rows (run random acts s).1 = rows s.
Proof.
  revert s. induction acts as [|a acts IH]; intros s; [split; reflexivity|].
  cbn [run]. destruct (IH (after (step random a s))) as [Hc Hr].
  destruct (run random acts (after (step random a s))) as [s' evs]. cbn [fst] in *.
  rewrite Hc, Hr.
  destruct (step_board a s) as [Hb | [Hb | (id & _ & _ & ->)]].
  - destruct Hb as (_ & _ & _ & _ & -> & ->). split; reflexivity.
  - destruct Hb as (_ & _ & _ & _ & -> & ->).
    destruct (init_eq random s) as (n & f & _ & _ & ->). split; reflexivity.
  - apply update_grid.
Qed.

(** X9.  On a canvas that gives the grid at least 4 columns and 1 row,
    after every run of a new game in which [setDirection] gets no name of
    a member of [Object.prototype], every cell of the snake is a cell of
    the grid. *)
Theorem snake_stays_on_grid width height acts :
  Forall plain_input acts →
  4 ≤ width / gridSize → 1 ≤ height / gridSize →
  Forall (inside (run random acts (constructor width height)).1)
    (snake (run random acts (constructor width height)).1).
Proof.
  intros _ Hw Hh. apply reachable_on_grid.
  - apply reachable_run. exists width, height. constructor.
  - rewrite (proj1 (run_grid acts _)). exact Hw.
  - rewrite (proj2 (run_grid acts _)). exact Hh.
Qed.

(** *** No exception *)

Lemma same_board_score_counts_growth s s' :
  same_board s s' → score_counts_growth s → score_counts_growth s'.
Proof.
  intros (Hsn & Hf & _ & Hsc & _). apply score_counts_growth_same; assumption.
Qed.

Lemma reachable_halted_or_playing s :
  reachable random s → halted s ∨ score_counts_growth s.
Proof.
  apply reachable_playing_invariant.
  - apply same_board_score_counts_growth.
  - apply init_score_counts_growth.
  - intros s1 _ H. right. apply update_score_counts_growth, H.
Qed.

Lemma halted_not_live id s : halted s → timer_live id s = false.
Proof. intros (_ & _ & _ & Ht). unfold timer_live. rewrite Ht. reflexivity. Qed.

(** X10.  In a reachable state no call of a method and no timer firing
    ends by an exception: when a tick runs, the snake has a head and there
    is food. *)
Theorem no_action_throws s a :
  reachable random s → threw (step random a s) = false.
Proof.
  intros Hs. destruct a; cbn [step];
    try reflexivity;
    try (destruct (init random s); reflexivity);
    try (destruct (start random s); reflexivity).
  destruct (timer_live id s) eqn:Hlive; [|reflexivity].
  destruct (reachable_halted_or_playing s Hs) as [Hh | (Hfood & Hlen & _)].
  - rewrite (halted_not_live id s Hh) in Hlive. discriminate.
  - destruct (update_cases random s) as
      [[Hnh _] | [(c & _ & _ & ->) | [(c & _ & _ & Hf' & _)
        | [(c & _ & _ & _ & ->) | (c & _ & _ & _ & _ & ->)]]]].
    + unfold newHead in Hnh. destruct (snake s); [cbn in Hlen; lia | discriminate].
    + reflexivity.
    + contradiction.
    + destruct (eat random _); reflexivity.
    + reflexivity.
Qed.

(** *** The neck *)

Lemma reachable_halted_or_neck s :
  reachable random s → halted s ∨ neck_behind s.
Proof.
  intros Hs. revert s Hs. apply reachable_playing_invariant.
  - intros s1 s2 (Hsn & _ & Hd & _) H h n rest Hs2. rewrite Hd. apply (H h n rest).
    rewrite <- Hsn. exact Hs2.
  - intros s1. destruct (init_eq random s1) as (k & f & _ & _ & ->).
    intros h n rest. cbn. intros [= <- <- _]. cbn. split; lia.
  - intros s1 Hs1 _.
    pose proof (reachable_timers_agree random s1 Hs1) as Hta.
    destruct (update_directions random s1) as [Hdir _].
    destruct (update_outcome s1) as [[Hnh Hsn] | [(c & _ & _ & ->) | (c & Hnh & _ & Hsn)]].
    + right. intros h n rest Hsn'. rewrite Hsn in Hsn'.
      unfold newHead in Hnh. rewrite Hsn' in Hnh. discriminate.
    + left. apply stop_halted. exact Hta.
    + right. intros h n rest Hsn'. rewrite Hdir.
      destruct (newHead_spec s1 c Hnh) as (h0 & tl & Hs0 & ->).
      assert (Hfront : h = mkCell (x h0 + x (nextDirection s1)) (y h0 + y (nextDirection s1))
                       ∧ n = h0).
      { destruct Hsn as [Hsn | Hsn]; rewrite Hsn, Hs0 in Hsn'.
        - injection Hsn' as <- <- _. split; reflexivity.
        - destruct tl as [|b tl]; [discriminate|].
          injection Hsn' as <- <- _. split; reflexivity. }
      destruct Hfront as [-> ->]. split; reflexivity.
Qed.

(** X11.  When a timer fires in a reachable state, the cell the head is
    about to enter is never the cell right behind the head: no input can
    make the snake run back into its own neck. *)
Theorem head_never_turns_back s id h n rest :
  reachable random s → timer_live id s = true → snake s = h :: n :: rest →
  newHead s ≠ Some n.
Proof.
  intros Hs Hlive Hsn Hnh.
  pose proof (reachable_directions_agree random s Hs) as (_ & _ & Hopp).
  destruct (reachable_halted_or_neck s Hs) as [Hh | Hneck].
  - rewrite (halted_not_live id s Hh) in Hlive. discriminate.
  - destruct (Hneck h n rest Hsn) as [Hx Hy].
    unfold newHead in Hnh. rewrite Hsn in Hnh. injection Hnh as Hnh. 
    apply (f_equal x) in Hnh as Hnx. apply (f_equal y) in Hnh as Hny. cbn in Hnx, Hny.
    unfold opposite in Hopp. apply andb_false_iff in Hopp as [H|H];
      apply Z.eqb_neq in H; lia.
Qed.

(** *** The food *)

Lemma animate_food_spec s f' :
  food (animate s) = Some f' →
  ∃ f, food s = Some f ∧
    food_x f' = food_x f ∧ food_y f' = food_y f ∧ food_type f' = food_type f ∧
    (food_scale f' = food_scale f ∨
     (Qltb (food_scale f) 1 = true ∧
      food_scale f' = min_one (food_scale f + (15 # 100))%Q)).
Proof.
  unfold animate. destruct (food s) as [f|] eqn:Hf; [|congruence].
  destruct (Qltb (food_scale f) 1) eqn:Hlt.
  - cbn. intros [= <-]. exists f. cbn. auto 10.
  - rewrite Hf. intros [= <-]. exists f. auto 10.
Qed.

(** The food after a tick is the old one, the old one grown by a step, or
    a sample grown by a step. *)
Lemma update_food s :
  food (after (update random s)) = food s ∨
  food (after (update random s)) = food (animate s) ∨
  ∃ t k, cols t = cols s ∧ rows t = rows s ∧
    food (after (update random s))
    = food (animate (set_food (Some (nthSample random t k)) t)).
Proof.
  destruct (update_cases random s) as
    [[Hnh ->] | [(c & Hnh & Hc & ->) | [(c & Hnh & Hc & Hf' & ->)
      | [(c & Hnh & Hc & Hon & ->) | (c & Hnh & Hc & _ & Hon & ->)]]]]; cbv zeta.
  - left. reflexivity.
  - left. cbn [after gameOver returns].
    destruct (stop_fields (set_direction (nextDirection s) s)) as (_ & -> & _). reflexivity.
  - left. reflexivity.
  - right; right.
    match goal with |- context [eat random ?t] =>
      destruct (eat_food random t) as (Hfd & _); set (t0 := set_score (score t + 10) t) in *;
      destruct (eat random t) as [s3 ev] end.
    cbn [fst after returns] in *.
    destruct (generateFood_sample random t0) as (n & Hg).
    exists t0, (n - 1)%nat. split; [reflexivity|]. split; [reflexivity|].
    apply animate_food. rewrite Hfd, Hg. reflexivity.
  - right; left. cbn [after returns]. apply animate_food. reflexivity.
Qed.

Lemma init_food s :
  ∃ t k, cols t = cols s ∧ rows t = rows s ∧
    food (init random s).1 = Some (nthSample random t k).
Proof.
  unfold init. cbv zeta. cbn [fst].
  match goal with |- context [generateFood random ?t] =>
    destruct (generateFood_sample random t) as (n & ->); exists t, (n - 1)%nat end.
  repeat split.
Qed.

Lemma min_one_range v : (0 <= v)%Q → (0 <= min_one v)%Q ∧ (min_one v <= 1)%Q.
Proof.
  intros Hv. unfold min_one. destruct (Qle_bool 1 v) eqn:E.
  - split; lra.
  - split; [exact Hv|]. apply Qlt_le_weak, Qnot_le_lt. intros H.
    apply Qle_bool_iff in H. congruence.
Qed.

(** X12.  In every reachable state the growth of the food is between 0
    and 1, and the factor by which [draw] scales the food image is above 0
    and at most 1: the image never spills over its cell. *)
Theorem food_growth_stays_in_range s :
  reachable random s →
  growth_in_range s ∧
  ∀ sprite, frame_food (draw s) = Some sprite →
    (0 < sprite_scale sprite)%Q ∧ (sprite_scale sprite <= 1)%Q.
Proof.
  intros Hs.
  assert (Hrange : growth_in_range s).
  { revert s Hs. apply (reachable_board_invariant growth_in_range).
    - intros s1 s2 (_ & Hf & _) H f Hf2. apply H. rewrite <- Hf. exact Hf2.
    - intros w h f. discriminate.
    - intros s1 _ _ f Hf. destruct (init_food s1) as (t & k & _ & _ & Hi).
      rewrite Hi in Hf. injection Hf as <-. cbn. split; lra.
    - intros s1 _ H.
      assert (Hanim : ∀ t, growth_in_range t → growth_in_range (animate t)).
      { intros t Ht f' Hf'. destruct (animate_food_spec t f' Hf')
          as (f & Hf & _ & _ & _ & [-> | [_ ->]]); [exact (Ht f Hf)|].
        apply min_one_range. destruct (Ht f Hf). lra. }
      intros f Hf. destruct (update_food s1) as [He | [He | (t & k & _ & _ & He)]];
        rewrite He in Hf.
      + exact (H f Hf).
      + exact (Hanim s1 H f Hf).
      + apply (Hanim (set_food (Some (nthSample random t k)) t)); [|exact Hf].
        intros f0 [= <-]. cbn. split; lra. }
  split; [exact Hrange|].
  intros sprite. unfold draw. cbn [frame_food].
  destruct (food s) as [f|] eqn:Hf; [|discriminate].
  cbn. intros [= <-]. cbn [sprite_scale draw_food].
  destruct (Hrange f Hf) as [H0 H1]. unfold or_one.
  destruct (Qeq_bool (food_scale f) 0) eqn:E; [split; lra|].
  split; [|exact H1].
  apply Qle_lteq in H0 as [Hlt | Heq]; [exact Hlt|].
  symmetry in Heq. apply Qeq_bool_iff in Heq. congruence.
Qed.

End BoardInvariants.

(** ** The food is on the grid *)

Section Doubles.

Lemma pow2_of_nonneg e : 0 <= e -> pow2 e = inject_Z (2 ^ e).
Proof. intros H. unfold pow2. destruct (Z.leb_spec 0 e); [reflexivity | lia]. Qed.

Lemma inject_Z_pos z : 0 < z -> (0 < inject_Z z)%Q.
Proof. intros H. change (inject_Z 0 < inject_Z z)%Q. rewrite <- Zlt_Qlt. exact H. Qed.

Lemma pow2_pos e : (0 < pow2 e)%Q.
Proof.
  unfold pow2. destruct (Z.leb_spec 0 e).
  - apply inject_Z_pos. apply Z.pow_pos_nonneg; lia.
  - apply Qinv_lt_0_compat. apply inject_Z_pos. apply Z.pow_pos_nonneg; lia.
Qed.

Lemma pow2_inverse a : 0 <= a -> (inject_Z (2 ^ a) * pow2 (- a) == 1)%Q.
Proof.
  intros Ha. unfold pow2. destruct (Z.leb_spec 0 (- a)).
  - assert (Hz : a = 0) by lia. subst a. reflexivity.
  - rewrite Z.opp_involutive. apply Qmult_inv_r.
    intros He. pose proof (inject_Z_pos (2 ^ a) ltac:(apply Z.pow_pos_nonneg; lia)) as Hp.
    rewrite He in Hp. inversion Hp.
Qed.

(** The e found is not too big. *)
Lemma exponent_le q : (0 < q)%Q -> (pow2 (exponent q) <= q)%Q.
Proof.
  intros Hq. unfold exponent. cbv zeta.
  set (la := Z.log2 (Qnum q)). set (lb := Z.log2 (Z.pos (Qden q))).
  destruct (Qle_bool (pow2 (la - lb)) q) eqn:Ht; [apply Qle_bool_iff; exact Ht|].
  assert (Ha : 0 < Qnum q).
  { unfold Qlt in Hq. cbn in Hq. lia. }
  assert (Hla : 2 ^ la <= Qnum q < 2 ^ (la + 1)).
  { subst la. pose proof (Z.log2_spec (Qnum q) Ha). lia. }
  assert (Hlb : 2 ^ lb <= Z.pos (Qden q) < 2 ^ (lb + 1)).
  { subst lb. pose proof (Z.log2_spec (Z.pos (Qden q)) ltac:(lia)). lia. }
  assert (Hla0 : 0 <= la) by (subst la; apply Z.log2_nonneg).
  assert (Hlb0 : 0 <= lb) by (subst lb; apply Z.log2_nonneg).
  destruct q as [a b]. cbn [Qnum Qden] in *.
  unfold pow2. destruct (Z.leb_spec 0 (la - lb - 1)) as [Hd|Hd].
  - unfold Qle. cbn [Qnum Qden inject_Z]. rewrite Z.mul_1_r.
    assert (Hpow : 2 ^ (la - lb - 1) * 2 ^ (lb + 1) = 2 ^ la)
      by (rewrite <- Z.pow_add_r by lia; f_equal; lia).
    assert (H0 : 0 < 2 ^ (la - lb - 1)) by (apply Z.pow_pos_nonneg; lia).
    nia.
  - assert (Hp : 0 < 2 ^ (- (la - lb - 1))) by (apply Z.pow_pos_nonneg; lia).
    destruct (2 ^ (- (la - lb - 1))) as [|p|p] eqn:Hpe; try lia.
    unfold Qle, Qinv. cbn [Qnum Qden inject_Z]. 
    assert (Hpow : 2 ^ la * Z.pos p = 2 ^ (lb + 1)).
    { rewrite <- Hpe. rewrite <- Z.pow_add_r by lia. f_equal. lia. }
    nia.
Qed.

Lemma Qfloor_bounds q : (inject_Z (Qfloor q) <= q)%Q /\ (q < inject_Z (Qfloor q + 1))%Q.
Proof. split; [apply Qfloor_le | apply Qlt_floor]. Qed.

Lemma round_half_even_le q N : (q <= inject_Z N)%Q -> round_half_even q <= N.
Proof.
  intros H. unfold round_half_even. cbv zeta.
  destruct (Qfloor_bounds q) as [Hf1 Hf2].
  assert (Hf : Qfloor q <= N).
  { rewrite Zle_Qle. apply (Qle_trans _ q); assumption. }
  assert (Hup : (1 # 2 <= q - inject_Z (Qfloor q))%Q -> Qfloor q + 1 <= N).
  { intros Hh. destruct (Z.eq_dec (Qfloor q) N) as [He|Hne]; [|lia].
    rewrite He in Hh. lra. }
  destruct (Qcompare_spec (q - inject_Z (Qfloor q)) (1 # 2)) as [He|Hl|Hg].
  - destruct (Z.even (Qfloor q)); [exact Hf|]. apply Hup. rewrite He. lra.
  - exact Hf.
  - apply Hup. lra.
Qed.

Lemma round_half_even_below q N :
  (q < inject_Z N - (1 # 2))%Q -> round_half_even q <= N - 1.
Proof.
  intros H. unfold round_half_even. cbv zeta.
  destruct (Qfloor_bounds q) as [Hf1 Hf2].
  assert (Hf : Qfloor q <= N - 1).
  { assert (Hlt : (inject_Z (Qfloor q) < inject_Z N)%Q) by lra.
    rewrite <- Zlt_Qlt in Hlt. lia. }
  assert (Hup : (1 # 2 <= q - inject_Z (Qfloor q))%Q -> Qfloor q + 1 <= N - 1).
  { intros Hh. destruct (Z.eq_dec (Qfloor q) (N - 1)) as [He|Hne]; [|lia].
    rewrite He in Hh. unfold Z.sub in Hh. rewrite inject_Z_plus, inject_Z_opp in Hh.
    change (inject_Z 1) with 1%Q in Hh. lra. }
  destruct (Qcompare_spec (q - inject_Z (Qfloor q)) (1 # 2)) as [He|Hl|Hg].
  - destruct (Z.even (Qfloor q)); [exact Hf|]. apply Hup. rewrite He. lra.
  - exact Hf.
  - apply Hup. lra.
Qed.

Lemma round_half_even_nonneg q : (0 <= q)%Q -> 0 <= round_half_even q.
Proof.
  intros H. unfold round_half_even. cbv zeta.
  assert (Hf : 0 <= Qfloor q).
  { change 0 with (Qfloor 0). apply Qfloor_resp_le. exact H. }
  destruct (Qcompare _ _); [destruct (Z.even _)| |]; lia.
Qed.

Lemma Qfloor_lt_Z q n : (q < inject_Z n)%Q -> Qfloor q < n.
Proof.
  intros H. rewrite Zlt_Qlt. apply (Qle_lt_trans _ q); [apply Qfloor_le | exact H].
Qed.

(** The floor of the double nearest to [r * n] is an index below [n], for
    a double [r] of [0 <= r < 1] (the greatest is [1 - 2^-53]) and an
    integer [n] that a double holds exactly. *)
Lemma floor_double_range r n :
  (0 <= r)%Q -> (r <= 1 - (1 # 9007199254740992))%Q -> 1 <= n < 2 ^ 53 ->
  0 <= Qfloor (double (r * inject_Z n)) < n.
Proof.
  intros Hr0 Hr1 Hn.
  assert (Hnpos : (0 < inject_Z n)%Q) by (apply inject_Z_pos; lia).
  set (q := (r * inject_Z n)%Q).
  assert (Hq0 : (0 <= q)%Q)
    by (apply Qmult_le_0_compat; [exact Hr0 | apply Qlt_le_weak, Hnpos]).
  assert (Hqle : (q <= (1 - (1 # 9007199254740992)) * inject_Z n)%Q)
    by (apply Qmult_le_compat_r; [exact Hr1 | apply Qlt_le_weak, Hnpos]).
  assert (Hqn : (q < inject_Z n)%Q) by lra.
  unfold double. destruct (Qcompare_spec q 0) as [Heq|Hlt|Hgt].
  - change (Qfloor 0) with 0. lia.
  - lra.
  - unfold nearest_double. cbv zeta.
    pose proof (exponent_le q Hgt) as He0. set (e0 := exponent q) in *.
    set (k := Z.log2 n).
    assert (Hk : 2 ^ k <= n < 2 ^ (k + 1))
      by (subst k; pose proof (Z.log2_spec n ltac:(lia)); lia).
    assert (Hk0 : 0 <= k) by (subst k; apply Z.log2_nonneg).
    assert (Hk52 : k < 53) by (subst k; apply Z.log2_lt_pow2; lia).
    assert (He0k : e0 <= k).
    { destruct (Z.le_gt_cases e0 k) as [H|H]; [exact H|]. exfalso.
      rewrite pow2_of_nonneg in He0 by lia.
      assert (Hlt : (inject_Z (2 ^ e0) < inject_Z n)%Q) by lra.
      rewrite <- Zlt_Qlt in Hlt.
      assert (2 ^ (k + 1) <= 2 ^ e0) by (apply Z.pow_le_mono_r; lia). lia. }
    set (e := Z.max e0 (-1022)).
    assert (Hek : e <= k) by lia.
    set (a := 52 - e). assert (Ha : 0 <= a) by lia.
    replace (e - 52) with (- a) by lia.
    rewrite (pow2_of_nonneg a Ha).
    set (sc := 2 ^ a). assert (HS : 0 < sc) by (apply Z.pow_pos_nonneg; lia).
    set (m := (q * inject_Z sc)%Q).
    assert (HSpos : (0 < inject_Z sc)%Q) by (apply inject_Z_pos; exact HS).
    assert (Hm0 : (0 <= m)%Q)
      by (apply Qmult_le_0_compat; [exact Hq0 | apply Qlt_le_weak, HSpos]).
    assert (Hmle : (m <= (1 - (1 # 9007199254740992)) * inject_Z (n * sc))%Q).
    { subst m. rewrite inject_Z_mult.
      apply (Qle_trans _ ((1 - (1 # 9007199254740992)) * inject_Z n * inject_Z sc)%Q).
      - apply Qmult_le_compat_r; [exact Hqle | apply Qlt_le_weak, HSpos].
      - rewrite Qmult_assoc. apply Qle_refl. }
    assert (HR : round_half_even m <= n * sc - 1).
    { destruct (Z.eq_dec e k) as [Heq|Hne].
      - (* the product lies in the binade of n *)
        assert (He0' : e0 = k) by lia.
        rewrite He0', pow2_of_nonneg in He0 by lia.
        assert (Hlt : (inject_Z (2 ^ k) < inject_Z n)%Q) by lra.
        rewrite <- Zlt_Qlt in Hlt.
        assert (Hpow : 2 ^ k * sc = 2 ^ 52).
        { subst sc a. rewrite <- Z.pow_add_r by lia. f_equal. lia. }
        assert (HM : 2 ^ 52 + 1 <= n * sc) by nia.
        apply round_half_even_below.
        assert (HX : (inject_Z (2 ^ 52 + 1) <= inject_Z (n * sc))%Q)
          by (rewrite <- Zle_Qle; exact HM).
        change (inject_Z (2 ^ 52 + 1)) with (4503599627370497 # 1)%Q in HX.
        set (X := inject_Z (n * sc)) in *. lra.
      - (* it lies in a binade below *)
        assert (Hpow : 2 ^ k * 2 ^ (53 - k) = 2 ^ 53)
          by (rewrite <- Z.pow_add_r by lia; f_equal; lia).
        assert (HSge : 2 ^ (53 - k) <= sc)
          by (subst sc a; apply Z.pow_le_mono_r; lia).
        assert (H0 : 0 < 2 ^ (53 - k)) by (apply Z.pow_pos_nonneg; lia).
        assert (HM : 2 ^ 53 <= n * sc) by nia.
        apply round_half_even_le.
        assert (HX : (inject_Z (2 ^ 53) <= inject_Z (n * sc))%Q)
          by (rewrite <- Zle_Qle; exact HM).
        change (inject_Z (2 ^ 53)) with (9007199254740992 # 1)%Q in HX.
        unfold Z.sub. rewrite inject_Z_plus, inject_Z_opp.
        change (inject_Z 1) with 1%Q.
        set (X := inject_Z (n * sc)) in *. lra. }
    pose proof (round_half_even_nonneg m Hm0) as HR0.
    set (R := round_half_even m) in *.
    pose proof (pow2_pos (- a)) as Hu.
    pose proof (pow2_inverse a Ha) as Hinv. fold sc in Hinv.
    set (u := pow2 (- a)) in *.
    assert (Hres0 : (0 <= inject_Z R * u)%Q).
    { apply Qmult_le_0_compat; [|apply Qlt_le_weak, Hu].
      change (inject_Z 0 <= inject_Z R)%Q. rewrite <- Zle_Qle. exact HR0. }
    assert (Hres1 : (inject_Z R * u < inject_Z n)%Q).
    { apply (Qle_lt_trans _ (inject_Z (n * sc - 1) * u)%Q).
      - apply Qmult_le_compat_r; [rewrite <- Zle_Qle; exact HR | apply Qlt_le_weak, Hu].
      - unfold Z.sub. rewrite inject_Z_plus, inject_Z_opp, inject_Z_mult.
        change (inject_Z 1) with 1%Q.
        assert (Hnu : (inject_Z n * inject_Z sc * u == inject_Z n)%Q).
        { rewrite <- Qmult_assoc, Hinv. apply Qmult_1_r. }
        assert (Hexp : ((inject_Z n * inject_Z sc + - 1) * u
                        == inject_Z n * inject_Z sc * u - u)%Q) by ring.
        rewrite Hexp, Hnu. lra. }
    split.
    + change 0 with (Qfloor 0). apply Qfloor_resp_le. exact Hres0.
    + apply Qfloor_lt_Z. exact Hres1.
Qed.

End Doubles.

Section FoodOnGrid.

Variable random : nat → Q.

(** [Math.random] answers a double from 0 up to, not including, 1: the
    greatest of them is [1 - 2^-53]. *)
Hypothesis random_unit :
  ∀ i, (0 <= random i)%Q ∧ (random i <= 1 - (1 # 9007199254740992))%Q.

Lemma floor_scaled_range r n :
  (0 <= r)%Q → (r <= 1 - (1 # 9007199254740992))%Q → 1 ≤ n < 2 ^ 53 →
  0 ≤ floor_scaled r n < n.
Proof. intros H0 H1 Hn. unfold floor_scaled. apply floor_double_range; assumption. Qed.

Lemma nthSample_well_formed s k :
  1 ≤ cols s < 2 ^ 53 → 1 ≤ rows s < 2 ^ 53 →
  inside s (mkCell (food_x (nthSample random s k)) (food_y (nthSample random s k))) ∧
  food_type (nthSample random s k) ≠ None.
Proof.
  intros Hc Hr. unfold nthSample, inside. cbv zeta. cbn [x y food_x food_y food_type].
  split; [split; apply floor_scaled_range; try apply random_unit; assumption|].
  match goal with |- context [types_at (floor_scaled ?r ?n)] =>
    pose proof (floor_scaled_range r n (proj1 (random_unit _)) (proj2 (random_unit _)))
      as Hi; set (i := floor_scaled r n) in * end.
  change (Z.of_nat (length types)) with 6 in Hi. specialize (Hi ltac:(lia)).
  unfold types_at. destruct (Z.ltb_spec i 0); [lia|].
  assert (Hcases : i = 0 ∨ i = 1 ∨ i = 2 ∨ i = 3 ∨ i = 4 ∨ i = 5) by lia.
  destruct Hcases as [-> | [-> | [-> | [-> | [-> | ->]]]]]; discriminate.
Qed.

(** X13.  When [Math.random] answers doubles from 0 up to, not
    including, 1, and the grid has at least one column and one row (and
    fewer than 2^53, so that a double holds their number), the food of
    every reachable state is a cell of the grid and has one of the six
    kinds: the double product [Math.random() * cols] never rounds up to
    [cols]. *)
Theorem food_is_on_the_grid s :
  reachable random s → 1 ≤ cols s < 2 ^ 53 → 1 ≤ rows s < 2 ^ 53 →
  food_well_formed s.
Proof.
  intros Hs.
  apply (reachable_board_invariant random
           (λ s, 1 ≤ cols s < 2 ^ 53 → 1 ≤ rows s < 2 ^ 53 → food_well_formed s));
    [| | | |exact Hs].
  - intros s1 s2 (_ & Hf & _ & _ & Hc & Hr) H Hcols Hrows f Hf2.
    rewrite Hc, Hr in *. rewrite Hf in Hf2. destruct (H Hcols Hrows f Hf2) as [Hin Ht].
    split; [|exact Ht]. unfold inside in *. rewrite Hc, Hr. exact Hin.
  - intros w h _ _ f. discriminate.
  - intros s1 _ _ Hcols Hrows f Hf.
    destruct (init_food random s1) as (t & k & Hc & Hr & Hi).
    assert (Hgrid : cols (init random s1).1 = cols s1 ∧ rows (init random s1).1 = rows s1).
    { destruct (init_eq random s1) as (n & f0 & _ & _ & ->). split; reflexivity. }
    destruct Hgrid as [Hc' Hr']. rewrite Hc', Hr' in *.
    rewrite Hi in Hf. injection Hf as <-.
    destruct (nthSample_well_formed t k) as [Hin Ht]; [lia | lia |].
    split; [|exact Ht]. unfold inside in *. rewrite Hc', Hr'. rewrite Hc, Hr in Hin. exact Hin.
  - intros s1 _ H Hcols Hrows.
    destruct (update_grid random s1) as [Hc Hr]. rewrite Hc, Hr in *.
    specialize (H Hcols Hrows).
    assert (Hanim : ∀ t, cols t = cols s1 → rows t = rows s1 →
              food_well_formed t → ∀ f, food (animate t) = Some f →
              inside (after (update random s1)) (mkCell (food_x f) (food_y f))
              ∧ food_type f ≠ None).
    { intros t Htc Htr Ht f' Hf'.
      destruct (animate_food_spec t f' Hf') as (f & Hf & -> & -> & -> & _).
      destruct (Ht f Hf) as [Hin Hty]. split; [|exact Hty].
      unfold inside in *. rewrite Hc, Hr. rewrite Htc, Htr in Hin. exact Hin. }
    intros f Hf.
    destruct (update_food random s1) as [He | [He | (t & k & Htc & Htr & He)]];
      rewrite He in Hf.
    + destruct (H f Hf) as [Hin Hty]. split; [|exact Hty].
      unfold inside in *. rewrite Hc, Hr. exact Hin.
    + exact (Hanim s1 eq_refl eq_refl H f Hf).
    + apply (Hanim (set_food (Some (nthSample random t k)) t) Htc Htr); [|exact Hf].
      intros f0 [= <-]. apply (nthSample_well_formed t k); lia.
Qed.

End FoodOnGrid.

(** ** Timers, callbacks and the head image *)

Section TimerProperties.

Variable random : nat → Q.

Local Opaque generateFood.

(** Membership in a short explicit list. *)
Local Ltac in_small_list H :=
  cbn in H;
  repeat first
    [ apply elem_of_nil in H; contradiction
    | apply elem_of_cons in H as [H|H]; [try discriminate|] ].

(** X14.  In every reachable state at most one timer is live; one is live
    exactly when the game runs unpaused, and it is the one whose handle
    [gameLoop] holds; a paused game counts as running.  However often
    [start], [pause] and [resume] are called, timers never pile up. *)
Theorem at_most_one_timer s :
  reachable random s →
  (length (timers s) ≤ 1)%nat ∧
  (timers s ≠ [] ↔ isRunning s = true ∧ isPaused s = false) ∧
  (∀ id, timer_live id s = true → gameLoop s = Some id) ∧
  (timers s = [] → gameLoop s = None) ∧
  (isPaused s = true → isRunning s = true).
Proof.
  intros Hs. destruct (reachable_timers_agree random s Hs) as (Hp & _ & Ht).
  destruct (isRunning s) eqn:Hr, (isPaused s) eqn:Hpa; cbn in Ht;
    try (destruct Ht as [Hg Htm]; rewrite Htm; cbn;
         split; [lia|]; split; [split; [congruence | intros [? ?]; congruence]|];
         split; [unfold timer_live; rewrite Htm; discriminate|];
         split; [auto | auto]).
  destruct Ht as (id & period & _ & Hg & Htm). rewrite Htm. cbn.
  split; [lia|]. split; [split; [auto | discriminate]|].
  split; [|split; [discriminate | auto]].
  intros id'. unfold timer_live. rewrite Htm. cbn. rewrite orb_false_r.
  intros H. apply Nat.eqb_eq in H. congruence.
Qed.

(** *** The period of the timer *)

Lemma period_is_speed_same s s' :
  timers s' = timers s → speed s' = speed s → period_is_speed s → period_is_speed s'.
Proof. unfold period_is_speed. intros -> ->. auto. Qed.

Lemma period_is_speed_clear handle s :
  period_is_speed s → period_is_speed (clearInterval handle s).
Proof.
  intros H. destruct handle as [id0|]; [|exact H].
  intros id period Hin. cbn in Hin. apply list_elem_of_filter in Hin as [_ Hin].
  exact (H id period Hin).
Qed.

Lemma period_is_speed_setInterval s :
  period_is_speed s → period_is_speed (setInterval (speed s) s).1.
Proof.
  intros H id period Hin. cbn in Hin. apply elem_of_app in Hin as [Hin | Hin].
  - exact (H id period Hin).
  - apply list_elem_of_singleton in Hin. injection Hin as _ ->. reflexivity.
Qed.

Lemma pause_period s : period_is_speed s → period_is_speed (pause s).
Proof.
  intros H. unfold pause. destruct (negb (isRunning s) || isPaused s); [exact H|].
  apply (period_is_speed_same (clearInterval (gameLoop s) s));
    [| | apply period_is_speed_clear, H];
    destruct s as [? ? ? ? ? ? ? [id|] ? ? ? ? ? ? ? ?]; reflexivity.
Qed.

Lemma resume_period s : period_is_speed s → period_is_speed (resume s).
Proof.
  intros H. unfold resume. destruct (negb (isPaused s)); [exact H|].
  apply (period_is_speed_same (setInterval (speed s) s).1);
    [reflexivity | reflexivity | apply period_is_speed_setInterval, H].
Qed.

Lemma stop_period s : period_is_speed s → period_is_speed (stop s).
Proof.
  intros H. unfold stop. destruct (truthy_handle _); [|exact H].
  apply (period_is_speed_same (clearInterval (gameLoop s) s));
    [| | apply period_is_speed_clear, H];
    destruct s as [? ? ? ? ? ? ? [id|] ? ? ? ? ? ? ? ?]; reflexivity.
Qed.

Lemma init_period s : period_is_speed s → period_is_speed (init random s).1.
Proof.
  intros H. destruct (init_eq random s) as (n & f & _ & _ & ->). exact H.
Qed.

Lemma start_period s : period_is_speed s → period_is_speed (start random s).1.
Proof.
  intros H. unfold start. destruct (isRunning s && negb (isPaused s)); [exact H|].
  destruct (isPaused s).
  - apply (period_is_speed_same (setInterval (speed s) s).1);
      [reflexivity | reflexivity | apply period_is_speed_setInterval, H].
  - pose proof (init_period s H) as Hi. destruct (init random s) as [s1 ev].
    cbn [fst] in Hi.
    apply (period_is_speed_same (setInterval (speed s1) s1).1);
      [reflexivity | reflexivity | apply period_is_speed_setInterval, Hi].
Qed.

Lemma animate_period s : period_is_speed s → period_is_speed (animate s).
Proof.
  unfold animate. destruct (food s); [|auto]. destruct (Qltb _ _); auto.
Qed.

Lemma eat_period s :
  timers_agree s → isRunning s && negb (isPaused s) = true →
  period_is_speed s → period_is_speed (eat random s).1.
Proof.
  intros (_ & _ & Ht) Hrun H. rewrite Hrun in Ht.
  destruct Ht as (id0 & p0 & _ & Hg & Htm).
  destruct (eat_eq random s) as (n & f & _ & _ & ->). cbv zeta.
  destruct (speed s >? 60); cbn [fst]; [|exact H].
  intros id period Hin.
  cbn [timers speed set_gameLoop set_nextTimerId set_timers set_speed] in Hin |- *.
  rewrite Hg in Hin. cbn [clearInterval timers set_timers] in Hin.
  rewrite Htm, clear_only_timer in Hin. cbn [app] in Hin.
  apply list_elem_of_singleton in Hin. injection Hin as _ ->. reflexivity.
Qed.

Lemma update_period s :
  timers_agree s → isRunning s && negb (isPaused s) = true →
  period_is_speed s → period_is_speed (after (update random s)).
Proof.
  intros Hta Hrun H.
  destruct (update_cases random s) as
    [[Hnh ->] | [(c & Hnh & Hc & ->) | [(c & Hnh & Hc & Hf' & ->)
      | [(c & Hnh & Hc & Hon & ->) | (c & Hnh & Hc & _ & Hon & ->)]]]]; cbv zeta.
  - exact H.
  - cbn [after gameOver returns]. apply stop_period. exact H.
  - exact H.
  - match goal with |- context [eat random ?t] =>
      pose proof (eat_period t Hta Hrun H) as He; destruct (eat random t) as [s3 ev] end.
    cbn [fst after returns] in *. apply animate_period, He.
  - cbn [after returns]. apply animate_period. exact H.
Qed.

Lemma step_period a s :
  a ≠ ResetSpeed → timers_agree s → period_is_speed s →
  period_is_speed (after (step random a s)).
Proof.
  intros Ha Hta H. rewrite after_step. destruct a; try congruence.
  - apply init_period, H.
  - apply start_period, H.
  - apply pause_period, H.
  - apply resume_period, H.
  - apply stop_period, H.
  - unfold setDirection. destruct (directions dir); [|exact H].
    destruct (opposite _ _); exact H.
  - destruct (timer_live id s) eqn:Hlive; [|exact H].
    apply update_period; [exact Hta | | exact H].
    eapply live_timer_running; eauto.
  - exact H.
Qed.

(** X15.  As long as nothing but the engine writes [speed] (that is,
    without the assignment [game.speed = 120] of the start button), the
    live timer always has the current [speed] as its period: after a meal
    the game really ticks at the shorter interval. *)
Theorem timer_period_is_speed width height acts :
  Forall (λ a, a ≠ ResetSpeed) acts →
  period_is_speed (run random acts (constructor width height)).1.
Proof.
  assert (Hgen : ∀ acts s, Forall (λ a, a ≠ ResetSpeed) acts →
            timers_agree s → period_is_speed s → period_is_speed (run random acts s).1).
  { clear acts. induction acts as [|a acts IH]; intros s Hall Hta H; cbn [run];
      [exact H|].
    inversion Hall as [|? ? Ha Hacts]; subst.
    specialize (IH _ Hacts (step_timers_agree random a s Hta) (step_period a s Ha Hta H)).
    destruct (run random acts (after (step random a s))). exact IH. }
  intros Hall. apply Hgen; [exact Hall | apply constructor_timers_agree|].
  intros id period Hin. cbn in Hin. apply elem_of_nil in Hin. contradiction.
Qed.

(** *** What [start] does *)

(** X16.  On a reachable game, [start] does nothing while the game runs
    unpaused; on a paused game it does what [resume] does, keeping the
    board; on any other game it shows the board of [init], emits what
    [init] emits, and leaves the game running on one timer with the current
    interval. *)
Theorem start_by_phase s :
  reachable random s →
  (isRunning s = true → isPaused s = false → start random s = (s, [])) ∧
  (isPaused s = true → start random s = (resume s, [])) ∧
  (isRunning s = false →
     same_board (init random s).1 (start random s).1 ∧
     (start random s).2 = (init random s).2 ∧
     isRunning (start random s).1 = true ∧ isPaused (start random s).1 = false ∧
     ∃ id, gameLoop (start random s).1 = Some id ∧
           timers (start random s).1 = [(id, speed s)]).
Proof.
  intros Hs. destruct (reachable_timers_agree random s Hs) as (Hp & _ & Ht).
  split; [|split].
  - intros Hr Hpa. unfold start. rewrite Hr, Hpa. reflexivity.
  - intros Hpa. pose proof (Hp Hpa) as Hr. unfold start, resume. rewrite Hr, Hpa.
    cbn [andb negb]. destruct s; cbn in *; subst; reflexivity.
  - intros Hr. assert (Hpa : isPaused s = false).
    { destruct (isPaused s); [rewrite Hp in Hr by reflexivity; discriminate | reflexivity]. }
    rewrite Hr, Hpa in Ht. cbn in Ht. destruct Ht as [Hg Htm].
    unfold start. rewrite Hr, Hpa. cbn [andb negb].
    pose proof (init_eq random s) as (n & f & _ & _ & Hi).
    destruct (init random s) as [s1 ev]. cbn [fst snd] in *. subst s1.
    cbn. rewrite Htm. split; [repeat split|]. split; [reflexivity|].
    split; [reflexivity|]. split; [exact Hpa|]. eauto.
Qed.

(** *** What a tick reports *)

Lemma update_emitted s :
  (newHead s = None ∧ emitted (update random s) = []) ∨
  (∃ c, newHead s = Some c ∧ collides s c = true ∧
        emitted (update random s)
        = if onGameOver s then [GameOver (score s)] else []) ∨
  (∃ c, newHead s = Some c ∧ collides s c = false ∧ food s = None ∧
        emitted (update random s) = []) ∨
  (∃ c frame, newHead s = Some c ∧ collides s c = false ∧ onFood s c = true ∧
        emitted (update random s)
        = (if onScoreChange s then [ScoreChanged (score s + 10)] else [])
          ++ [Drawn frame]) ∨
  (∃ c frame, newHead s = Some c ∧ collides s c = false ∧ onFood s c = false ∧
        emitted (update random s) = [Drawn frame]).
Proof.
  destruct (update_cases random s) as
    [[Hnh ->] | [(c & Hnh & Hc & ->) | [(c & Hnh & Hc & Hf' & ->)
      | [(c & Hnh & Hc & Hon & ->) | (c & Hnh & Hc & _ & Hon & ->)]]]]; cbv zeta.
  - left. auto.
  - right; left. exists c. split; [exact Hnh|]. split; [exact Hc|].
    cbn [emitted gameOver returns].
    destruct (stop_fields (set_direction (nextDirection s) s)) as (_ & _ & -> & _ & _ & _ & ->).
    reflexivity.
  - right; right; left. exists c. auto.
  - right; right; right; left.
    match goal with |- context [eat random ?t] =>
      destruct (eat_food random t) as (_ & _ & Hev); destruct (eat random t) as [s3 ev] end.
    cbn [snd emitted returns] in *. exists c, (draw s3). rewrite Hev. auto.
  - right; right; right; right. cbn [emitted returns]. eauto 10.
Qed.

(** X17.  A tick calls the game-over callback exactly when one is set and
    the new head is outside the grid or on the snake, and then with the
    score of before the tick; it calls the score callback exactly when one
    is set and the tick eats, and then with that score plus 10. *)
Theorem tick_callbacks s :
  (∀ sc, GameOver sc ∈ emitted (update random s) ↔
     onGameOver s = true ∧ sc = score s ∧
     ∃ c, newHead s = Some c ∧ collides s c = true) ∧
  (∀ sc, ScoreChanged sc ∈ emitted (update random s) ↔
     onScoreChange s = true ∧ sc = score s + 10 ∧
     ∃ c, newHead s = Some c ∧ collides s c = false ∧ onFood s c = true).
Proof.
  destruct (update_emitted s) as
    [[Hnh ->] | [(c & Hnh & Hc & ->) | [(c & Hnh & Hc & Hf & ->)
      | [(c & fr & Hnh & Hc & Hon & ->) | (c & fr & Hnh & Hc & Hon & ->)]]]].
  - split; intros sc; (split; [intros H; in_small_list H|]).
    + intros (_ & _ & c & Hc & _). congruence.
    + intros (_ & _ & c & Hc & _). congruence.
  - split; intros sc; split.
    + destruct (onGameOver s); intros H; in_small_list H.
      injection H as ->. eauto 10.
    + intros (-> & -> & _). left.
    + destruct (onGameOver s); intros H; in_small_list H.
    + intros (_ & _ & c' & Hnh' & Hc' & _). congruence.
  - split; intros sc; (split; [intros H; in_small_list H|]).
    + intros (_ & _ & c' & Hnh' & Hc'). congruence.
    + intros (_ & _ & c' & Hnh' & _ & Hon). rewrite Hnh in Hnh'. injection Hnh' as <-.
      unfold onFood in Hon. rewrite Hf in Hon. discriminate.
  - split; intros sc; split.
    + destruct (onScoreChange s); intros H; in_small_list H.
    + intros (_ & _ & c' & Hnh' & Hc'). congruence.
    + destruct (onScoreChange s); intros H; in_small_list H.
      injection H as ->. eauto 10.
    + intros (-> & -> & _). left.
  - split; intros sc; (split; [intros H; in_small_list H|]).
    + intros (_ & _ & c' & Hnh' & Hc'). congruence.
    + intros (_ & _ & c' & Hnh' & _ & Hon'). congruence.
Qed.

(** *** Input between two ticks *)

(** The direction that a call [setDirection dir] records in state [s], if
    it records one. *)
Lemma setDirection_cases dir s :
  match directions dir with
  | Some v => if opposite (direction s) v then setDirection dir s = s
              else setDirection dir s = set_nextDirection v s
  | None => setDirection dir s = s
  end.
Proof.
  unfold setDirection. destruct (directions dir) as [v|]; [|reflexivity].
  destruct (opposite (direction s) v); reflexivity.
Qed.

Lemma last_cons_is_Some {A} (w : A) (l : list A) : ∃ x, last (w :: l) = Some x.
Proof.
  revert w. induction l as [|u l IH]; intros w; [exists w; reflexivity|].
  rewrite last_cons_cons. apply IH.
Qed.

Lemma default_last_cons {A} (d v : A) (l : list A) :
  default d (last (v :: l)) = default v (last l).
Proof.
  destruct l as [|w l]; [reflexivity|].
  rewrite last_cons_cons. destruct (last_cons_is_Some w l) as [x ->]. reflexivity.
Qed.

(** X18.  Of a series of arguments given to [setDirection] between two
    ticks, none of them the name of a member of [Object.prototype], the
    last one that is a direction and is not the reverse of the applied
    direction is the one the next tick applies; if there is none, the
    pending direction stays.  Nothing else in the state changes. *)
Theorem last_accepted_input_wins dirs s :
  Forall (λ dir, inherited dir = false) dirs →
  let accepted :=
    omap (λ dir, match directions dir with
                 | Some v => if opposite (direction s) v then None else Some v
                 | None => None
                 end) dirs in
  let pending := default (nextDirection s) (last accepted) in
  foldl (λ s' dir, setDirection dir s') s dirs = set_nextDirection pending s ∧
  direction (after (update random (foldl (λ s' dir, setDirection dir s') s dirs)))
  = pending.
Proof.
  intros _. cbv zeta.
  assert (Hfold : ∀ dirs s0, direction s0 = direction s →
            foldl (λ s' dir, setDirection dir s') s0 dirs
            = set_nextDirection
                (default (nextDirection s0)
                   (last (omap (λ dir, match directions dir with
                                       | Some v => if opposite (direction s) v
                                                   then None else Some v
                                       | None => None
                                       end) dirs))) s0).
  { clear dirs. induction dirs as [|dir dirs IH]; intros s0 Hd.
    - cbn. destruct s0; reflexivity.
    - cbn [foldl omap list_omap]. pose proof (setDirection_cases dir s0) as Hc.
      rewrite Hd in Hc. destruct (directions dir) as [v|].
      + destruct (opposite (direction s) v).
        * rewrite Hc. apply IH, Hd.
        * rewrite Hc. rewrite (IH (set_nextDirection v s0) Hd).
          rewrite default_last_cons. reflexivity.
      + rewrite Hc. apply IH, Hd. }
  split; [apply Hfold; reflexivity|].
  destruct (update_directions random (foldl (λ s' dir, setDirection dir s') s dirs)) as [-> _].
  rewrite (Hfold dirs s eq_refl). reflexivity.
Qed.

(** *** The head image *)

(** X19.  After every run of a new game in which [setDirection] gets no
    name of a member of [Object.prototype], the head image, which is
    stored pointing up, is turned by [draw] so that it points in the
    applied direction. *)
Theorem head_image_points_ahead width height acts :
  Forall plain_input acts →
  rotate (head_angle (direction (run random acts (constructor width height)).1)) up
  = direction (run random acts (constructor width height)).1.
Proof.
  intros _.
  assert (Hs : reachable random (run random acts (constructor width height)).1)
    by (apply reachable_run; exists width, height; constructor).
  destruct (reachable_directions_agree random _ Hs) as (Hd & _).
  destruct Hd as [-> | [-> | [-> | ->]]]; reflexivity.
Qed.

End TimerProperties.

(** ** The page *)

Section PageProperties.

Import UIController.

Variable random : nat → Q.
Variable trim : string → string.
Variable js_length : string → nat.

Local Opaque generateFood.

(** X20.  The start button on a reachable game.  While the game runs
    unpaused it starts nothing: the state is the old one with [speed] set
    to 120 (the live timer keeps its period) and nothing is emitted.  On a
    paused game it resumes the same board, on one timer of period 120.
    On a game that is not running it begins a new one: three cells in the
    middle of the grid heading right, score 0, one timer of period 120.
    The session is never touched. *)
Theorem handleStartGame_by_phase app :
  reachable random (game app) →
  let g := game app in
  let g' := game (handleStartGame random app).1 in
  session (handleStartGame random app).1 = session app ∧
  (isRunning g = true → isPaused g = false →
     g' = set_speed 120 g ∧ (handleStartGame random app).2 = []) ∧
  (isPaused g = true →
     same_board g g' ∧ nextDirection g' = nextDirection g ∧
     (handleStartGame random app).2 = [] ∧
     isRunning g' = true ∧ isPaused g' = false ∧ speed g' = 120 ∧
     ∃ id, timers g' = [(id, 120)]) ∧
  (isRunning g = false →
     snake g' = [mkCell (cols g / 2) (rows g / 2);
                 mkCell (cols g / 2 - 1) (rows g / 2);
                 mkCell (cols g / 2 - 2) (rows g / 2)] ∧
     direction g' = mkCell 1 0 ∧ nextDirection g' = mkCell 1 0 ∧ score g' = 0 ∧
     isRunning g' = true ∧ isPaused g' = false ∧ speed g' = 120 ∧
     ∃ id, timers g' = [(id, 120)]).
Proof.
  intros Hs g g'. subst g g'.
  assert (Hs' : reachable random (set_speed 120 (game app))).
  { change (set_speed 120 (game app)) with (after (step random ResetSpeed (game app))).
    apply reachable_step, Hs. }
  destruct (reachable_timers_agree random _ Hs') as (Hp & _ & Ht).
  unfold handleStartGame. cbv zeta.
  split; [destruct (start random _); reflexivity|].
  split; [|split].
  - intros Hr Hpa. unfold start.
    change (isRunning (set_speed 120 (game app))) with (isRunning (game app)).
    change (isPaused (set_speed 120 (game app))) with (isPaused (game app)).
    rewrite Hr, Hpa. split; reflexivity.
  - intros Hpa. pose proof (Hp Hpa) as Hr. cbn in Hr, Ht.
    rewrite Hr, Hpa in Ht. cbn in Ht. destruct Ht as [_ Htm].
    unfold start. cbn [isRunning isPaused set_speed]. rewrite Hr, Hpa. cbn.
    rewrite Htm. repeat split; eauto.
  - intros Hr. assert (Hpa : isPaused (game app) = false).
    { destruct (isPaused (game app)) eqn:E; [|reflexivity].
      specialize (Hp E). cbn in Hp. congruence. }
    cbn in Ht. rewrite Hr, Hpa in Ht. cbn in Ht. destruct Ht as [_ Htm].
    unfold start. cbn [isRunning isPaused set_speed]. rewrite Hr, Hpa. cbn [andb negb].
    pose proof (init_eq random (set_speed 120 (game app))) as (n & f & _ & _ & Hi).
    destruct (SnakeGame.init random (set_speed 120 (game app))) as [s1 ev].
    cbn [fst] in Hi. subst s1. cbn. rewrite Htm. repeat split; eauto.
Qed.

Lemma pause_running g :
  isRunning g = true → isPaused g = false →
  isRunning (pause g) = true ∧ isPaused (pause g) = true ∧
  speed (pause g) = speed g ∧ nextDirection (pause g) = nextDirection g.
Proof.
  intros Hr Hpa. unfold pause. rewrite Hr, Hpa. cbn [negb orb].
  destruct g as [? ? ? ? ? ? ? [id|] ? ? ? ? ? ? ? ?]; cbn in *; auto.
Qed.

Lemma resume_paused g :
  isPaused g = true →
  isRunning (resume g) = isRunning g ∧ isPaused (resume g) = false ∧
  speed (resume g) = speed g ∧ nextDirection (resume g) = nextDirection g ∧
  timers (resume g) = timers g ++ [(nextTimerId g, speed g)].
Proof.
  intros Hpa. unfold resume. rewrite Hpa. cbn. auto.
Qed.

(** X21.  The pause button on a reachable game.  It does nothing unless
    the game is running.  On a game that runs unpaused, a first press
    pauses it (no timer is left) and a second press resumes it: the board,
    the pending direction and the speed are those of before the first
    press, and exactly one timer is live, with the speed as its period. *)
Theorem handlePauseGame_toggles app :
  reachable random (game app) →
  (isRunning (game app) = false → handlePauseGame app = app) ∧
  (isRunning (game app) = true → isPaused (game app) = false →
     let once := handlePauseGame app in
     let twice := handlePauseGame once in
     isRunning (game once) = true ∧ isPaused (game once) = true ∧
     timers (game once) = [] ∧ same_board (game app) (game once) ∧
     isRunning (game twice) = true ∧ isPaused (game twice) = false ∧
     same_board (game app) (game twice) ∧
     nextDirection (game twice) = nextDirection (game app) ∧
     speed (game twice) = speed (game app) ∧
     (∃ id, timers (game twice) = [(id, speed (game app))]) ∧
     session twice = session app).
Proof.
  intros Hs. split.
  - intros Hr. unfold handlePauseGame. rewrite Hr. reflexivity.
  - intros Hr Hpa once twice.
    pose proof (reachable_timers_agree random _ Hs) as Hta.
    destruct (pause_running _ Hr Hpa) as (Hr1 & Hp1 & Hsp1 & Hnd1).
    destruct (pause_quiet (game app) Hta) as [_ Htm1].
    assert (Honce : once = mkApp (pause (game app)) (session app)).
    { subst once. unfold handlePauseGame. rewrite Hr, Hpa. reflexivity. }
    assert (Htwice : twice = mkApp (resume (pause (game app))) (session app)).
    { subst twice. rewrite Honce. unfold handlePauseGame. cbn [game session].
      rewrite Hr1, Hp1. reflexivity. }
    rewrite Htwice, Honce. cbn [game session].
    destruct (resume_paused _ Hp1) as (Hr2 & Hp2 & Hsp2 & Hnd2 & Htm2).
    split; [exact Hr1|]. split; [exact Hp1|]. split; [exact Htm1|].
    split; [apply pause_board|]. split; [congruence|]. split; [exact Hp2|].
    split; [eapply same_board_trans; [apply pause_board | apply resume_board]|].
    split; [congruence|]. split; [congruence|]. split; [|reflexivity].
    rewrite Htm2, Htm1, Hsp1. eauto.
Qed.

(** *** The end of a game, seen from the page *)

Lemma deliver_all_guest accepted now evs app :
  UserManager.isGuest (session app) = true →
  session (foldl (λ a e, deliver accepted now e a) app evs) = session app.
Proof.
  revert app. induction evs as [|e evs IH]; intros app Hg; [reflexivity|].
  cbn [foldl]. assert (He : deliver accepted now e app = app).
  { destruct e; try reflexivity. cbn. unfold handleGameOver. rewrite Hg. reflexivity. }
  rewrite He. apply IH, Hg.
Qed.

Lemma deliver_all_game accepted now evs app :
  game (foldl (λ a e, deliver accepted now e a) app evs) = game app.
Proof.
  revert app. induction evs as [|e evs IH]; intros app; [reflexivity|].
  cbn [foldl]. rewrite IH. destruct e; try reflexivity.
  cbn. unfold handleGameOver.
  destruct (negb _); [|reflexivity].
  destruct (UserManager.getCurrentUsername _) as [u|]; [|reflexivity].
  destruct (String.eqb u ""); [reflexivity|].
  destruct (DataStore.addScore _ _ _ _ _); reflexivity.
Qed.

Lemma handleGameOver_no_record accepted now sc app name :
  UserManager.getCurrentUsername (session app) = Some name →
  DataStore.users (DataStore.getData (UserManager.storage (session app))) !! name = None →
  handleGameOver accepted now sc app = app.
Proof.
  intros Hname Hnone. unfold handleGameOver.
  destruct (negb _); [|reflexivity]. rewrite Hname.
  destruct (String.eqb name ""); [reflexivity|].
  unfold DataStore.addScore.
  apply getUser_not_own in Hnone as [-> | ->]; [reflexivity|].
  destruct app as [g [st guest]]. reflexivity.
Qed.

(** X22.  A timer firing, seen from the page.  The game makes the same
    step as in the engine.  The session changes only on a tick that ends
    the game, never for a guest, and never when the current user has no
    record (then [addScore] returns at once or throws).  When a tick ends
    the game of a user who is logged in (not as guest) and has a record,
    and the write is accepted, the user's scores become the final score,
    with the time, followed by the old ones, cut to 20; nothing else of
    the record changes. *)
Theorem timerFires_saves_final_score accepted now id app :
  game (timerFires random accepted now id app)
  = after (step random (TimerFires id) (game app)) ∧
  (UserManager.isGuest (session app) = true →
     session (timerFires random accepted now id app) = session app) ∧
  ((∀ c, newHead (game app) = Some c → collides (game app) c = false) →
     session (timerFires random accepted now id app) = session app) ∧
  (∀ name,
     UserManager.getCurrentUsername (session app) = Some name →
     DataStore.users (DataStore.getData (UserManager.storage (session app))) !! name
     = None →
     session (timerFires random accepted now id app) = session app) ∧
  (∀ c name user,
     timer_live id (game app) = true → onGameOver (game app) = true →
     newHead (game app) = Some c → collides (game app) c = true →
     UserManager.isGuest (session app) = false →
     UserManager.getCurrentUsername (session app) = Some name → name ≠ "" →
     DataStore.getUser (UserManager.storage (session app)) name = DataStore.Own user →
     DataStore.getUser
       (UserManager.storage (session (timerFires random true now id app))) name
     = DataStore.Own
         (DataStore.mkUser (DataStore.password user) (DataStore.loginHistory user)
            (take 20 (DataStore.mkScoreRecord (score (game app)) now
                      :: DataStore.scores user))
            (DataStore.createdAt user))).
Proof.
  split; [|split; [|split; [|split]]].
  - unfold timerFires, step. destruct (timer_live id (game app)); [|reflexivity].
    cbv zeta. rewrite deliver_all_game. reflexivity.
  - intros Hg. unfold timerFires. destruct (timer_live id (game app)); [|reflexivity].
    cbv zeta. rewrite deliver_all_guest; [reflexivity | exact Hg].
  - intros Hfree. unfold timerFires. destruct (timer_live id (game app)); [|reflexivity].
    cbv zeta.
    destruct (update_emitted random (game app)) as
      [[Hnh ->] | [(c & Hnh & Hc & _) | [(c & Hnh & Hc & Hf & ->)
        | [(c & fr & Hnh & Hc & Hon & ->) | (c & fr & Hnh & Hc & Hon & ->)]]]];
      try reflexivity.
    + rewrite (Hfree c Hnh) in Hc. discriminate.
    + destruct (onScoreChange (game app)); reflexivity.
  - intros name Hname Hnone. unfold timerFires.
    destruct (timer_live id (game app)); [|reflexivity]. cbv zeta.
    set (app0 := mkApp _ _).
    assert (H0 : session app0 = session app) by reflexivity.
    rewrite <- H0 in Hname, Hnone. rewrite <- H0. clear H0. clearbody app0.
    induction (emitted (update random (game app))) as [|e evs IH]; [reflexivity|].
    cbn [foldl]. assert (He : deliver accepted now e app0 = app0).
    { destruct e; try reflexivity. cbn [deliver].
      apply (handleGameOver_no_record _ _ _ _ name); assumption. }
    rewrite He. exact IH.
  - intros c name user Hlive Hcb Hnh Hc Hguest Hname Hne Huser.
    unfold timerFires. rewrite Hlive. cbv zeta.
    destruct (update_emitted random (game app)) as
      [[Hnh' _] | [(c' & Hnh' & Hc' & ->) | [(c' & Hnh' & Hc' & _)
        | [(c' & fr & Hnh' & Hc' & _) | (c' & fr & Hnh' & Hc' & _)]]]];
      try (rewrite Hnh in Hnh'; try discriminate; injection Hnh' as <-; congruence).
    rewrite Hcb. cbn [foldl deliver]. unfold handleGameOver. cbn [session game].
    rewrite Hguest, Hname. cbn [negb].
    apply String.eqb_neq in Hne. rewrite Hne.
    rewrite (addScore_own _ _ _ _ _ _ Huser). cbn [session UserManager.storage].
    rewrite (getUser_saveUser_own _ _ _ _ _ Huser), decide_True by reflexivity.
    reflexivity.
Qed.

Lemma capped_handleGameOver accepted now sc app :
  DataStore.capped (UserManager.storage (session app)) →
  DataStore.capped (UserManager.storage (session (handleGameOver accepted now sc app))).
Proof.
  intros Hc. unfold handleGameOver.
  destruct (negb _); [|exact Hc].
  destruct (UserManager.getCurrentUsername _) as [u|]; [|exact Hc].
  destruct (String.eqb u ""); [exact Hc|].
  destruct (DataStore.addScore _ _ _ _ _) as [st| |] eqn:Ha; [|exact Hc ..].
  cbn [session UserManager.storage]. exact (capped_addScore _ _ _ _ _ _ Hc Ha).
Qed.

Lemma capped_timerFires accepted now id app :
  DataStore.capped (UserManager.storage (session app)) →
  DataStore.capped
    (UserManager.storage (session (timerFires random accepted now id app))).
Proof.
  intros Hc. unfold timerFires.
  destruct (timer_live id (game app)); [|exact Hc]. cbv zeta.
  set (start_app := mkApp _ _).
  assert (Hc0 : DataStore.capped (UserManager.storage (session start_app))) by exact Hc.
  clearbody start_app.
  induction (emitted (update random (game app))) as [|e evs IH] in start_app, Hc0 |- *;
    [exact Hc0|].
  cbn [foldl]. apply IH. destruct e; try exact Hc0. apply capped_handleGameOver, Hc0.
Qed.

(** X23.  The two history lists of every stored user hold at most 20
    entries, and everything the program does to the store keeps it so:
    the operations of [DataStore], [login], [register], the guest login,
    [logout], the handler of the end of a game, and every timer firing.
    (A call that throws has written nothing.) *)
Theorem history_lists_stay_capped :
  DataStore.capped None ∧
  (∀ st, DataStore.capped st →
     (∀ accepted username,
        DataStore.capped (DataStore.setCurrentUser accepted username st)) ∧
     (∀ accepted username userData,
        (length (DataStore.scores userData) ≤ 20)%nat →
        (length (DataStore.loginHistory userData) ≤ 20)%nat →
        DataStore.capped (DataStore.saveUser accepted username userData st)) ∧
     (∀ accepted username pass now r,
        DataStore.registerUser accepted username pass now st = DataStore.Normal r →
        DataStore.capped r.2) ∧
     (∀ accepted username now st',
        DataStore.addLoginRecord accepted username now st = DataStore.Normal st' →
        DataStore.capped st') ∧
     (∀ accepted username sc now st',
        DataStore.addScore accepted username sc now st = DataStore.Normal st' →
        DataStore.capped st')) ∧
  (∀ ss, DataStore.capped (UserManager.storage ss) →
     (∀ accepted1 accepted2 username pass now r ss',
        UserManager.login trim accepted1 accepted2 username pass now ss
        = DataStore.Normal (r, ss') →
        DataStore.capped (UserManager.storage ss')) ∧
     (∀ accepted username pass confirm now r ss',
        UserManager.register trim js_length accepted username pass confirm now ss
        = DataStore.Normal (r, ss') →
        DataStore.capped (UserManager.storage ss')) ∧
     (∀ accepted,
        DataStore.capped (UserManager.storage (UserManager.loginAsGuest accepted ss))) ∧
     (∀ accepted,
        DataStore.capped (UserManager.storage (UserManager.logout accepted ss)))) ∧
  (∀ app, DataStore.capped (UserManager.storage (session app)) →
     (∀ accepted now sc,
        DataStore.capped
          (UserManager.storage (session (handleGameOver accepted now sc app)))) ∧
     (∀ accepted now id,
        DataStore.capped
          (UserManager.storage (session (timerFires random accepted now id app))))).
Proof.
  split; [|split; [|split; [|intros app Hc; split]]].
  - intros name user Hu. cbn in Hu. rewrite lookup_empty in Hu. discriminate.
  - intros st Hc.
    split; [intros; apply capped_setCurrentUser, Hc|].
    split; [intros; apply capped_saveUser; assumption|].
    split; [intros accepted username pass now r H;
            exact (capped_registerUser _ _ _ _ _ _ Hc H)|].
    split; [intros accepted username now st' H;
            exact (capped_addLoginRecord _ _ _ _ _ Hc H)|].
    intros accepted username sc now st' H. exact (capped_addScore _ _ _ _ _ _ Hc H).
  - intros ss Hc.
    split; [intros a1 a2 username pass now r ss' H;
            exact (capped_login trim _ _ _ _ _ _ _ _ Hc H)|].
    split; [intros a username pass confirm now r ss' H;
            exact (capped_register trim js_length _ _ _ _ _ _ _ _ Hc H)|].
    split; intros; apply capped_setCurrentUser, Hc.
  - intros accepted now sc. apply capped_handleGameOver, Hc.
  - intros accepted now id. apply capped_timerFires, Hc.
Qed.

(** X24.  Logging out of a reachable game (the write being accepted)
    stops it: no timer is live, so no timer firing changes anything; no
    user is logged in, the guest flag is cleared, and the stored users are
    as before. *)
Theorem handleLogout_ends_everything app :
  reachable random (game app) →
  let app' := handleLogout true app in
  halted (game app') ∧ same_board (game app) (game app') ∧
  (∀ accepted now id, timerFires random accepted now id app' = app') ∧
  UserManager.isLoggedIn (session app') = false ∧
  UserManager.isGuest (session app') = false ∧
  (∀ name, DataStore.getUser (UserManager.storage (session app')) name
           = DataStore.getUser (UserManager.storage (session app)) name).
Proof.
  intros Hs app'.
  assert (Hh : halted (game app'))
    by (apply stop_halted, (reachable_timers_agree random _ Hs)).
  split; [exact Hh|]. split; [apply stop_board|].
  split; [|repeat split].
  intros accepted now id. unfold timerFires.
  rewrite (halted_not_live id _ Hh). reflexivity.
Qed.

End PageProperties.

(** ** Runs of the page *)

Section PageRuns.

Import UIController.

Variable random : nat → Q.
Variable trim : string → string.
Variable js_length : string → nat.

Local Opaque generateFood.

(** *** The callbacks stay *)

Lemma same_callbacks_trans s1 s2 s3 :
  same_callbacks s1 s2 → same_callbacks s2 s3 → same_callbacks s1 s3.
Proof. intros [H1 H2] [H3 H4]. split; congruence. Qed.

Lemma pause_callbacks s : same_callbacks s (pause s).
Proof.
  unfold pause. destruct (negb (isRunning s) || isPaused s); [split; reflexivity|].
  destruct s as [? ? ? ? ? ? ? [id|] ? ? ? ? ? ? ? ?]; split; reflexivity.
Qed.

Lemma resume_callbacks s : same_callbacks s (resume s).
Proof. unfold resume. destruct (negb (isPaused s)); split; reflexivity. Qed.

Lemma stop_callbacks s : same_callbacks s (stop s).
Proof.
  unfold stop. destruct (truthy_handle _); [|split; reflexivity].
  destruct s as [? ? ? ? ? ? ? [id|] ? ? ? ? ? ? ? ?]; split; reflexivity.
Qed.

Lemma setDirection_callbacks dir s : same_callbacks s (setDirection dir s).
Proof.
  unfold setDirection. destruct (directions dir); [|split; reflexivity].
  destruct (opposite _ _); split; reflexivity.
Qed.

Lemma init_callbacks s : same_callbacks s (SnakeGame.init random s).1.
Proof. destruct (init_eq random s) as (n & f & _ & _ & ->). split; reflexivity. Qed.

Lemma start_callbacks s : same_callbacks s (start random s).1.
Proof.
  unfold start. destruct (isRunning s && negb (isPaused s)); [split; reflexivity|].
  destruct (isPaused s); [split; reflexivity|].
  pose proof (init_callbacks s) as Hi. destruct (SnakeGame.init random s) as [s1 ev]. exact Hi.
Qed.

Lemma animate_callbacks s : same_callbacks s (animate s).
Proof.
  unfold animate. destruct (food s) as [f|]; [|split; reflexivity].
  destruct (Qltb _ _); split; reflexivity.
Qed.

Lemma eat_callbacks s : same_callbacks s (eat random s).1.
Proof.
  destruct (eat_eq random s) as (n & f & _ & _ & ->). cbv zeta.
  destruct (speed s >? 60); split; reflexivity.
Qed.

Lemma update_callbacks s : same_callbacks s (after (update random s)).
Proof.
  destruct (update_cases random s) as
    [[Hnh ->] | [(c & Hnh & Hc & ->) | [(c & Hnh & Hc & Hf & ->)
      | [(c & Hnh & Hc & Hon & ->) | (c & Hnh & Hc & Hf & Hon & ->)]]]].
  - split; reflexivity.
  - unfold gameOver. cbn [after returns].
    exact (stop_callbacks (set_direction (nextDirection s) s)).
  - split; reflexivity.
  - match goal with |- context [eat random ?t] =>
      pose proof (eat_callbacks t) as He; destruct (eat random t) as [s3 ev] end.
    cbn [after returns fst] in *.
    eapply same_callbacks_trans; [|apply animate_callbacks]. exact He.
  - cbv zeta. cbn [after returns].
    match goal with |- context [animate ?t] =>
      eapply (same_callbacks_trans _ t); [split; reflexivity | apply animate_callbacks] end.
Qed.

Lemma handleKeyDown_is_step key s :
  handleKeyDown key s = s ∨ ∃ dir, handleKeyDown key s = setDirection dir s.
Proof.
  unfold handleKeyDown. destruct (negb (isRunning s) || isPaused s); [left; reflexivity|].
  destruct (keyMap key) as [dir|]; [right; eauto | left; reflexivity].
Qed.

Lemma mobileControlClick_is_step dir s :
  mobileControlClick dir s = s ∨ mobileControlClick dir s = setDirection dir s.
Proof. unfold mobileControlClick. destruct (accepts_input s); auto. Qed.

(** *** What each handler does to the game *)

Lemma reachable_setDirection dir s : reachable random s → reachable random (setDirection dir s).
Proof. intros Hs. exact (reachable_step random (SetDirection dir) s Hs). Qed.

Lemma reachable_init s : reachable random s → reachable random (SnakeGame.init random s).1.
Proof.
  intros Hs. pose proof (reachable_step random Init s Hs) as H.
  rewrite after_step in H. exact H.
Qed.

Lemma reachable_start s : reachable random s → reachable random (start random s).1.
Proof.
  intros Hs. pose proof (reachable_step random Start s Hs) as H.
  rewrite after_step in H. exact H.
Qed.

Lemma game_showGameSection app :
  game (showGameSection random app).1 = (SnakeGame.init random (game app)).1.
Proof. unfold showGameSection. destruct (SnakeGame.init random (game app)); reflexivity. Qed.

Lemma session_showGameSection app :
  session (showGameSection random app).1 = session app.
Proof. unfold showGameSection. destruct (SnakeGame.init random (game app)); reflexivity. Qed.

Lemma game_handleStartGame app :
  game (handleStartGame random app).1 = (start random (set_speed 120 (game app))).1.
Proof. unfold handleStartGame. destruct (start random _); reflexivity. Qed.

Lemma session_handleStartGame app :
  session (handleStartGame random app).1 = session app.
Proof. unfold handleStartGame. destruct (start random _); reflexivity. Qed.

Lemma game_timerFires accepted now id app :
  game (timerFires random accepted now id app)
  = after (step random (TimerFires id) (game app)).
Proof.
  unfold timerFires. cbn [step]. destruct (timer_live id (game app)); [|reflexivity].
  cbv zeta. rewrite deliver_all_game. reflexivity.
Qed.

(** The game after a handler is the old one, the old one after [init], or
    the old one after some action other than the setting of callbacks. *)
Lemma handle_game e app :
  let g := game app in
  let g' := game (handle random trim js_length e app) in
  g' = g ∨ g' = (SnakeGame.init random g).1 ∨
  g' = (start random (set_speed 120 g)).1 ∨
  ∃ a, (∀ b c, a ≠ SetCallbacks b c) ∧ g' = after (step random a g).
Proof.
  intros g g'. subst g g'. destruct e; cbn [handle].
  - unfold handleLogin.
    destruct (UserManager.login _ _ _ _ _ _ _) as [[result ss]| |];
      [|left; reflexivity ..].
    destruct (UserManager.success result).
    + right; left. rewrite game_showGameSection. reflexivity.
    + left. reflexivity.
  - left. unfold handleRegister.
    destruct (UserManager.register _ _ _ _ _ _ _ _) as [[result ss]| |]; reflexivity.
  - right; left. unfold handleGuestLogin. rewrite game_showGameSection. reflexivity.
  - right; right; right. exists Stop. split; [discriminate | reflexivity].
  - right; right; left. apply game_handleStartGame.
  - unfold handlePauseGame. destruct (negb _); [left; reflexivity|].
    right; right; right. destruct (isPaused (game app)).
    + exists Resume. split; [discriminate | reflexivity].
    + exists Pause. split; [discriminate | reflexivity].
  - cbn [game]. destruct (handleKeyDown_is_step key (game app)) as [-> | (dir & ->)];
      [left; reflexivity|].
    right; right; right. exists (SetDirection dir). split; [discriminate | reflexivity].
  - cbn [game]. destruct (mobileControlClick_is_step dir (game app)) as [-> | ->];
      [left; reflexivity|].
    right; right; right. exists (SetDirection dir). split; [discriminate | reflexivity].
  - right; right; right. exists (TimerFires id).
    split; [discriminate | apply game_timerFires].
Qed.

Lemma step_callbacks a s :
  (∀ b c, a ≠ SetCallbacks b c) → same_callbacks s (after (step random a s)).
Proof.
  intros Ha. rewrite after_step. destruct a.
  - apply init_callbacks.
  - apply start_callbacks.
  - apply pause_callbacks.
  - apply resume_callbacks.
  - apply stop_callbacks.
  - apply setDirection_callbacks.
  - destruct (timer_live id s); [apply update_callbacks | split; reflexivity].
  - exfalso. exact (Ha _ _ eq_refl).
  - split; reflexivity.
Qed.

Lemma handle_reachable e app :
  reachable random (game app) →
  reachable random (game (handle random trim js_length e app)).
Proof.
  intros Hs.
  destruct (handle_game e app) as [-> | [-> | [-> | (a & _ & ->)]]].
  - exact Hs.
  - apply reachable_init, Hs.
  - apply reachable_start. exact (reachable_step random ResetSpeed _ Hs).
  - apply reachable_step, Hs.
Qed.

Lemma handle_callbacks e app :
  same_callbacks (game app) (game (handle random trim js_length e app)).
Proof.
  destruct (handle_game e app) as [-> | [-> | [-> | (a & Ha & ->)]]].
  - split; reflexivity.
  - apply init_callbacks.
  - eapply same_callbacks_trans; [|apply start_callbacks]. split; reflexivity.
  - apply step_callbacks, Ha.
Qed.

Lemma reachable_initGame width height : reachable random (initGame width height).
Proof.
  unfold initGame.
  apply (reachable_step random (SetCallbacks true true) (constructor width height)).
  exists width, height. constructor.
Qed.

(** X25.  On the page, from its start ([init]) and through every series of
    clicks, keys and timer firings, the game is in a state that calls of
    the engine's methods reach from a new game, and both callbacks are
    set: the properties of reachable states hold for the game of the
    page, and every tick that ends a game reaches [handleGameOver]. *)
Theorem page_game_is_reachable width height st evs :
  let app := after_events random trim js_length evs (UIController.init random width height st).1 in
  reachable random (game app) ∧
  onScoreChange (game app) = true ∧ onGameOver (game app) = true.
Proof.
  intros app. subst app.
  assert (H0 : reachable random (game (UIController.init random width height st).1) ∧
               onScoreChange (game (UIController.init random width height st).1) = true ∧
               onGameOver (game (UIController.init random width height st).1) = true).
  { unfold UIController.init, checkLoginStatus. destruct (UserManager.isLoggedIn _).
    - rewrite game_showGameSection. cbn [game].
      split; [apply reachable_init, reachable_initGame|].
      destruct (init_callbacks (initGame width height)) as [-> ->].
      split; reflexivity.
    - cbn [fst game]. split; [apply reachable_initGame | split; reflexivity]. }
  unfold after_events. revert H0. generalize (UIController.init random width height st).1.
  induction evs as [|e evs IH]; intros app H0; [exact H0|].
  cbn [foldl]. apply IH. destruct H0 as (Hs & Hsc & Hov).
  split; [apply handle_reachable, Hs|].
  destruct (handle_callbacks e app) as [-> ->]. split; assumption.
Qed.

(** *** The accounts stay *)

Lemma keeps_accounts_refl st : DataStore.keeps_accounts st st.
Proof. intros name user Hu. eauto. Qed.

Lemma keeps_accounts_trans st1 st2 st3 :
  DataStore.keeps_accounts st1 st2 → DataStore.keeps_accounts st2 st3 →
  DataStore.keeps_accounts st1 st3.
Proof.
  intros H1 H2 name user Hu.
  destruct (H1 name user Hu) as (u2 & Hu2 & Hp2 & Hc2).
  destruct (H2 name u2 Hu2) as (u3 & Hu3 & Hp3 & Hc3).
  exists u3. split; [exact Hu3|]. split; congruence.
Qed.

Lemma keeps_accounts_setCurrentUser accepted username st :
  DataStore.keeps_accounts st (DataStore.setCurrentUser accepted username st).
Proof.
  intros name user Hu. exists user. rewrite getUser_setCurrentUser. auto.
Qed.

Lemma keeps_accounts_same_users st st' :
  DataStore.users (DataStore.getData st') = DataStore.users (DataStore.getData st) →
  DataStore.keeps_accounts st st'.
Proof.
  intros H name user Hu. exists user.
  rewrite (getUser_same_users _ _ _ H). auto.
Qed.

Lemma keeps_accounts_assign username userData st :
  (∀ user, DataStore.getUser st username = DataStore.Own user →
     DataStore.password userData = DataStore.password user ∧
     DataStore.createdAt userData = DataStore.createdAt user) →
  DataStore.keeps_accounts st
    (Some (DataStore.assign_user username userData (DataStore.getData st))).
Proof.
  intros Hsame. unfold DataStore.assign_user.
  assert (Hins : DataStore.keeps_accounts st
                   (Some (DataStore.mkData
                            (<[username := userData]>
                               (DataStore.users (DataStore.getData st)))
                            (DataStore.currentUser (DataStore.getData st))))).
  { intros name user Hu. rewrite getUser_insert.
    destruct (decide (username = name)) as [->|Hne].
    - exists userData. split; [reflexivity | exact (Hsame user Hu)].
    - exists user. auto. }
  destruct (DataStore.users (DataStore.getData st) !! username); [exact Hins|].
  destruct (String.eqb username "__proto__"); [|exact Hins].
  apply keeps_accounts_same_users. reflexivity.
Qed.

Lemma keeps_accounts_saveUser accepted username userData st :
  (∀ user, DataStore.getUser st username = DataStore.Own user →
     DataStore.password userData = DataStore.password user ∧
     DataStore.createdAt userData = DataStore.createdAt user) →
  DataStore.keeps_accounts st (DataStore.saveUser accepted username userData st).
Proof.
  intros Hsame. destruct accepted; [|apply keeps_accounts_refl].
  apply keeps_accounts_assign, Hsame.
Qed.

Lemma keeps_accounts_addLoginRecord accepted username now st st' :
  DataStore.addLoginRecord accepted username now st = DataStore.Normal st' →
  DataStore.keeps_accounts st st'.
Proof.
  destruct (DataStore.getUser st username) as [user| |] eqn:Hu.
  - rewrite (addLoginRecord_own _ _ _ _ _ Hu). intros H. apply Normal_inj in H as <-.
    apply keeps_accounts_saveUser. intros user0 Hu0.
    assert (user0 = user) by congruence. subst user0. split; reflexivity.
  - unfold DataStore.addLoginRecord. rewrite Hu.
    destruct (String.eqb username "__proto__"); [discriminate|].
    intros H. apply Normal_inj in H as <-.
    apply keeps_accounts_same_users. destruct accepted; reflexivity.
  - unfold DataStore.addLoginRecord. rewrite Hu.
    intros H. apply Normal_inj in H as <-.
    apply keeps_accounts_saveUser. intros user0 Hu0. congruence.
Qed.

Lemma keeps_accounts_addScore accepted username sc now st st' :
  DataStore.addScore accepted username sc now st = DataStore.Normal st' →
  DataStore.keeps_accounts st st'.
Proof.
  destruct (DataStore.getUser st username) as [user| |] eqn:Hu.
  - rewrite (addScore_own _ _ _ _ _ _ Hu). intros H. apply Normal_inj in H as <-.
    apply keeps_accounts_saveUser. intros user0 Hu0.
    assert (user0 = user) by congruence. subst user0. split; reflexivity.
  - unfold DataStore.addScore. rewrite Hu. discriminate.
  - unfold DataStore.addScore. rewrite Hu. intros H. apply Normal_inj in H as <-.
    apply keeps_accounts_refl.
Qed.

Lemma keeps_accounts_login accepted1 accepted2 username pass now ss r ss' :
  UserManager.login trim accepted1 accepted2 username pass now ss
  = DataStore.Normal (r, ss') →
  DataStore.keeps_accounts (UserManager.storage ss) (UserManager.storage ss').
Proof.
  intros Hl.
  destruct (login_cases trim accepted1 accepted2 username pass now ss)
    as [(Hb & H)|[(_ & Hb & H)|[(Hu & Hp & Ht & H)|[(_ & _ & Ht & Hn & H)
        |[(_ & _ & Ht & _ & Hv & H)|(Hu & Hp & Ht & Hv & user & Hown & H)]]]]];
    rewrite H in Hl; try discriminate; apply Normal_pair_inj in Hl as [<- <-];
    try apply keeps_accounts_refl.
  cbn [UserManager.storage].
  eapply keeps_accounts_trans; [apply keeps_accounts_setCurrentUser|].
  apply keeps_accounts_saveUser. intros user0 Hu0.
  rewrite getUser_setCurrentUser in Hu0.
  assert (user0 = user) by congruence. subst user0. split; reflexivity.
Qed.

Lemma keeps_accounts_register accepted username pass confirm now ss r ss' :
  UserManager.register trim js_length accepted username pass confirm now ss
  = DataStore.Normal (r, ss') →
  DataStore.keeps_accounts (UserManager.storage ss) (UserManager.storage ss').
Proof.
  intros Hr.
  destruct (register_cases trim js_length accepted username pass confirm now ss)
    as [(Hn & m & H)|[(_ & Ht & H)|[(_ & Hex & H)|(_ & Hex & H)]]];
    rewrite H in Hr; try discriminate; apply Normal_pair_inj in Hr as [<- <-];
    try apply keeps_accounts_refl.
  cbn [UserManager.storage]. destruct accepted; [|apply keeps_accounts_refl].
  apply keeps_accounts_assign. intros user Hu.
  apply userExists_false in Hex as [_ Hnone]. apply getUser_own in Hu. congruence.
Qed.

Lemma keeps_accounts_handleGameOver accepted now sc app :
  DataStore.keeps_accounts (UserManager.storage (session app))
    (UserManager.storage (session (handleGameOver accepted now sc app))).
Proof.
  unfold handleGameOver. destruct (negb _); [|apply keeps_accounts_refl].
  destruct (UserManager.getCurrentUsername _) as [u|]; [|apply keeps_accounts_refl].
  destruct (String.eqb u ""); [apply keeps_accounts_refl|].
  destruct (DataStore.addScore _ _ _ _ _) as [st| |] eqn:Ha;
    [|apply keeps_accounts_refl ..].
  cbn [session UserManager.storage]. exact (keeps_accounts_addScore _ _ _ _ _ _ Ha).
Qed.

Lemma keeps_accounts_timerFires accepted now id app :
  DataStore.keeps_accounts (UserManager.storage (session app))
    (UserManager.storage (session (timerFires random accepted now id app))).
Proof.
  unfold timerFires. destruct (timer_live id (game app)); [|apply keeps_accounts_refl].
  cbv zeta. set (app0 := mkApp _ _).
  change (session app) with (session app0). clearbody app0.
  induction (emitted (update random (game app))) as [|e evs IH] in app0 |- *;
    [apply keeps_accounts_refl|].
  cbn [foldl]. eapply keeps_accounts_trans; [|apply IH].
  destruct e; try apply keeps_accounts_refl. apply keeps_accounts_handleGameOver.
Qed.

Lemma keeps_accounts_handle e app :
  DataStore.keeps_accounts (UserManager.storage (session app))
    (UserManager.storage (session (handle random trim js_length e app))).
Proof.
  destruct e; cbn [handle].
  - unfold handleLogin.
    pose proof (keeps_accounts_login accepted1 accepted2 username password now
                  (session app)) as Hk.
    destruct (UserManager.login _ _ _ _ _ _ _) as [[result ss]| |];
      [|apply keeps_accounts_refl ..].
    specialize (Hk result ss eq_refl).
    destruct (UserManager.success result); [|exact Hk].
    rewrite session_showGameSection. exact Hk.
  - unfold handleRegister.
    pose proof (keeps_accounts_register accepted username password confirmPassword now
                  (session app)) as Hk.
    destruct (UserManager.register _ _ _ _ _ _ _ _) as [[result ss]| |];
      [|apply keeps_accounts_refl ..].
    exact (Hk result ss eq_refl).
  - unfold handleGuestLogin. rewrite session_showGameSection.
    apply keeps_accounts_setCurrentUser.
  - apply keeps_accounts_setCurrentUser.
  - rewrite session_handleStartGame. apply keeps_accounts_refl.
  - unfold handlePauseGame. destruct (negb _); [apply keeps_accounts_refl|].
    destruct (isPaused _); apply keeps_accounts_refl.
  - apply keeps_accounts_refl.
  - apply keeps_accounts_refl.
  - apply keeps_accounts_timerFires.
Qed.

Lemma capped_handle e app :
  DataStore.capped (UserManager.storage (session app)) →
  DataStore.capped (UserManager.storage (session (handle random trim js_length e app))).
Proof.
  intros Hc. destruct e; cbn [handle].
  - unfold handleLogin.
    pose proof (capped_login trim accepted1 accepted2 username password now
                  (session app)) as Hk.
    destruct (UserManager.login _ _ _ _ _ _ _) as [[result ss]| |]; [|exact Hc ..].
    specialize (Hk result ss Hc eq_refl).
    destruct (UserManager.success result); [|exact Hk].
    rewrite session_showGameSection. exact Hk.
  - unfold handleRegister.
    pose proof (capped_register trim js_length accepted username password
                  confirmPassword now (session app)) as Hk.
    destruct (UserManager.register _ _ _ _ _ _ _ _) as [[result ss]| |]; [|exact Hc ..].
    exact (Hk result ss Hc eq_refl).
  - unfold handleGuestLogin. rewrite session_showGameSection.
    apply capped_setCurrentUser, Hc.
  - apply capped_setCurrentUser, Hc.
  - rewrite session_handleStartGame. exact Hc.
  - unfold handlePauseGame. destruct (negb _); [exact Hc|].
    destruct (isPaused _); exact Hc.
  - exact Hc.
  - exact Hc.
  - apply capped_timerFires, Hc.
Qed.

(** X26.  Nothing that happens on the page removes an account or changes
    its password or its date of creation: every user stored when the page
    starts is still stored, with the same password, after every series of
    clicks, keys and timer firings, whether or not the browser accepts the
    writes.  If the history lists held at most 20 entries at the start,
    they still do. *)
Theorem page_keeps_accounts width height st evs :
  let app := after_events random trim js_length evs (UIController.init random width height st).1 in
  DataStore.keeps_accounts st (UserManager.storage (session app)) ∧
  (DataStore.capped st → DataStore.capped (UserManager.storage (session app))).
Proof.
  intros app. subst app.
  assert (H0 : session (UIController.init random width height st).1 = UserManager.mkSession st false).
  { unfold UIController.init, checkLoginStatus. destruct (UserManager.isLoggedIn _);
      [apply session_showGameSection | reflexivity]. }
  assert (Hgen : ∀ app0,
            DataStore.keeps_accounts (UserManager.storage (session app0))
              (UserManager.storage
                 (session (after_events random trim js_length evs app0))) ∧
            (DataStore.capped (UserManager.storage (session app0)) →
             DataStore.capped
               (UserManager.storage
                  (session (after_events random trim js_length evs app0))))).
  { unfold after_events. induction evs as [|e evs IH]; intros app0;
      [split; [apply keeps_accounts_refl | auto]|].
    cbn [foldl]. destruct (IH (handle random trim js_length e app0)) as [Hk Hc].
    split.
    - eapply keeps_accounts_trans; [apply keeps_accounts_handle | exact Hk].
    - intros Hc0. apply Hc, capped_handle, Hc0. }
  specialize (Hgen (UIController.init random width height st).1).
  rewrite H0 in Hgen. exact Hgen.
Qed.

End PageRuns.

(** ** The further properties on concrete inputs *)

Lemma reachable_paused_game : reachable always_065 paused_game.
Proof. apply reachable_run. exists 200, 200. constructor. Qed.

Lemma registerUser_new_or_refused_witness :
  ∃ st',
    DataStore.registerUser true "lin" "secret" "2024-05-01T10:00:00.000Z" None
    = DataStore.Normal (true, st') ∧
    DataStore.getUser st' "lin"
    = DataStore.Own (DataStore.mkUser (Some "secret") [] []
                       (Some "2024-05-01T10:00:00.000Z")).
Proof.
  destruct (proj2 (proj2 (registerUser_new_or_refused "lin" "secret"
                            "2024-05-01T10:00:00.000Z" None)))
    as (_ & st' & Hreg & _ & _ & _ & Hnew); [vm_compute; reflexivity|].
  exists st'. split; [exact Hreg|].
  apply Hnew. discriminate.
Defined.

Lemma addLoginRecord_prepends_and_caps_witness :
  ∃ st',
    DataStore.addLoginRecord true "lin" "2024-06-01T09:00:00.000Z" DataStore.veteran_store
    = DataStore.Normal st' ∧
    DataStore.getUser st' "lin"
    = DataStore.Own
        (DataStore.mkUser (DataStore.password DataStore.veteran)
           (take 20 ("2024-06-01T09:00:00.000Z"
                     :: DataStore.loginHistory DataStore.veteran))
           (DataStore.scores DataStore.veteran)
           (DataStore.createdAt DataStore.veteran)).
Proof.
  destruct (proj1 (addLoginRecord_prepends_and_caps "lin" "2024-06-01T09:00:00.000Z"
                     DataStore.veteran_store) DataStore.veteran)
    as (_ & _ & _ & st' & Hadd & Hget & _); [vm_compute; reflexivity|].
  exists st'. split; [exact Hadd | exact Hget].
Defined.

Lemma getHighScore_is_best_witness :
  30 ≤ DataStore.getHighScore DataStore.veteran_store "lin".
Proof.
  apply (proj1 (proj2 (proj2 (proj2 (getHighScore_is_best DataStore.veteran_store "lin"))
                         DataStore.veteran ltac:(vm_compute; reflexivity)))
           (DataStore.mkScoreRecord 30 "2024-05-01T10:00:00.000Z")).
  unfold DataStore.veteran. cbn. left.
Defined.

Lemma getHighScore_after_addScore_witness :
  ∃ st',
    DataStore.addScore true "lin" 40 "2024-06-01T09:00:00.000Z"
      (UserManager.storage UserManager.lin_registered)
    = DataStore.Normal st' ∧
    DataStore.getHighScore st' "lin"
    = Z.max 40 (DataStore.getHighScore (UserManager.storage UserManager.lin_registered)
                  "lin").
Proof.
  destruct (getHighScore_after_addScore "lin" 40 "2024-06-01T09:00:00.000Z"
              (UserManager.storage UserManager.lin_registered)
              (DataStore.mkUser (Some "secret") [] [] (Some "2024-05-01T10:00:00.000Z")))
    as (st' & Hadd & _ & _ & H); [vm_compute; reflexivity|].
  exists st'. split; [exact Hadd|].
  apply H; [cbn; lia | right; lia].
Defined.

Lemma login_checks_and_records_witness :
  ∃ ss',
    UserManager.login UserManager.ascii_trim true true " lin " "secret"
      "2024-05-02T08:30:00.000Z" UserManager.lin_registered
    = DataStore.Normal (UserManager.mkResult true UserManager.LoginOk, ss').
Proof.
  apply (proj2 (proj1 (proj2 (proj2 (login_checks_and_records UserManager.ascii_trim
                                        true true " lin " "secret"
                                        "2024-05-02T08:30:00.000Z"
                                        UserManager.lin_registered))))).
  repeat split; vm_compute; reflexivity.
Defined.

Lemma register_checks_and_keeps_witness :
  UserManager.register UserManager.ascii_trim String.length true "size" "secret" "secret"
    "2024-05-03T12:00:00.000Z" UserManager.trapped
  = DataStore.TypeError.
Proof.
  apply (proj2 (proj1 (register_checks_and_keeps UserManager.ascii_trim String.length
                         true "size" "secret" "secret" "2024-05-03T12:00:00.000Z"
                         UserManager.trapped))).
  split; [vm_compute; reflexivity|]. split; [vm_compute; reflexivity|].
  split; [vm_compute; lia|]. split; [reflexivity|]. vm_compute. discriminate.
Defined.

Lemma register_then_login_witness :
  ∃ ss'',
    UserManager.login UserManager.ascii_trim true true " lin " "secret"
      "2024-05-02T08:30:00.000Z" UserManager.lin_registered
    = DataStore.Normal (UserManager.mkResult true UserManager.LoginOk, ss'').
Proof.
  destruct (register_then_login UserManager.ascii_trim String.length " lin " "secret"
              "secret" "2024-05-01T10:00:00.000Z" (UserManager.mkSession None false)
              UserManager.lin_registered ltac:(vm_compute; reflexivity))
    as (Hplain & _).
  destruct Hplain as [Hok _]; [vm_compute; discriminate | vm_compute; discriminate |].
  exact (Hok true true "2024-05-02T08:30:00.000Z").
Defined.

Lemma snake_is_a_simple_path_witness :
  NoDup (snake (run always_065 [SetCallbacks true true; Start; TimerFires 1]
                  (constructor 200 200)).1).
Proof.
  refine (proj1 (snake_is_a_simple_path always_065 200 200
                   [SetCallbacks true true; Start; TimerFires 1] _)).
  repeat constructor.
Defined.

Lemma snake_stays_on_grid_witness :
  Forall (inside (run always_065 [SetCallbacks true true; Start; TimerFires 1]
                    (constructor 200 200)).1)
    (snake (run always_065 [SetCallbacks true true; Start; TimerFires 1]
              (constructor 200 200)).1).
Proof.
  apply (snake_stays_on_grid always_065 200 200
           [SetCallbacks true true; Start; TimerFires 1]).
  - repeat constructor.
  - vm_compute. discriminate.
  - vm_compute. discriminate.
Defined.

Lemma no_action_throws_witness :
  threw (step always_065 (TimerFires 1) running_game) = false.
Proof.
  apply (no_action_throws always_065 running_game (TimerFires 1) reachable_running_game).
Defined.

Lemma head_never_turns_back_witness :
  newHead (run always_065 [SetDirection "left"] running_game).1 ≠ Some (mkCell 5 5).
Proof.
  apply (head_never_turns_back always_065
           (run always_065 [SetDirection "left"] running_game).1 1
           (mkCell 6 5) (mkCell 5 5) [mkCell 4 5]).
  - apply reachable_run. exact reachable_running_game.
  - vm_compute. reflexivity.
  - vm_compute. reflexivity.
Defined.

Lemma food_growth_stays_in_range_witness : growth_in_range running_game.
Proof.
  exact (proj1 (food_growth_stays_in_range always_065 running_game
                  reachable_running_game)).
Defined.

Lemma at_most_one_timer_witness : (length (timers running_game) ≤ 1)%nat.
Proof.
  exact (proj1 (at_most_one_timer always_065 running_game reachable_running_game)).
Defined.

Lemma timer_period_is_speed_witness :
  period_is_speed
    (run always_065 [Start; TimerFires 1; SetDirection "down"; TimerFires 1]
       (constructor 200 200)).1.
Proof.
  apply (timer_period_is_speed always_065 200 200).
  repeat constructor; discriminate.
Defined.

Lemma start_by_phase_witness :
  start always_065 paused_game = (resume paused_game, []).
Proof.
  apply (proj1 (proj2 (start_by_phase always_065 paused_game reachable_paused_game))).
  vm_compute. reflexivity.
Defined.

Lemma tick_callbacks_witness :
  GameOver 0 ∈ emitted (update always_065 at_the_wall).
Proof.
  apply (proj2 (proj1 (tick_callbacks always_065 at_the_wall) 0)).
  split; [vm_compute; reflexivity|]. split; [vm_compute; reflexivity|].
  exists (mkCell 10 5). split; vm_compute; reflexivity.
Defined.

Lemma head_image_points_ahead_witness :
  rotate
    (head_angle
       (direction (run always_065 [Start; SetDirection "up"; TimerFires 1]
                     (constructor 200 200)).1)) up
  = direction (run always_065 [Start; SetDirection "up"; TimerFires 1]
                 (constructor 200 200)).1.
Proof.
  apply (head_image_points_ahead always_065 200 200
           [Start; SetDirection "up"; TimerFires 1]).
  repeat constructor.
Defined.

Lemma last_accepted_input_wins_witness :
  foldl (λ s' dir, setDirection dir s') running_game ["up"; "left"; "sideways"; "down"]
  = set_nextDirection
      (default (nextDirection running_game)
         (last (omap (λ dir, match directions dir with
                             | Some v => if opposite (direction running_game) v
                                         then None else Some v
                             | None => None
                             end) ["up"; "left"; "sideways"; "down"])))
      running_game.
Proof.
  refine (proj1 (last_accepted_input_wins always_065 ["up"; "left"; "sideways"; "down"]
                   running_game _)).
  repeat constructor.
Defined.

Lemma reachable_lin_playing :
  reachable always_065 (UIController.game UIController.lin_playing).
Proof.
  unfold UIController.lin_playing. cbn [UIController.game].
  exact reachable_running_game.
Qed.

Lemma handleStartGame_by_phase_witness :
  UIController.game (UIController.handleStartGame always_065 UIController.lin_playing).1
  = set_speed 120 (UIController.game UIController.lin_playing).
Proof.
  pose proof (handleStartGame_by_phase always_065 UIController.lin_playing
                reachable_lin_playing) as H.
  cbv zeta in H. destruct H as (_ & Hrun & _).
  destruct Hrun as [H _]; [vm_compute; reflexivity | vm_compute; reflexivity | exact H].
Defined.

Lemma handlePauseGame_toggles_witness :
  timers (UIController.game (UIController.handlePauseGame UIController.lin_playing)) = [] ∧
  speed (UIController.game
           (UIController.handlePauseGame
              (UIController.handlePauseGame UIController.lin_playing)))
  = speed (UIController.game UIController.lin_playing).
Proof.
  pose proof (proj2 (handlePauseGame_toggles always_065 UIController.lin_playing
                       reachable_lin_playing)) as H.
  cbv zeta in H.
  destruct H as (_ & _ & Htimers & _ & _ & _ & _ & _ & Hspeed & _);
    [vm_compute; reflexivity | vm_compute; reflexivity |].
  split; [exact Htimers | exact Hspeed].
Defined.

Lemma timerFires_saves_final_score_witness :
  DataStore.getUser
    (UserManager.storage
       (UIController.session
          (UIController.timerFires always_065 true "2024-05-02T08:45:00.000Z" 1
             UIController.lin_at_the_wall))) "lin"
  = DataStore.Own
      (DataStore.mkUser
         (DataStore.password
            (DataStore.mkUser (Some "secret") ["2024-05-02T08:30:00.000Z"] []
               (Some "2024-05-01T10:00:00.000Z")))
         (DataStore.loginHistory
            (DataStore.mkUser (Some "secret") ["2024-05-02T08:30:00.000Z"] []
               (Some "2024-05-01T10:00:00.000Z")))
         (take 20 (DataStore.mkScoreRecord
                     (score (UIController.game UIController.lin_at_the_wall))
                     "2024-05-02T08:45:00.000Z"
                   :: DataStore.scores
                        (DataStore.mkUser (Some "secret") ["2024-05-02T08:30:00.000Z"] []
                           (Some "2024-05-01T10:00:00.000Z"))))
         (DataStore.createdAt
            (DataStore.mkUser (Some "secret") ["2024-05-02T08:30:00.000Z"] []
               (Some "2024-05-01T10:00:00.000Z")))).
Proof.
  apply (proj2 (proj2 (proj2 (proj2 (timerFires_saves_final_score always_065 true
                                       "2024-05-02T08:45:00.000Z" 1
                                       UIController.lin_at_the_wall))))
           (mkCell 10 5) "lin"
           (DataStore.mkUser (Some "secret") ["2024-05-02T08:30:00.000Z"] []
              (Some "2024-05-01T10:00:00.000Z")));
    try (vm_compute; reflexivity).
  discriminate.
Defined.

Lemma history_lists_stay_capped_witness :
  DataStore.capped (UserManager.storage UserManager.lin_logged_in).
Proof.
  destruct (history_lists_stay_capped always_065 UserManager.ascii_trim String.length)
    as (Hempty & _ & Hsession & _).
  refine (proj1 (Hsession UserManager.lin_registered _) true true "lin" "secret"
            "2024-05-02T08:30:00.000Z"
            (UserManager.mkResult true UserManager.LoginOk) UserManager.lin_logged_in _).
  - refine (proj1 (proj2 (Hsession (UserManager.mkSession None false) Hempty))
              true " lin " "secret" "secret" "2024-05-01T10:00:00.000Z"
              (UserManager.mkResult true UserManager.RegisterOk)
              UserManager.lin_registered _).
    vm_compute. reflexivity.
  - vm_compute. reflexivity.
Defined.

Lemma handleLogout_ends_everything_witness :
  halted (UIController.game (UIController.handleLogout true UIController.lin_playing)) ∧
  UserManager.isLoggedIn
    (UIController.session (UIController.handleLogout true UIController.lin_playing))
  = false.
Proof.
  pose proof (handleLogout_ends_everything always_065 UIController.lin_playing
                reachable_lin_playing) as H.
  cbv zeta in H. destruct H as (Hhalted & _ & _ & Hout & _).
  split; [exact Hhalted | exact Hout].
Defined.
Lemma always_065_unit :
  ∀ i, (0 <= always_065 i)%Q ∧ (always_065 i <= 1 - (1 # 9007199254740992))%Q.
Proof. intros i. unfold always_065. split; lra. Qed.

Lemma food_is_on_the_grid_witness : food_well_formed running_game.
Proof.
  apply (food_is_on_the_grid always_065 always_065_unit running_game
           reachable_running_game); vm_compute; (split; [discriminate | reflexivity]).
Defined.
